(** * Permagit backend: payment-gated authorization engine

    A shallow embedding of the Express/Postgres backend (the request
    handlers of the server module and the schema of the database module)
    together with the properties of payment consumption, ticket redemption
    and multisig approval that the handlers establish.

    Conventions of the embedding.
    - JavaScript strings are [string]; timestamps are [Z] (milliseconds).
    - A SQL table is the list of its rows in insertion order; [SELECT ...
      LIMIT 1] and [rows[0]] read the first matching row.  Every [INSERT]
      checks the PRIMARY KEY, UNIQUE and NOT NULL constraints of the schema
      and reports a violation with the Postgres error code.
    - A request handler is a program (type [prog]) whose steps are the
      statements it sends to the store, in source order.  A [BEGIN ..
      COMMIT] block that starts with [SELECT .. FOR UPDATE] is one step.
    - [randomUUID], [randomBytes], [Date.now] and [NOW()] are read from an
      environment that accompanies each request.
    - A threshold in a request body is a JavaScript number ([JS.number]:
      a finite value, an infinity or [NaN]); an INTEGER column holds an
      integer in [Z] (the 32-bit bound is not modelled), and a number
      bound to an INTEGER parameter is read by the store, which refuses
      what is not a whole number.  Counts and minutes are integers in
      [Z]; token amounts are [bigint], hence [Z] as well.
    - The read-only GET routes, the RPC proxy routes and the column
      [usd_value], which no handler writes, are left out.  Foreign keys
      always point at rows that were just read and are never deleted, so
      they cannot fail and are not checked. *)

From Stdlib Require Import ZArith QArith Qround List String Ascii Bool Lia Permutation.
Import ListNotations.

Local Open Scope string_scope.
Local Open Scope Z_scope.

(* ================================================================== *)
(** * JavaScript helpers *)
(* ================================================================== *)

Module JS.

(** Truthiness of a string value that may be absent: [undefined] and the
    empty string are falsy. *)
Definition truthy (v : option string) : bool :=
  match v with
  | Some s => negb (String.eqb s "")
  | None => false
  end.

(** [v || null] for a string-valued field. *)
Definition or_null (v : option string) : option string :=
  if truthy v then v else None.

(** White space removed by [String.prototype.trim] (the ASCII part: TAB,
    LF, VT, FF, CR and SPACE). *)
Definition is_space (c : ascii) : bool :=
  let n := N_of_ascii c in
  ((9 <=? n)%N && (n <=? 13)%N) || (n =? 32)%N.

Fixpoint trim_start (s : string) : string :=
  match s with
  | String c s' => if is_space c then trim_start s' else s
  | EmptyString => EmptyString
  end.

(** Drops trailing white space: a character is kept when it is not a space
    or when something is kept after it. *)
Fixpoint trim_end (s : string) : string :=
  match s with
  | String c s' =>
      match trim_end s' with
      | EmptyString => if is_space c then EmptyString else String c EmptyString
      | rest => String c rest
      end
  | EmptyString => EmptyString
  end.

Definition trim (s : string) : string := trim_end (trim_start s).

(** [s.split(sep)] for a one-character separator. *)
Fixpoint split (sep : ascii) (s : string) : list string :=
  match s with
  | EmptyString => [EmptyString]
  | String c s' =>
      if Ascii.eqb c sep then EmptyString :: split sep s'
      else match split sep s' with
           | x :: xs => String c x :: xs
           | [] => [String c EmptyString]
           end
  end.

(** [arr.includes(x)] on an array of strings. *)
Definition includes (arr : list string) (x : string) : bool :=
  existsb (String.eqb x) arr.

(** Value of a digit in bases up to 36. *)
Definition digit_value (c : ascii) : option Z :=
  let n := Z.of_N (N_of_ascii c) in
  if (48 <=? n) && (n <=? 57) then Some (n - 48)
  else if (97 <=? n) && (n <=? 122) then Some (n - 87)
  else if (65 <=? n) && (n <=? 90) then Some (n - 55)
  else None.

Fixpoint parse_digits (base : Z) (s : string) (acc : Z) : option Z :=
  match s with
  | EmptyString => Some acc
  | String c s' =>
      match digit_value c with
      | Some d => if d <? base then parse_digits base s' (acc * base + d) else None
      | None => None
      end
  end.

Definition parse_nonempty (base : Z) (s : string) : option Z :=
  match s with
  | EmptyString => None
  | _ => parse_digits base s 0
  end.

(** [BigInt(s)] on a string (StringToBigInt): surrounding white space is
    ignored, the empty string is [0n], a decimal literal may carry a sign,
    [0x], [0o] and [0b] literals may not.  [None] is the SyntaxError. *)
Definition BigInt (s : string) : option Z :=
  match trim s with
  | EmptyString => Some 0
  | String "0" (String "x" r) | String "0" (String "X" r) => parse_nonempty 16 r
  | String "0" (String "o" r) | String "0" (String "O" r) => parse_nonempty 8 r
  | String "0" (String "b" r) | String "0" (String "B" r) => parse_nonempty 2 r
  | String "-" r => option_map Z.opp (parse_nonempty 10 r)
  | String "+" r => parse_nonempty 10 r
  | t => parse_nonempty 10 t
  end.

(** [Math.ceil(n / 2)] for an array length [n]. *)
Definition Math_ceil_half (n : nat) : Z :=
  Qceiling (inject_Z (Z.of_nat n) / 2).

(** [\d]: an ASCII decimal digit. *)
Definition is_digit (c : ascii) : bool :=
  let n := N_of_ascii c in
  ((48 <=? n)%N && (n <=? 57)%N).

(** The rest of a string after its leading digits. *)
Fixpoint skip_digits (s : string) : string :=
  match s with
  | String c s' => if is_digit c then skip_digits s' else s
  | EmptyString => EmptyString
  end.

(** [/^(\d+)(\.\d+)?$/.test(s)]: digits, at least one, and then nothing or
    a point and digits, at least one. *)
Definition test_decimal (s : string) : bool :=
  match s with
  | EmptyString => false
  | String c _ =>
      is_digit c
      && match skip_digits s with
         | EmptyString => true
         | String "." (String d f) => is_digit d && String.eqb (skip_digits f) ""
         | _ => false
         end
  end.

(** [c.repeat(n)] for a one-character string. *)
Definition repeat (c : ascii) (n : nat) : string :=
  string_of_list_ascii (List.repeat c n).

(** [s.slice(start, end)]: a negative index counts from the end, and both
    are brought within the string. *)
Definition slice (s : string) (start stop : Z) : string :=
  let len := Z.of_nat (String.length s) in
  let from := if start <? 0 then Z.max (len + start) 0 else Z.min start len in
  let to := if stop <? 0 then Z.max (len + stop) 0 else Z.min stop len in
  String.substring (Z.to_nat from) (Z.to_nat (Z.max (to - from) 0)) s.

(** [s.padStart(targetLength, c)] for a one-character filler. *)
Definition padStart (s : string) (targetLength : Z) (c : ascii) : string :=
  repeat c (Z.to_nat (targetLength - Z.of_nat (String.length s))) ++ s.

(** [s.replace(/^0+/, "")]. *)
Fixpoint strip_leading_zeros (s : string) : string :=
  match s with
  | String "0" s' => strip_leading_zeros s'
  | _ => s
  end.

(** [s.replace(/0+$/, "")]: a character is kept when it is not a zero or
    when something is kept after it. *)
Fixpoint strip_trailing_zeros (s : string) : string :=
  match s with
  | String c s' =>
      match strip_trailing_zeros s' with
      | EmptyString => if Ascii.eqb c "0" then EmptyString else String c EmptyString
      | rest => String c rest
      end
  | EmptyString => EmptyString
  end.

(** The character of a decimal digit. *)
Definition digit_char (d : Z) : ascii := ascii_of_N (48 + Z.to_N d).

(** The decimal digits of [n >= 0], most significant first, in front of
    [acc]; [fuel] bounds the number of digits. *)
Fixpoint digits (fuel : nat) (n : Z) (acc : string) : string :=
  match fuel with
  | O => acc
  | S fuel' =>
      let acc' := String (digit_char (n mod 10)) acc in
      if n <? 10 then acc' else digits fuel' (n / 10) acc'
  end.

(** [n.toString()] for a bigint: a number has no more decimal digits than
    binary ones. *)
Definition BigInt_toString (n : Z) : string :=
  if n <? 0 then String "-" (digits (S (Z.to_nat (Z.log2 (- n)))) (- n) "")
  else digits (S (Z.to_nat (Z.log2 n))) n "".

(** A number: a finite value (every double is a rational), an infinity or
    [NaN]. *)
Inductive number : Type :=
| Finite (q : Q)
| Infinity
| NegInfinity
| NaN.

Definition of_Z (z : Z) : number := Finite (inject_Z z).

(** Truthiness of a number: [0], [-0] and [NaN] are falsy. *)
Definition number_truthy (x : number) : bool :=
  match x with
  | Finite q => negb (Qeq_bool q 0)
  | Infinity | NegInfinity => true
  | NaN => false
  end.

(** [x > z] and [x <= z] for an integer [z]; a comparison with [NaN] is
    false. *)
Definition gt_int (x : number) (z : Z) : bool :=
  match x with
  | Finite q => negb (Qle_bool q (inject_Z z))
  | Infinity => true
  | NegInfinity | NaN => false
  end.

Definition le_int (x : number) (z : Z) : bool :=
  match x with
  | Finite q => Qle_bool q (inject_Z z)
  | NegInfinity => true
  | Infinity | NaN => false
  end.

(** [Number.isNaN(x) ? undefined : x]. *)
Definition unless_NaN (x : number) : option number :=
  match x with
  | NaN => None
  | _ => Some x
  end.

End JS.

(* ================================================================== *)
(** * Signer lists and thresholds *)
(* ================================================================== *)

(** The [signers] field of a request body, as [parseSigners] tells the
    cases apart: an array (whose non-string elements are [None]), a string,
    or anything else. *)
Inductive signers_input : Type :=
| SignersArray (elems : list (option string))
| SignersString (s : string)
| SignersOther.

Definition nonempty (s : string) : bool := negb (String.eqb s "").

Definition parseSigners (input : signers_input) : list string :=
  match input with
  | SignersArray elems =>
      filter nonempty
        (map (fun v => match v with Some s => JS.trim s | None => "" end) elems)
  | SignersString s =>
      if String.eqb s "" then []
      else filter nonempty (map JS.trim (JS.split "," s))
  | SignersOther => []
  end.

(** [calcThreshold(signers, maybeThreshold)]; [None] is [null] (and
    [undefined] on the argument side). *)
Definition calcThreshold (signers : list string) (maybeThreshold : option JS.number)
  : option JS.number :=
  match signers with
  | [] => None
  | _ =>
      match maybeThreshold with
      | Some t =>
          if JS.number_truthy t && JS.gt_int t 0
             && JS.le_int t (Z.of_nat (List.length signers))
          then Some t
          else Some (JS.of_Z (JS.Math_ceil_half (List.length signers)))
      | None => Some (JS.of_Z (JS.Math_ceil_half (List.length signers)))
      end
  end.

(** The same on the whole numbers that the [threshold] column of a stored
    repo holds. *)
Definition effective_threshold (signers : list string) (stored : option Z) : option Z :=
  match signers with
  | [] => None
  | _ =>
      match stored with
      | Some t =>
          if negb (t =? 0) && (0 <? t) && (t <=? Z.of_nat (List.length signers))
          then Some t
          else Some (JS.Math_ceil_half (List.length signers))
      | None => Some (JS.Math_ceil_half (List.length signers))
      end
  end.

(** [0 < x <= n] for a number [x]. *)
Definition positive_up_to (x : JS.number) (n : Z) : Prop :=
  match x with
  | JS.Finite q => (0 < q)%Q /\ (q <= inject_Z n)%Q
  | _ => False
  end.

(* ================================================================== *)
(** * Token amounts *)
(* ================================================================== *)

(** Every character of [s] satisfies [p]. *)
Fixpoint all_chars (p : ascii -> bool) (s : string) : bool :=
  match s with
  | EmptyString => true
  | String c s' => p c && all_chars p s'
  end.

(** [decimalToAtomic(value, decimals)] on a string and an integer number
    of decimals; [inl] is the message of the error thrown ([repeat] throws
    a RangeError on a negative count). *)
Definition decimalToAtomic (value : string) (decimals : Z) : string + Z :=
  let normalized := JS.trim value in
  if negb (JS.test_decimal normalized) then inl "invalid_decimal" else
  let parts := JS.split "." normalized in
  let whole := nth 0 parts "" in
  let fraction := nth 1 parts "" in
  if decimals <? 0
  then inl ("Invalid count value: " ++ JS.BigInt_toString decimals)
  else
    let fracPadded :=
      JS.slice (fraction ++ JS.repeat "0" (Z.to_nat decimals)) 0 decimals in
    let combined := JS.strip_leading_zeros (whole ++ fracPadded) in
    match JS.BigInt (if String.eqb combined "" then "0" else combined) with
    | Some atomic => inr atomic
    | None => inl "Cannot convert to a BigInt"
    end.

(** [atomicToDecimal(amount, decimals)]. *)
Definition atomicToDecimal (amount : Z) (decimals : Z) : string :=
  let negative := amount <? 0 in
  let abs := if negative then - amount else amount in
  let raw := JS.padStart (JS.BigInt_toString abs) (decimals + 1) "0" in
  let length := Z.of_nat (String.length raw) in
  let intPart :=
    if decimals =? 0 then raw
    else let s := JS.slice raw 0 (length - decimals) in
         if String.eqb s "" then "0" else s in
  let fracPart :=
    if decimals =? 0 then ""
    else JS.strip_trailing_zeros (JS.slice raw (- decimals) length) in
  (if negative then "-" else "") ++ intPart
  ++ (if String.eqb fracPart "" then "" else "." ++ fracPart).

(* ================================================================== *)
(** * Ledger verification *)
(* ================================================================== *)

(** Module-level configuration read from the process environment. *)
Record Config : Type := {
  PAYMENT_DESTINATION : string;
  PAYMENT_TOKEN_MINT : string;
  PAYMENT_TOKEN_DECIMALS : Z;
  PAYMENT_MIN_TOKENS : string;
  MIN_PAYMENT_ATOMIC : Z
}.

(** The part of an RPC [getTransaction] response that the server reads. *)
Module Solana.

Record UiTokenAmount : Type := {
  amount : option string;
  decimals : option Z
}.

Record TokenBalance : Type := {
  accountIndex : Z;
  mint : string;
  owner : option string;
  uiTokenAmount : option UiTokenAmount
}.

Record TxMeta : Type := {
  err : bool;   (* [meta.err] is not null *)
  preTokenBalances : option (list TokenBalance);
  postTokenBalances : option (list TokenBalance)
}.

Record TxResponse : Type := {
  meta : option TxMeta
}.

End Solana.

(** A thrown [Error]: its message. *)
Definition exn : Type := string.

Definition or_empty {A : Type} (l : option (list A)) : list A :=
  match l with Some l => l | None => [] end.

Definition owner_is (e : Solana.TokenBalance) (who : string) : bool :=
  match Solana.owner e with Some o => String.eqb o who | None => false end.

(** [entry.uiTokenAmount?.amount || "0"]. *)
Definition amount_or_zero (e : option Solana.TokenBalance) : string :=
  match e with
  | Some e =>
      match Solana.uiTokenAmount e with
      | Some u => match JS.or_null (Solana.amount u) with Some a => a | None => "0" end
      | None => "0"
      end
  | None => "0"
  end.

Record ChainInfo : Type := {
  amountAtomic : Z;
  chain_decimals : Z
}.

Definition find_dest (cfg : Config) (post : list Solana.TokenBalance) : option Solana.TokenBalance :=
  find (fun entry => owner_is entry (PAYMENT_DESTINATION cfg)
                     && String.eqb (Solana.mint entry) (PAYMENT_TOKEN_MINT cfg)) post.

Definition find_preMatch (cfg : Config) (pre : list Solana.TokenBalance) (dest : Solana.TokenBalance)
  : option Solana.TokenBalance :=
  find (fun entry => String.eqb (Solana.mint entry) (PAYMENT_TOKEN_MINT cfg)
                     && owner_is entry (PAYMENT_DESTINATION cfg)
                     && (Solana.accountIndex entry =? Solana.accountIndex dest)) pre.

(** The part of [verifyTokenPayment] that follows the RPC call: [tx] is the
    value [conn.getTransaction] resolved to. *)
Definition verifyTokenPayment_check (cfg : Config) (tx : option Solana.TxResponse)
  : exn + ChainInfo :=
  match tx with
  | None => inl "transaction_not_found"
  | Some tx =>
  match Solana.meta tx with
  | None => inl "transaction_not_found"
  | Some m =>
      if Solana.err m then inl "transaction_failed" else
      let postBalances := or_empty (Solana.postTokenBalances m) in
      let preBalances := or_empty (Solana.preTokenBalances m) in
      match find_dest cfg postBalances with
      | None => inl "destination_not_involved"
      | Some dest =>
          let preMatch := find_preMatch cfg preBalances dest in
          match JS.BigInt (amount_or_zero (Some dest)) with
          | None => inl "SyntaxError"
          | Some postAmount =>
          match JS.BigInt (amount_or_zero preMatch) with
          | None => inl "SyntaxError"
          | Some preAmount =>
              let delta := postAmount - preAmount in
              if delta <=? 0 then inl "no_deposit_detected"
              else inr {| amountAtomic := delta;
                          chain_decimals :=
                            match Solana.uiTokenAmount dest with
                            | Some u =>
                                match Solana.decimals u with
                                | Some d => d
                                | None => PAYMENT_TOKEN_DECIMALS cfg
                                end
                            | None => PAYMENT_TOKEN_DECIMALS cfg
                            end |}
          end
          end
      end
  end
  end.

Definition env_configured (cfg : Config) : bool :=
  nonempty (PAYMENT_DESTINATION cfg) && nonempty (PAYMENT_TOKEN_MINT cfg).

(* ================================================================== *)
(** * The relational store *)
(* ================================================================== *)

(** One module per table of [initSchema]; the fields are the columns that
    the handlers read or write. *)

Module Payments.
Record Metadata : Type := {
  meta_decimals : Z;
  minTokens : string;
  destination : string;
  meta_mint : string
}.
Record row : Type := {
  id : string;                    (* TEXT PRIMARY KEY *)
  tx_sig : string;                (* TEXT UNIQUE NOT NULL *)
  payer : string;                 (* TEXT NOT NULL *)
  purpose : string;               (* TEXT NOT NULL *)
  token_amount_atomic : Z;        (* NUMERIC NOT NULL *)
  status : string;                (* TEXT NOT NULL DEFAULT 'pending' *)
  repo_name : option string;
  consumed_at : option Z;         (* TIMESTAMPTZ *)
  metadata : Metadata;
  created_at : Z
}.
Definition set_status (v : string) (r : row) : row :=
  {| id := id r; tx_sig := tx_sig r; payer := payer r; purpose := purpose r;
     token_amount_atomic := token_amount_atomic r; status := v;
     repo_name := repo_name r; consumed_at := consumed_at r;
     metadata := metadata r; created_at := created_at r |}.
Definition set_consumed_at (v : option Z) (r : row) : row :=
  {| id := id r; tx_sig := tx_sig r; payer := payer r; purpose := purpose r;
     token_amount_atomic := token_amount_atomic r; status := status r;
     repo_name := repo_name r; consumed_at := v;
     metadata := metadata r; created_at := created_at r |}.
End Payments.

Module Repos.
Record row : Type := {
  id : string;                    (* TEXT PRIMARY KEY *)
  name : string;                  (* TEXT NOT NULL *)
  owner : string;                 (* TEXT NOT NULL; UNIQUE(owner, name) *)
  is_private : bool;
  is_multisig : bool;
  threshold : option Z;           (* INTEGER *)
  signers : list string;          (* JSONB array *)
  payment_tx : option string;
  created_at : Z
}.
End Repos.

Module Pushes.
Record row : Type := {
  id : string;                    (* TEXT PRIMARY KEY *)
  repo_id : option string;
  tx_id : string;                 (* TEXT UNIQUE NOT NULL *)
  owner : option string;
  repo : option string;
  branch : option string;
  encrypted : bool;
  created_at : Z
}.
End Pushes.

Module OtpTokens.
Record row : Type := {
  id : string;                    (* TEXT PRIMARY KEY *)
  repo_id : string;
  payment_tx : string;
  otp_plain : string;             (* TEXT NOT NULL *)
  decrypt_key : string;           (* TEXT NOT NULL *)
  bundle_tx : string;             (* TEXT NOT NULL *)
  expires_at : option Z;
  used_at : option Z;
  created_at : Z
}.
Definition set_used_at (v : option Z) (r : row) : row :=
  {| id := id r; repo_id := repo_id r; payment_tx := payment_tx r;
     otp_plain := otp_plain r; decrypt_key := decrypt_key r;
     bundle_tx := bundle_tx r; expires_at := expires_at r; used_at := v;
     created_at := created_at r |}.
End OtpTokens.

Module MultisigPushes.
Record row : Type := {
  id : string;                    (* TEXT PRIMARY KEY *)
  repo_id : string;               (* TEXT NOT NULL *)
  push_tx : string;               (* TEXT NOT NULL; UNIQUE(repo_id, push_tx) *)
  branch : option string;
  status : string;                (* TEXT NOT NULL DEFAULT 'pending' *)
  approvals_required : Z;         (* INTEGER NOT NULL *)
  approvals_count : Z;            (* INTEGER NOT NULL DEFAULT 0 *)
  created_at : Z;
  approved_at : option Z
}.
Definition set_approved (count now : Z) (r : row) : row :=
  {| id := id r; repo_id := repo_id r; push_tx := push_tx r; branch := branch r;
     status := "approved"; approvals_required := approvals_required r;
     approvals_count := count; created_at := created_at r;
     approved_at := Some now |}.
Definition set_approvals_count (count : Z) (r : row) : row :=
  {| id := id r; repo_id := repo_id r; push_tx := push_tx r; branch := branch r;
     status := status r; approvals_required := approvals_required r;
     approvals_count := count; created_at := created_at r;
     approved_at := approved_at r |}.
End MultisigPushes.

Module MultisigSignatures.
Record row : Type := {
  id : string;                    (* TEXT PRIMARY KEY *)
  multisig_push_id : string;
  signer : string;                (* TEXT NOT NULL; UNIQUE(multisig_push_id, signer) *)
  signature_b64 : string;         (* TEXT NOT NULL *)
  created_at : Z
}.
End MultisigSignatures.

Record DB : Type := {
  payments : list Payments.row;
  repos : list Repos.row;
  pushes : list Pushes.row;
  otp_tokens : list OtpTokens.row;
  multisig_pushes : list MultisigPushes.row;
  multisig_signatures : list MultisigSignatures.row
}.

Definition empty_db : DB :=
  {| payments := []; repos := []; pushes := []; otp_tokens := [];
     multisig_pushes := []; multisig_signatures := [] |}.

Definition with_payments (v : list Payments.row) (db : DB) : DB :=
  {| payments := v; repos := repos db; pushes := pushes db;
     otp_tokens := otp_tokens db; multisig_pushes := multisig_pushes db;
     multisig_signatures := multisig_signatures db |}.
Definition with_repos (v : list Repos.row) (db : DB) : DB :=
  {| payments := payments db; repos := v; pushes := pushes db;
     otp_tokens := otp_tokens db; multisig_pushes := multisig_pushes db;
     multisig_signatures := multisig_signatures db |}.
Definition with_pushes (v : list Pushes.row) (db : DB) : DB :=
  {| payments := payments db; repos := repos db; pushes := v;
     otp_tokens := otp_tokens db; multisig_pushes := multisig_pushes db;
     multisig_signatures := multisig_signatures db |}.
Definition with_otp_tokens (v : list OtpTokens.row) (db : DB) : DB :=
  {| payments := payments db; repos := repos db; pushes := pushes db;
     otp_tokens := v; multisig_pushes := multisig_pushes db;
     multisig_signatures := multisig_signatures db |}.
Definition with_multisig_pushes (v : list MultisigPushes.row) (db : DB) : DB :=
  {| payments := payments db; repos := repos db; pushes := pushes db;
     otp_tokens := otp_tokens db; multisig_pushes := v;
     multisig_signatures := multisig_signatures db |}.
Definition with_multisig_signatures (v : list MultisigSignatures.row) (db : DB) : DB :=
  {| payments := payments db; repos := repos db; pushes := pushes db;
     otp_tokens := otp_tokens db; multisig_pushes := multisig_pushes db;
     multisig_signatures := v |}.

(** Errors raised by the store, with the SQLSTATE code that the driver
    exposes as [err.code]. *)
Record pg_error : Type := {
  code : string;
  pg_message : string
}.

Definition unique_violation (constraint : string) : pg_error :=
  {| code := "23505";
     pg_message := "duplicate key value violates unique constraint " ++ constraint |}.

Definition not_null_violation (column : string) : pg_error :=
  {| code := "23502";
     pg_message := "null value violates not-null constraint in column " ++ column |}.

Definition invalid_text_representation (type : string) : pg_error :=
  {| code := "22P02"; pg_message := "invalid input syntax for type " ++ type |}.

(** The value that an INTEGER parameter takes from a JavaScript number.
    The driver sends the number as its text and the store reads the text
    as an integer: a whole number is accepted, and a fraction, an infinity
    or [NaN] is refused (the quoted text that ends the store's message is
    left out). *)
Definition pg_integer (x : JS.number) : pg_error + Z :=
  match x with
  | JS.Finite q =>
      if Qeq_bool (inject_Z (Qfloor q)) q then inr (Qfloor q)
      else inl (invalid_text_representation "integer")
  | _ => inl (invalid_text_representation "integer")
  end.

(** The same for a parameter that may be [null]. *)
Definition integer_or_null (x : option JS.number) : pg_error + option Z :=
  match x with
  | None => inr None
  | Some x =>
      match pg_integer x with
      | inl e => inl e
      | inr z => inr (Some z)
      end
  end.

(** A statement with an INTEGER parameter that is given as a number: the
    parameter is read before any row is touched. *)
Definition with_integer {R : Type} (x : JS.number) (stmt : Z -> DB -> pg_error + R)
  : DB -> pg_error + R :=
  fun db => match pg_integer x with
            | inl e => inl e
            | inr z => stmt z db
            end.

Definition with_integer_or_null {R : Type} (x : option JS.number)
    (stmt : option Z -> DB -> pg_error + R) : DB -> pg_error + R :=
  fun db => match integer_or_null x with
            | inl e => inl e
            | inr z => stmt z db
            end.

(** [UPDATE t SET .. WHERE cond]: every row that satisfies [cond] is
    rewritten in place. *)
Definition update_where {A : Type} (cond : A -> bool) (f : A -> A) (l : list A)
  : list A :=
  map (fun r => if cond r then f r else r) l.

(** The [rowCount] of such an update. *)
Definition count_where {A : Type} (cond : A -> bool) (l : list A) : Z :=
  Z.of_nat (List.length (filter cond l)).

(* ------------------------------------------------------------------ *)
(** ** Statements *)
(* ------------------------------------------------------------------ *)

(** [SELECT * FROM payments WHERE tx_sig = $1] (with [LIMIT 1] or [FOR
    UPDATE]), read through [rows[0]]. *)
Definition select_payment (txSig : string) (db : DB) : option Payments.row :=
  find (fun r => String.eqb (Payments.tx_sig r) txSig) (payments db).

(** [INSERT INTO payments (id, tx_sig, payer, purpose, token_amount_atomic,
    status, repo_name, metadata) VALUES ($1, .., 'confirmed', ..) RETURNING *]. *)
Definition insert_payment (id txSig : string) (payer : option string)
    (purpose : string) (amount : Z) (repoName : option string)
    (metadata : Payments.Metadata) (now : Z) (db : DB)
  : pg_error + DB * Payments.row :=
  match payer with
  | None => inl (not_null_violation "payer")
  | Some payer =>
      if existsb (fun r => String.eqb (Payments.id r) id) (payments db)
      then inl (unique_violation "payments_pkey")
      else if existsb (fun r => String.eqb (Payments.tx_sig r) txSig) (payments db)
      then inl (unique_violation "payments_tx_sig_key")
      else
        let row := {| Payments.id := id; Payments.tx_sig := txSig;
                      Payments.payer := payer; Payments.purpose := purpose;
                      Payments.token_amount_atomic := amount;
                      Payments.status := "confirmed";
                      Payments.repo_name := repoName;
                      Payments.consumed_at := None;
                      Payments.metadata := metadata;
                      Payments.created_at := now |} in
        inr (with_payments (payments db ++ [row]) db, row)
  end.

(** [UPDATE payments SET status = 'confirmed' WHERE id = $1]. *)
Definition update_payment_confirmed (id : string) (db : DB) : DB :=
  with_payments
    (update_where (fun r => String.eqb (Payments.id r) id)
                  (Payments.set_status "confirmed") (payments db)) db.

(** [UPDATE payments SET consumed_at = NOW() WHERE id = $1]. *)
Definition update_payment_consumed (id : string) (now : Z) (db : DB) : DB :=
  with_payments
    (update_where (fun r => String.eqb (Payments.id r) id)
                  (Payments.set_consumed_at (Some now)) (payments db)) db.

(** [SELECT * FROM repos WHERE id = $1 LIMIT 1]. *)
Definition select_repo_by_id (id : string) (db : DB) : option Repos.row :=
  find (fun r => String.eqb (Repos.id r) id) (repos db).

(** [SELECT * FROM repos WHERE owner = $1 AND name = $2 LIMIT 1]. *)
Definition select_repo_by_owner_name (owner name : string) (db : DB)
  : option Repos.row :=
  find (fun r => String.eqb (Repos.owner r) owner && String.eqb (Repos.name r) name)
       (repos db).

Definition repo_pkey_taken (row : Repos.row) (db : DB) : bool :=
  existsb (fun r => String.eqb (Repos.id r) (Repos.id row)) (repos db).

Definition repo_owner_name_taken (row : Repos.row) (db : DB) : bool :=
  existsb (fun r => String.eqb (Repos.owner r) (Repos.owner row)
                    && String.eqb (Repos.name r) (Repos.name row)) (repos db).

(** [INSERT INTO repos (..) VALUES (..) ON CONFLICT (owner, name) DO NOTHING
    RETURNING *]: the rows returned. *)
Definition insert_repo_on_conflict_do_nothing (row : Repos.row) (db : DB)
  : pg_error + DB * list Repos.row :=
  if repo_owner_name_taken row db then inr (db, [])
  else if repo_pkey_taken row db then inl (unique_violation "repos_pkey")
  else inr (with_repos (repos db ++ [row]) db, [row]).

(** [INSERT INTO repos (..) VALUES (..) RETURNING *]. *)
Definition insert_repo (row : Repos.row) (db : DB) : pg_error + DB * Repos.row :=
  if repo_pkey_taken row db then inl (unique_violation "repos_pkey")
  else if repo_owner_name_taken row db
  then inl (unique_violation "repos_owner_name_key")
  else inr (with_repos (repos db ++ [row]) db, row).

(** [UPDATE repos SET is_multisig = true, threshold = $1, signers = $2,
    payment_tx = COALESCE(payment_tx, $3) WHERE id = $4]. *)
Definition update_repo_multisig (threshold : Z) (signers : list string)
    (paymentTx : option string) (id : string) (db : DB) : DB :=
  with_repos
    (update_where (fun r => String.eqb (Repos.id r) id)
       (fun r => {| Repos.id := Repos.id r; Repos.name := Repos.name r;
                    Repos.owner := Repos.owner r;
                    Repos.is_private := Repos.is_private r;
                    Repos.is_multisig := true;
                    Repos.threshold := Some threshold;
                    Repos.signers := signers;
                    Repos.payment_tx :=
                      match Repos.payment_tx r with
                      | Some p => Some p
                      | None => paymentTx
                      end;
                    Repos.created_at := Repos.created_at r |})
       (repos db)) db.

(** [INSERT INTO pushes (..) VALUES (..) ON CONFLICT (tx_id) DO NOTHING]. *)
Definition insert_push_on_conflict_do_nothing (row : Pushes.row) (db : DB)
  : pg_error + DB :=
  if existsb (fun r => String.eqb (Pushes.tx_id r) (Pushes.tx_id row)) (pushes db)
  then inr db
  else if existsb (fun r => String.eqb (Pushes.id r) (Pushes.id row)) (pushes db)
  then inl (unique_violation "pushes_pkey")
  else inr (with_pushes (pushes db ++ [row]) db).

(** [INSERT INTO otp_tokens (id, repo_id, payment_tx, otp_plain, decrypt_key,
    bundle_tx, expires_at) VALUES (..)]. *)
Definition insert_otp_token (row : OtpTokens.row) (db : DB) : pg_error + DB :=
  if existsb (fun r => String.eqb (OtpTokens.id r) (OtpTokens.id row)) (otp_tokens db)
  then inl (unique_violation "otp_tokens_pkey")
  else inr (with_otp_tokens (otp_tokens db ++ [row]) db).

(** [SELECT * FROM otp_tokens WHERE otp_plain = $1 LIMIT 1]. *)
Definition select_otp_token (otp : string) (db : DB) : option OtpTokens.row :=
  find (fun r => String.eqb (OtpTokens.otp_plain r) otp) (otp_tokens db).

Definition otp_unused_with_id (id : string) (r : OtpTokens.row) : bool :=
  String.eqb (OtpTokens.id r) id
  && match OtpTokens.used_at r with None => true | Some _ => false end.

(** [UPDATE otp_tokens SET used_at = NOW() WHERE id = $1 AND used_at IS
    NULL], with its [rowCount]. *)
Definition update_otp_used (id : string) (now : Z) (db : DB) : DB * Z :=
  (with_otp_tokens
     (update_where (otp_unused_with_id id) (OtpTokens.set_used_at (Some now))
        (otp_tokens db)) db,
   count_where (otp_unused_with_id id) (otp_tokens db)).

Definition same_push (repoId pushTx : string) (r : MultisigPushes.row) : bool :=
  String.eqb (MultisigPushes.repo_id r) repoId
  && String.eqb (MultisigPushes.push_tx r) pushTx.

(** [SELECT * FROM multisig_pushes WHERE repo_id = $1 AND push_tx = $2]
    (also with [FOR UPDATE]), read through [rows[0]]. *)
Definition select_multisig_push (repoId pushTx : string) (db : DB)
  : option MultisigPushes.row :=
  find (same_push repoId pushTx) (multisig_pushes db).

(** [INSERT INTO multisig_pushes (id, repo_id, push_tx, branch,
    approvals_required) VALUES (..) ON CONFLICT (repo_id, push_tx) DO
    NOTHING]; status, count and approved_at take their defaults. *)
Definition insert_multisig_push_on_conflict_do_nothing
    (id repoId pushTx : string) (branch : option string) (required now : Z)
    (db : DB) : pg_error + DB :=
  if existsb (same_push repoId pushTx) (multisig_pushes db) then inr db
  else if existsb (fun r => String.eqb (MultisigPushes.id r) id) (multisig_pushes db)
  then inl (unique_violation "multisig_pushes_pkey")
  else
    let row := {| MultisigPushes.id := id; MultisigPushes.repo_id := repoId;
                  MultisigPushes.push_tx := pushTx;
                  MultisigPushes.branch := branch;
                  MultisigPushes.status := "pending";
                  MultisigPushes.approvals_required := required;
                  MultisigPushes.approvals_count := 0;
                  MultisigPushes.created_at := now;
                  MultisigPushes.approved_at := None |} in
    inr (with_multisig_pushes (multisig_pushes db ++ [row]) db).

(** [UPDATE multisig_pushes SET status = 'approved', approvals_count = $1,
    approved_at = NOW() WHERE id = $2]. *)
Definition update_multisig_push_approved (count : Z) (id : string) (now : Z)
    (db : DB) : DB :=
  with_multisig_pushes
    (update_where (fun r => String.eqb (MultisigPushes.id r) id)
       (MultisigPushes.set_approved count now) (multisig_pushes db)) db.

(** [UPDATE multisig_pushes SET approvals_count = $1 WHERE id = $2]. *)
Definition update_multisig_push_count (count : Z) (id : string) (db : DB) : DB :=
  with_multisig_pushes
    (update_where (fun r => String.eqb (MultisigPushes.id r) id)
       (MultisigPushes.set_approvals_count count) (multisig_pushes db)) db.

Definition same_signature (pushId signer : string) (r : MultisigSignatures.row)
  : bool :=
  String.eqb (MultisigSignatures.multisig_push_id r) pushId
  && String.eqb (MultisigSignatures.signer r) signer.

(** [INSERT INTO multisig_signatures (id, multisig_push_id, signer,
    signature_b64) VALUES (..)]. *)
Definition insert_multisig_signature (row : MultisigSignatures.row) (db : DB)
  : pg_error + DB :=
  if existsb (fun r => String.eqb (MultisigSignatures.id r) (MultisigSignatures.id row))
             (multisig_signatures db)
  then inl (unique_violation "multisig_signatures_pkey")
  else if existsb (same_signature (MultisigSignatures.multisig_push_id row)
                                  (MultisigSignatures.signer row))
                  (multisig_signatures db)
  then inl (unique_violation "multisig_signatures_multisig_push_id_signer_key")
  else inr (with_multisig_signatures (multisig_signatures db ++ [row]) db).

(** [SELECT COUNT( * )::int AS count FROM multisig_signatures WHERE
    multisig_push_id = $1]. *)
Definition count_multisig_signatures (pushId : string) (db : DB) : Z :=
  count_where
    (fun r => String.eqb (MultisigSignatures.multisig_push_id r) pushId)
    (multisig_signatures db).

(* ================================================================== *)
(** * Programs over the store *)
(* ================================================================== *)

(** What [conn.getTransaction] resolves to; [inl] is a rejected promise. *)
Definition rpc_result : Type := exn + option Solana.TxResponse.

(** A handler is a sequence of steps against its collaborators: one
    statement (or one transaction) sent to the store, or one call to the
    ledger RPC.  Other requests may run between two steps. *)
Inductive prog (A : Type) : Type :=
| Ret (a : A)
| Sql {R : Type} (stmt : DB -> DB * R) (k : R -> prog A)
| GetTransaction (txSig : string) (k : rpc_result -> prog A).

Arguments Ret {A} a.
Arguments Sql {A R} stmt k.
Arguments GetTransaction {A} txSig k.

Fixpoint bind {A B : Type} (p : prog A) (f : A -> prog B) : prog B :=
  match p with
  | Ret a => f a
  | Sql stmt k => Sql stmt (fun r => bind (k r) f)
  | GetTransaction txSig k => GetTransaction txSig (fun r => bind (k r) f)
  end.

(** A read-only statement. *)
Definition query {R : Type} (f : DB -> R) : DB -> DB * R := fun db => (db, f db).

(** A statement that returns nothing. *)
Definition exec (f : DB -> DB) : DB -> DB * unit := fun db => (f db, tt).

(** A statement that may raise: the store is unchanged when it does. *)
Definition attempt {R : Type} (f : DB -> pg_error + DB * R) : DB -> DB * (pg_error + R) :=
  fun db => match f db with
            | inl e => (db, inl e)
            | inr (db', r) => (db', inr r)
            end.

Definition attempt_ (f : DB -> pg_error + DB) : DB -> DB * (pg_error + unit) :=
  fun db => match f db with
            | inl e => (db, inl e)
            | inr db' => (db', inr tt)
            end.

Declare Scope prog_scope.
Delimit Scope prog_scope with prog.
Notation "x <- c ;; k" := (bind c (fun x => k))
  (at level 61, c at next level, right associativity) : prog_scope.

Record outcome (A : Type) : Type := {
  out_db : DB;                 (* the store afterwards *)
  out_value : A;               (* what the program returned *)
  out_rpc : list string        (* the ledger lookups it made, in order *)
}.
Arguments out_db {A} o.
Arguments out_value {A} o.
Arguments out_rpc {A} o.

(** Uninterrupted execution: no other request runs between the steps.
    [chain] answers the ledger lookups. *)
Fixpoint run {A : Type} (chain : string -> rpc_result) (p : prog A) (db : DB)
  : outcome A :=
  match p with
  | Ret a => {| out_db := db; out_value := a; out_rpc := [] |}
  | Sql stmt k => let '(db', r) := stmt db in run chain (k r) db'
  | GetTransaction txSig k =>
      let o := run chain (k (chain txSig)) db in
      {| out_db := out_db o; out_value := out_value o;
         out_rpc := txSig :: out_rpc o |}
  end.

(** ** Transactions *)

(** The body of a [BEGIN .. COMMIT] block works on the store as the
    transaction sees it; a thrown error abandons that view. *)
Definition tx (A : Type) : Type := DB -> exn + DB * A.

Definition tx_ret {A : Type} (a : A) : tx A := fun db => inr (db, a).

Definition tx_bind {A B : Type} (m : tx A) (f : A -> tx B) : tx B :=
  fun db => match m db with
            | inl e => inl e
            | inr (db', a) => f a db'
            end.

Definition throw {A : Type} (e : exn) : tx A := fun _ => inl e.

Definition tx_query {R : Type} (f : DB -> R) : tx R := fun db => inr (db, f db).

Definition tx_exec (f : DB -> DB) : tx unit := fun db => inr (f db, tt).

(** A statement that may raise, with the error handed to the caller (who
    rethrows it, possibly under another name). *)
Definition tx_attempt {R : Type} (f : DB -> pg_error + DB * R) : tx (pg_error + R) :=
  fun db => match f db with
            | inl e => inr (db, inl e)
            | inr (db', r) => inr (db', inr r)
            end.

Definition tx_attempt_ (f : DB -> pg_error + DB) : tx (pg_error + unit) :=
  fun db => match f db with
            | inl e => inr (db, inl e)
            | inr db' => inr (db', inr tt)
            end.

Declare Scope tx_scope.
Delimit Scope tx_scope with tx.
Notation "x <- c ;; k" := (tx_bind c (fun x => k))
  (at level 61, c at next level, right associativity) : tx_scope.

(** [BEGIN; body; COMMIT], with [ROLLBACK] in the [catch] clause: the
    store keeps the body's writes only when the body returns. *)
Definition transaction {A : Type} (body : tx A) : DB -> DB * (exn + A) :=
  fun db => match body db with
            | inl e => (db, inl e)
            | inr (db', a) => (db', inr a)
            end.

(* ================================================================== *)
(** * Requests and responses *)
(* ================================================================== *)

(** Values drawn by a handler from its surroundings. *)
Record Env : Type := {
  randomUUID_1 : string;          (* first [randomUUID()] of the request *)
  randomUUID_2 : string;          (* second [randomUUID()] of the request *)
  randomBytes16_hex : string;     (* [randomBytes(16).toString("hex")] *)
  randomBytes32_base64 : string;  (* [randomBytes(32).toString("base64")] *)
  Date_now : Z;                   (* [Date.now()] *)
  NOW : Z                         (* [NOW()] of the store *)
}.

(** Request bodies.  A string field is [None] when the body has no such
    field; a field guarded by [typeof x !== "string"] that holds another
    kind of value is rejected like the empty string and is represented by
    it.  [threshold] is [thresholdNumber]: the field when it is a
    number and [Number(..)] of it otherwise, hence [NaN] when the field is
    absent or converts to no number; [isPrivate] and [encrypted] are the
    results of [Boolean(..)]. *)
Record VerifyBody : Type := {
  v_txSig : option string;
  v_payer : option string;
  v_purpose : option string;
  v_repoName : option string
}.

Record ReposBody : Type := {
  r_name : option string;
  r_owner : option string;
  r_isPrivate : bool;
  r_signers : signers_input;
  r_threshold : JS.number;
  r_paymentTxSig : option string
}.

Record OtpRequestBody : Type := {
  o_repoId : option string;
  o_owner : option string;
  o_name : option string;
  o_bundleTx : option string;
  o_paymentTxSig : option string;
  o_decryptKey : option string;
  o_expiresInMinutes : option Z
}.

Record OtpRedeemBody : Type := {
  d_otp : option string
}.

Record ApproveBody : Type := {
  a_repoId : option string;
  a_owner : option string;
  a_name : option string;
  a_txId : option string;
  a_signer : option string;
  a_signatureB64 : option string
}.

Record SetupBody : Type := {
  s_repoId : option string;
  s_owner : option string;
  s_name : option string;
  s_pushTx : option string;
  s_signers : signers_input;
  s_threshold : JS.number;
  s_paymentTxSig : option string
}.

Record PushLogBody : Type := {
  l_txId : option string;
  l_owner : option string;
  l_repo : option string;
  l_branch : option string;
  l_encrypted : bool
}.

Inductive request : Type :=
| PostPaymentsVerify (b : VerifyBody)
| PostRepos (b : ReposBody)
| PostOtpRequest (b : OtpRequestBody)
| PostOtpRedeem (b : OtpRedeemBody)
| PostMultisigApprove (b : ApproveBody)
| PostMultisigSetup (b : SetupBody)
| PostPushLog (b : PushLogBody).

Record MultisigSummary : Type := {
  m_status : string;
  m_approvalsRequired : Z;
  m_approvalsCount : Z
}.

Definition summary (m : option MultisigPushes.row) : option MultisigSummary :=
  option_map (fun e => {| m_status := MultisigPushes.status e;
                          m_approvalsRequired := MultisigPushes.approvals_required e;
                          m_approvalsCount := MultisigPushes.approvals_count e |}) m.

Inductive body : Type :=
| ErrorJson (error : string) (message : option string)
| PaymentJson (payment : Payments.row) (reused : bool)
| RepoJson (repo : Repos.row)
| OtpJson (otp decryptKey bundleTx : string) (expiresAt : Z)
| RedeemJson (repoId bundleTx decryptKey : string)
| ApprovalJson (status : string) (approvalsCount approvalsRequired : Z)
| SetupJson (repo : option Repos.row) (multisig : option MultisigSummary)
| PushLogJson (multisig : option MultisigSummary).

Record response : Type := {
  statusCode : Z;
  json : body
}.

Definition ok (b : body) : response := {| statusCode := 200; json := b |}.

Definition fail (code : Z) (error : string) : response :=
  {| statusCode := code; json := ErrorJson error None |}.

Definition fail_with (code : Z) (error : string) (message : exn) : response :=
  {| statusCode := code; json := ErrorJson error (Some message) |}.

(* ================================================================== *)
(** * The command-line client *)
(* ================================================================== *)

(** A string that [parseSigners] lets through as it is. *)
Definition clean (s : string) : Prop := nonempty s = true /\ JS.trim s = s.

Module CLI.

(** [parseOwners(input)] of the push command, for a string it is given. *)
Definition parseOwners (input : string) : list string :=
  if String.eqb input "" then []
  else filter nonempty (map JS.trim (JS.split "," input)).

(** [Array.from(new Set(xs))]: the elements in the order of their first
    occurrence. *)
Definition Array_from_Set (xs : list string) : list string :=
  fold_left (fun set x => if JS.includes set x then set else (set ++ [x])%list) xs [].

(** [uniqueOwners] of [handleMultisigFlow]: the trimmed, non-empty owners
    without repetition, and the key of the logged-in user at the end when
    it is not among them. *)
Definition uniqueOwners (owners : list string) (ownerPk : string) : list string :=
  let uniqueOwners := Array_from_Set (filter nonempty (map JS.trim owners)) in
  if negb (JS.includes uniqueOwners ownerPk) then (uniqueOwners ++ [ownerPk])%list
  else uniqueOwners.

End CLI.

(* ================================================================== *)
(** * A small deployment *)
(* ================================================================== *)

(** Concrete data on which the properties below are exercised: a
    configuration, stand-ins for the cryptographic primitives (a signature
    is valid when it spells out the key and the message), a ledger on
    which four transactions each deliver 10 tokens to the treasury, and
    the requests of a short history. *)
Module Sample.

Definition cfg : Config :=
  {| PAYMENT_DESTINATION := "treasury"; PAYMENT_TOKEN_MINT := "mintX";
     PAYMENT_TOKEN_DECIMALS := 6; PAYMENT_MIN_TOKENS := "10";
     MIN_PAYMENT_ATOMIC := 10000000 |}.

Definition Buffer_from_base64 (s : string) : string := s.

Definition PublicKey_toBytes (s : string) : option string :=
  if String.eqb s "" then None else Some s.

Definition nacl_sign_detached_verify (message signature pubkey : string) : exn + bool :=
  inr (String.eqb signature (pubkey ++ " signed " ++ message)).

(** The environment of the request tagged [tag], served at time [now]. *)
Definition env (tag : string) (now : Z) : Env :=
  {| randomUUID_1 := "uuid-" ++ tag ++ "-1"; randomUUID_2 := "uuid-" ++ tag ++ "-2";
     randomBytes16_hex := "otp-" ++ tag; randomBytes32_base64 := "key-" ++ tag;
     Date_now := now; NOW := now |}.

Definition balance (index : Z) (owner amount : string) : Solana.TokenBalance :=
  {| Solana.accountIndex := index; Solana.mint := "mintX"; Solana.owner := Some owner;
     Solana.uiTokenAmount :=
       Some {| Solana.amount := Some amount; Solana.decimals := Some 6 |} |}.

(** Alice's account goes from 25 to 15 tokens; the treasury account, which
    did not hold the asset before, receives 10. *)
Definition transfer : Solana.TxResponse :=
  {| Solana.meta := Some
       {| Solana.err := false;
          Solana.preTokenBalances := Some [balance 1 "alice" "25000000"];
          Solana.postTokenBalances :=
            Some [balance 1 "alice" "15000000"; balance 2 "treasury" "10000000"] |} |}.

Definition chain (txSig : string) : rpc_result :=
  if JS.includes ["tx1"; "tx2"; "tx3"; "tx4"] txSig
  then inr (Some transfer) else inr None.

Definition verify_body (txSig purpose : string) : VerifyBody :=
  {| v_txSig := Some txSig; v_payer := Some "alice"; v_purpose := Some purpose;
     v_repoName := None |}.

Definition verify (txSig purpose : string) : request :=
  PostPaymentsVerify (verify_body txSig purpose).

Definition register_body (name owner : string) (signers : list (option string))
    (threshold : option Z) (txSig : string) : ReposBody :=
  {| r_name := Some name; r_owner := Some owner; r_isPrivate := false;
     r_signers := SignersArray signers;
     r_threshold := match threshold with Some t => JS.of_Z t | None => JS.NaN end;
     r_paymentTxSig := Some txSig |}.

Definition register (name owner : string) (signers : list (option string))
    (threshold : option Z) (txSig : string) : request :=
  PostRepos (register_body name owner signers threshold txSig).

Definition push_log (txId owner repo : string) : request :=
  PostPushLog {| l_txId := Some txId; l_owner := Some owner; l_repo := Some repo;
                 l_branch := Some "main"; l_encrypted := false |}.

Definition otp_request (repoId bundleTx txSig : string) (minutes : Z) : request :=
  PostOtpRequest
    {| o_repoId := Some repoId; o_owner := None; o_name := None;
       o_bundleTx := Some bundleTx; o_paymentTxSig := Some txSig;
       o_decryptKey := None; o_expiresInMinutes := Some minutes |}.

Definition redeem_body (otp : string) : OtpRedeemBody := {| d_otp := Some otp |}.

Definition redeem (otp : string) : request := PostOtpRedeem (redeem_body otp).

Definition setup (pushTx txSig : string) : request :=
  PostMultisigSetup
    {| s_repoId := None; s_owner := Some "alice"; s_name := Some "acme";
       s_pushTx := Some pushTx; s_signers := SignersString "A, B,C";
       s_threshold := JS.of_Z 2; s_paymentTxSig := Some txSig |}.

Definition signature_of (msg signer : string) : string :=
  signer ++ " signed Permagit Push Approval:" ++ msg.

Definition submit (txId signer : string) (now : Z) : Env * string * string :=
  (env signer now, signer, signature_of txId signer).

(** The history: alice pays [tx1] for her repo [acme] with signers A, B
    and C and threshold 2, and logs the push [push9], for which an approval
    request is opened; she pays [tx2] for a ticket to [bundle1], valid one
    minute; she pays [tx3] for a multisig setup. *)
Definition history : list (Env * request) :=
  [ (env "v1" 1000, verify "tx1" "repo_init");
    (env "r" 1100, register "acme" "alice" [Some "A"; Some " B"; Some "C"] (Some 2) "tx1");
    (env "p" 1200, push_log "push9" "alice" "acme");
    (env "v2" 1300, verify "tx2" "otp_share");
    (env "o" 1400, otp_request "uuid-r-1" "bundle1" "tx2" 1);
    (env "v3" 1500, verify "tx3" "multisig_setup") ].

(** The rows that the history leaves in the store. *)
Definition payment (tag txSig purpose : string) (created : Z) (consumed : option Z)
  : Payments.row :=
  {| Payments.id := "uuid-" ++ tag ++ "-1"; Payments.tx_sig := txSig;
     Payments.payer := "alice"; Payments.purpose := purpose;
     Payments.token_amount_atomic := 10000000; Payments.status := "confirmed";
     Payments.repo_name := None; Payments.consumed_at := consumed;
     Payments.metadata :=
       {| Payments.meta_decimals := 6; Payments.minTokens := "10";
          Payments.destination := "treasury"; Payments.meta_mint := "mintX" |};
     Payments.created_at := created |}.

Definition acme : Repos.row :=
  {| Repos.id := "uuid-r-1"; Repos.name := "acme"; Repos.owner := "alice";
     Repos.is_private := false; Repos.is_multisig := true;
     Repos.threshold := Some 2; Repos.signers := ["A"; "B"; "C"];
     Repos.payment_tx := Some "tx1"; Repos.created_at := 1100 |}.

Definition push9 : MultisigPushes.row :=
  {| MultisigPushes.id := "uuid-p-2"; MultisigPushes.repo_id := "uuid-r-1";
     MultisigPushes.push_tx := "push9"; MultisigPushes.branch := Some "main";
     MultisigPushes.status := "pending"; MultisigPushes.approvals_required := 2;
     MultisigPushes.approvals_count := 0; MultisigPushes.created_at := 1200;
     MultisigPushes.approved_at := None |}.

Definition ticket : OtpTokens.row :=
  {| OtpTokens.id := "uuid-o-1"; OtpTokens.repo_id := "uuid-r-1";
     OtpTokens.payment_tx := "tx2"; OtpTokens.otp_plain := "otp-o";
     OtpTokens.decrypt_key := "key-o"; OtpTokens.bundle_tx := "bundle1";
     OtpTokens.expires_at := Some 61400; OtpTokens.used_at := None;
     OtpTokens.created_at := 1400 |}.

Definition store : DB :=
  {| payments := [payment "v1" "tx1" "repo_init" 1000 (Some 1100);
                  payment "v2" "tx2" "otp_share" 1300 (Some 1400);
                  payment "v3" "tx3" "multisig_setup" 1500 None];
     repos := [acme];
     pushes := [{| Pushes.id := "uuid-p-1"; Pushes.repo_id := Some "uuid-r-1";
                   Pushes.tx_id := "push9"; Pushes.owner := Some "alice";
                   Pushes.repo := Some "acme"; Pushes.branch := Some "main";
                   Pushes.encrypted := false; Pushes.created_at := 1200 |}];
     otp_tokens := [ticket];
     multisig_pushes := [push9];
     multisig_signatures := [] |}.

(** The store with one more record, for [tx9], that awaits confirmation
    (the default status of the column). *)
Definition awaiting : Payments.row :=
  Payments.set_status "pending" (payment "p" "tx9" "repo_init" 900 None).

Definition store_with_awaiting : DB :=
  with_payments (payments store ++ [awaiting]) store.

End Sample.


(* ================================================================== *)
(** * The request handlers *)
(* ================================================================== *)

Section Server.

(** The configuration of the process and the cryptographic primitives it
    imports. *)
Variable cfg : Config.
Variable Buffer_from_base64 : string -> string.
Variable PublicKey_toBytes : string -> option string.        (* [None]: throws *)
Variable nacl_sign_detached_verify : string -> string -> string -> exn + bool.

Local Open Scope prog_scope.

Definition is_some {A : Type} (o : option A) : bool :=
  match o with Some _ => true | None => false end.

Definition getRepoByOwnerAndName (owner name : option string)
  : prog (option Repos.row) :=
  match owner, name with
  | Some o, Some n =>
      if negb (nonempty o) || negb (nonempty n) then Ret None
      else Sql (query (select_repo_by_owner_name o n)) Ret
  | _, _ => Ret None
  end.

(** The repo lookup shared by [/otp/request] and [/multisig/approve]:
    by id when [repoId] is a non-empty string, else by owner and name. *)
Definition lookup_repo (repoId owner name : option string) : prog (option Repos.row) :=
  match repoId with
  | Some id =>
      if nonempty id then Sql (query (select_repo_by_id id)) Ret
      else getRepoByOwnerAndName owner name
  | None => getRepoByOwnerAndName owner name
  end.

(** [verifyApprovalSignature]; [None] when it returns normally, else the
    message of the error thrown. *)
Definition verifyApprovalSignature (txId signer signatureB64 : string) : option exn :=
  if negb (nonempty txId) || negb (nonempty signer) || negb (nonempty signatureB64)
  then Some "missing_signature_fields"
  else
    let message := "Permagit Push Approval:" ++ txId in
    let signature := Buffer_from_base64 signatureB64 in
    match PublicKey_toBytes signer with
    | None => Some "invalid_signer"
    | Some pubkey =>
        match nacl_sign_detached_verify message signature pubkey with
        | inl e => Some e
        | inr true => None
        | inr false => Some "signature_verification_failed"
        end
    end.

(** [ensureMultisigEntry(repo, pushTx, branch)]; [id] is the [randomUUID()]
    it draws.  [inl] is an error thrown by the store. *)
Definition ensureMultisigEntry (id : string) (now : Z) (repo : option Repos.row)
    (pushTx : string) (branch : option string)
  : prog (exn + option MultisigPushes.row) :=
  match repo with
  | None => Ret (inr None)
  | Some repo =>
      if negb (Repos.is_multisig repo) then Ret (inr None) else
      match calcThreshold (Repos.signers repo)
              (option_map JS.of_Z (Repos.threshold repo)) with
      | None => Ret (inr None)
      | Some threshold =>
          if negb (JS.number_truthy threshold) then Ret (inr None) else
          Sql (attempt_ (with_integer threshold
                           (fun required =>
                              insert_multisig_push_on_conflict_do_nothing
                                id (Repos.id repo) pushTx (JS.or_null branch)
                                required now)))
            (fun r =>
               match r with
               | inl e => Ret (inl (pg_message e))
               | inr _ =>
                   Sql (query (select_multisig_push (Repos.id repo) pushTx))
                     (fun row => Ret (inr row))
               end)
      end
  end.

(** [verifyTokenPayment(txSig)]. *)
Definition verifyTokenPayment (txSig : string) : prog (exn + ChainInfo) :=
  if negb (env_configured cfg) then Ret (inl "payment_env_not_configured")
  else GetTransaction txSig
         (fun r => match r with
                   | inl e => Ret (inl e)
                   | inr t => Ret (verifyTokenPayment_check cfg t)
                   end).

(** ** [POST /payments/verify] *)

(** The handler from the point where [existing.rows[0]] is known. *)
Definition verify_after_select (env : Env) (b : VerifyBody) (txSig purpose : string)
    (existing : option Payments.row) : prog response :=
  match existing with
  | Some row =>
      if negb (String.eqb (Payments.purpose row) purpose)
      then Ret (fail 400 "purpose_mismatch")
      else if negb (String.eqb (Payments.status row) "confirmed")
      then Sql (exec (update_payment_confirmed (Payments.id row)))
             (fun _ => Ret (ok (PaymentJson (Payments.set_status "confirmed" row) true)))
      else Ret (ok (PaymentJson row true))
  | None =>
      chainInfo <- verifyTokenPayment txSig ;;
      match chainInfo with
      | inl e => Ret (fail_with 400 "payment_verification_failed" e)
      | inr chainInfo =>
          if amountAtomic chainInfo <? MIN_PAYMENT_ATOMIC cfg
          then Ret (fail 400 "insufficient_amount")
          else
            let paymentId := randomUUID_1 env in
            let metadata :=
              {| Payments.meta_decimals := chain_decimals chainInfo;
                 Payments.minTokens := PAYMENT_MIN_TOKENS cfg;
                 Payments.destination := PAYMENT_DESTINATION cfg;
                 Payments.meta_mint := PAYMENT_TOKEN_MINT cfg |} in
            Sql (attempt (insert_payment paymentId txSig (JS.or_null (v_payer b))
                            purpose (amountAtomic chainInfo)
                            (JS.or_null (v_repoName b)) metadata (NOW env)))
              (fun insert =>
                 match insert with
                 | inl e => Ret (fail_with 400 "payment_verification_failed" (pg_message e))
                 | inr row => Ret (ok (PaymentJson row false))
                 end)
      end
  end.

Definition post_payments_verify (env : Env) (b : VerifyBody) : prog response :=
  let purpose := match v_purpose b with Some p => p | None => "repo_init" end in
  match v_txSig b with
  | None => Ret (fail 400 "txSig_required")
  | Some txSig =>
  if negb (nonempty txSig) then Ret (fail 400 "txSig_required") else
  if negb (nonempty purpose) then Ret (fail 400 "purpose_required") else
  if negb (env_configured cfg) then Ret (fail 500 "payment_env_not_configured") else
  Sql (query (select_payment txSig)) (verify_after_select env b txSig purpose)
  end.

(** The checks on the locked payment row that open every consuming
    transaction. *)
Definition lock_payment (paymentTxSig expected_purpose : string) : tx Payments.row :=
  (paymentResult <- tx_query (select_payment paymentTxSig) ;;
   match paymentResult with
   | None => throw "payment_not_found"
   | Some payment =>
       if negb (String.eqb (Payments.purpose payment) expected_purpose)
       then throw "payment_wrong_purpose"
       else if negb (String.eqb (Payments.status payment) "confirmed")
       then throw "payment_not_confirmed"
       else if is_some (Payments.consumed_at payment)
       then throw "payment_already_consumed"
       else tx_ret payment
   end)%tx.

(** ** [POST /repos] *)

(** [computedThreshold] of [/repos] and [/multisig/setup]; the second
    argument is [thresholdNumber], the number that the [threshold] field
    is or converts to ([NaN] when it is absent or converts to none). *)
Definition computedThreshold (signers : signers_input) (thresholdNumber : JS.number)
  : option JS.number :=
  calcThreshold (parseSigners signers) (JS.unless_NaN thresholdNumber).

(** The row that [/repos] sends to the store; [threshold] is what the
    store reads from [computedThreshold]. *)
Definition new_repo_row (env : Env) (name owner : string) (b : ReposBody)
    (paymentTxSig : string) (threshold : option Z) : Repos.row :=
  let signerList := parseSigners (r_signers b) in
  {| Repos.id := randomUUID_1 env;
     Repos.name := JS.trim name;
     Repos.owner := JS.trim owner;
     Repos.is_private := r_isPrivate b;
     Repos.is_multisig := (0 <? Z.of_nat (List.length signerList));
     Repos.threshold := threshold;
     Repos.signers := signerList;
     Repos.payment_tx := Some paymentTxSig;
     Repos.created_at := NOW env |}.

Definition repos_transaction (env : Env) (name owner : string) (b : ReposBody)
    (paymentTxSig : string) : tx Repos.row :=
  (payment <- lock_payment paymentTxSig "repo_init" ;;
   insert <- tx_attempt
               (with_integer_or_null (computedThreshold (r_signers b) (r_threshold b))
                  (fun threshold =>
                     insert_repo_on_conflict_do_nothing
                       (new_repo_row env name owner b paymentTxSig threshold))) ;;
   match insert with
   | inl e => throw (pg_message e)
   | inr [] => throw "repo_exists"
   | inr (row :: _) =>
       _ <- tx_exec (update_payment_consumed (Payments.id payment) (NOW env)) ;;
       tx_ret row
   end)%tx.

Definition post_repos (env : Env) (b : ReposBody) : prog response :=
  if negb (JS.truthy (r_name b)) then Ret (fail 400 "name_required") else
  if negb (JS.truthy (r_owner b)) then Ret (fail 400 "owner_required") else
  if negb (JS.truthy (r_paymentTxSig b)) then Ret (fail 400 "payment_required") else
  match r_name b, r_owner b, r_paymentTxSig b with
  | Some name, Some owner, Some paymentTxSig =>
      Sql (transaction (repos_transaction env name owner b paymentTxSig))
        (fun r => match r with
                  | inr row => Ret (ok (RepoJson row))
                  | inl e => Ret (fail_with 400 "repo_create_failed" e)
                  end)
  | _, _, _ => Ret (fail 400 "payment_required")
  end.

(** ** [POST /otp/request] *)

(** [ttlMinutes]: the requested lifetime when it is a positive number,
    else a day. *)
Definition ttlMinutes (b : OtpRequestBody) : Z :=
  match o_expiresInMinutes b with
  | Some m => if 0 <? m then m else 60 * 24
  | None => 60 * 24
  end.

(** The ticket that [/otp/request] sends to the store: the token is
    [randomBytes(16)] in hex, the key is the caller's when it is a
    non-empty string and [randomBytes(32)] in base64 otherwise, the expiry
    is [ttlMinutes] from now. *)
Definition new_otp_row (env : Env) (repo : Repos.row) (bundleTx paymentTxSig : string)
    (b : OtpRequestBody) : OtpTokens.row :=
  {| OtpTokens.id := randomUUID_1 env; OtpTokens.repo_id := Repos.id repo;
     OtpTokens.payment_tx := paymentTxSig;
     OtpTokens.otp_plain := randomBytes16_hex env;
     OtpTokens.decrypt_key :=
       if JS.truthy (o_decryptKey b)
       then match o_decryptKey b with Some k => k | None => "" end
       else randomBytes32_base64 env;
     OtpTokens.bundle_tx := bundleTx;
     OtpTokens.expires_at := Some (Date_now env + ttlMinutes b * 60 * 1000);
     OtpTokens.used_at := None;
     OtpTokens.created_at := NOW env |}.

Definition otp_transaction (env : Env) (repo : Repos.row) (bundleTx paymentTxSig : string)
    (b : OtpRequestBody) : tx body :=
  (payment <- lock_payment paymentTxSig "otp_share" ;;
   let row := new_otp_row env repo bundleTx paymentTxSig b in
   insert <- tx_attempt_ (insert_otp_token row) ;;
   match insert with
   | inl e => throw (pg_message e)
   | inr _ =>
       _ <- tx_exec (update_payment_consumed (Payments.id payment) (NOW env)) ;;
       tx_ret (OtpJson (OtpTokens.otp_plain row) (OtpTokens.decrypt_key row) bundleTx
                 (Date_now env + ttlMinutes b * 60 * 1000))
   end)%tx.

Definition post_otp_request (env : Env) (b : OtpRequestBody) : prog response :=
  if negb (JS.truthy (o_bundleTx b)) then Ret (fail 400 "bundle_tx_required") else
  if negb (JS.truthy (o_paymentTxSig b)) then Ret (fail 400 "payment_required") else
  match o_bundleTx b, o_paymentTxSig b with
  | Some bundleTx, Some paymentTxSig =>
      repo <- lookup_repo (o_repoId b) (o_owner b) (o_name b) ;;
      match repo with
      | None => Ret (fail 404 "repo_not_found")
      | Some repo =>
          Sql (transaction (otp_transaction env repo bundleTx paymentTxSig b))
            (fun r => match r with
                      | inr issued => Ret (ok issued)
                      | inl e => Ret (fail_with 400 "otp_create_failed" e)
                      end)
      end
  | _, _ => Ret (fail 400 "payment_required")
  end.

(** ** [POST /otp/redeem] *)

(** The expiry test of [/otp/redeem]. *)
Definition expired (env : Env) (row : OtpTokens.row) : bool :=
  match OtpTokens.expires_at row with
  | Some expiresAt => expiresAt <? Date_now env
  | None => false
  end.

(** The handler from the point where [rows[0]] is known. *)
Definition redeem_after_select (env : Env) (rows : option OtpTokens.row)
  : prog response :=
  match rows with
  | None => Ret (fail 404 "otp_not_found")
  | Some row =>
      if is_some (OtpTokens.used_at row) then Ret (fail 410 "otp_already_used") else
      if expired env row then Ret (fail 410 "otp_expired") else
      Sql (update_otp_used (OtpTokens.id row) (NOW env)) (fun rowCount =>
      if rowCount =? 0 then Ret (fail 410 "otp_already_used")
      else Ret (ok (RedeemJson (OtpTokens.repo_id row) (OtpTokens.bundle_tx row)
                      (OtpTokens.decrypt_key row))))
  end.

Definition post_otp_redeem (env : Env) (b : OtpRedeemBody) : prog response :=
  match d_otp b with
  | None => Ret (fail 400 "otp_required")
  | Some otp =>
  if negb (nonempty otp) then Ret (fail 400 "otp_required") else
  Sql (query (select_otp_token otp)) (redeem_after_select env)
  end.

(** ** [POST /multisig/approve] *)

(** The signature row that [/multisig/approve] sends to the store. *)
Definition new_signature_row (env : Env) (pushId signer signatureB64 : string)
  : MultisigSignatures.row :=
  {| MultisigSignatures.id := randomUUID_1 env;
     MultisigSignatures.multisig_push_id := pushId;
     MultisigSignatures.signer := signer;
     MultisigSignatures.signature_b64 := signatureB64;
     MultisigSignatures.created_at := NOW env |}.

Definition approve_transaction (env : Env) (repo : Repos.row)
    (txId signer signatureB64 : string) : tx body :=
  (pushResult <- tx_query (select_multisig_push (Repos.id repo) txId) ;;
   match pushResult with
   | None => throw "push_not_tracked"
   | Some push =>
       insert <- tx_attempt_ (insert_multisig_signature
                   (new_signature_row env (MultisigPushes.id push) signer signatureB64)) ;;
       match insert with
       | inl e =>
           if String.eqb (code e) "23505" then throw "signature_already_submitted"
           else throw (pg_message e)
       | inr _ =>
           approvalsCount <- tx_query (count_multisig_signatures (MultisigPushes.id push)) ;;
           if (MultisigPushes.approvals_required push <=? approvalsCount)
              && negb (String.eqb (MultisigPushes.status push) "approved")
           then
             _ <- tx_exec (update_multisig_push_approved approvalsCount
                             (MultisigPushes.id push) (NOW env)) ;;
             tx_ret (ApprovalJson "approved" approvalsCount
                       (MultisigPushes.approvals_required push))
           else
             _ <- tx_exec (update_multisig_push_count approvalsCount
                             (MultisigPushes.id push)) ;;
             tx_ret (ApprovalJson (MultisigPushes.status push) approvalsCount
                       (MultisigPushes.approvals_required push))
       end
   end)%tx.

Definition post_multisig_approve (env : Env) (b : ApproveBody) : prog response :=
  if negb (JS.truthy (a_txId b)) then Ret (fail 400 "txId_required") else
  if negb (JS.truthy (a_signer b)) then Ret (fail 400 "signer_required") else
  if negb (JS.truthy (a_signatureB64 b)) then Ret (fail 400 "signature_required") else
  match a_txId b, a_signer b, a_signatureB64 b with
  | Some txId, Some signer, Some signatureB64 =>
      repo <- lookup_repo (a_repoId b) (a_owner b) (a_name b) ;;
      match repo with
      | None => Ret (fail 404 "repo_not_multisig")
      | Some repo =>
          if negb (Repos.is_multisig repo) then Ret (fail 404 "repo_not_multisig") else
          if negb (JS.includes (Repos.signers repo) signer)
          then Ret (fail 403 "signer_not_authorized") else
          match verifyApprovalSignature txId signer signatureB64 with
          | Some e => Ret (fail_with 400 "signature_invalid" e)
          | None =>
              Sql (transaction (approve_transaction env repo txId signer signatureB64))
                (fun r => match r with
                          | inr approval => Ret (ok approval)
                          | inl e => Ret (fail_with 400 "multisig_approval_failed" e)
                          end)
          end
      end
  | _, _, _ => Ret (fail 400 "signature_required")
  end.

(** ** [POST /multisig/setup] *)

(** The tail of the handler, once [repo] is the row just inserted or just
    re-read. *)
Definition setup_finish (env : Env) (repo : option Repos.row) (pushTx : string)
  : prog response :=
  multisigEntry <- ensureMultisigEntry (randomUUID_2 env) (NOW env) repo pushTx None ;;
  match multisigEntry with
  | inl e => Ret (fail_with 400 "multisig_setup_failed" e)
  | inr entry =>
      Ret (ok (SetupJson repo (summary entry)))
  end.

Definition post_multisig_setup (env : Env) (b : SetupBody) : prog response :=
  match s_pushTx b, s_paymentTxSig b with
  | None, _ => Ret (fail 400 "push_tx_required")
  | Some pushTx, paymentTxSig =>
  if negb (nonempty pushTx) then Ret (fail 400 "push_tx_required") else
  match paymentTxSig with
  | None => Ret (fail 400 "payment_required")
  | Some paymentTxSig =>
  if negb (nonempty paymentTxSig) then Ret (fail 400 "payment_required") else
  let signerList := parseSigners (s_signers b) in
  match signerList with
  | [] => Ret (fail 400 "signers_required")
  | _ =>
  match computedThreshold (s_signers b) (s_threshold b) with
  | None => Ret (fail 400 "invalid_threshold")
  | Some computedThreshold =>
  if negb (JS.number_truthy computedThreshold)
  then Ret (fail 400 "invalid_threshold") else
  Sql (query (select_payment paymentTxSig)) (fun paymentResult =>
  match paymentResult with
  | None => Ret (fail 400 "payment_not_found")
  | Some payment =>
  if negb (String.eqb (Payments.purpose payment) "multisig_setup")
  then Ret (fail 400 "payment_wrong_purpose") else
  if negb (String.eqb (Payments.status payment) "confirmed")
  then Ret (fail 400 "payment_not_confirmed") else
  byId <- (if JS.truthy (s_repoId b)
           then match s_repoId b with
                | Some repoId => Sql (query (select_repo_by_id repoId)) Ret
                | None => Ret None
                end
           else Ret None) ;;
  repo <- (match byId with
           | Some r => Ret (Some r)
           | None =>
               if JS.truthy (s_owner b) && JS.truthy (s_name b)
               then getRepoByOwnerAndName (s_owner b) (s_name b)
               else Ret None
           end) ;;
  match repo with
  | None =>
      match s_owner b, s_name b with
      | Some owner, Some name =>
          if negb (nonempty owner) || negb (nonempty name)
          then Ret (fail 400 "repo_identification_required")
          else
            Sql (attempt (with_integer computedThreshold
                            (fun threshold =>
                               insert_repo
                                 {| Repos.id := randomUUID_1 env; Repos.name := name;
                                    Repos.owner := owner; Repos.is_private := false;
                                    Repos.is_multisig := true;
                                    Repos.threshold := Some threshold;
                                    Repos.signers := signerList;
                                    Repos.payment_tx := Some paymentTxSig;
                                    Repos.created_at := NOW env |})))
              (fun insert =>
                 match insert with
                 | inl e => Ret (fail_with 400 "multisig_setup_failed" (pg_message e))
                 | inr row => setup_finish env (Some row) pushTx
                 end)
      | _, _ => Ret (fail 400 "repo_identification_required")
      end
  | Some repo =>
      Sql (attempt_ (with_integer computedThreshold
                       (fun threshold db =>
                          inr (update_repo_multisig threshold signerList
                                 (Some paymentTxSig) (Repos.id repo) db))))
        (fun update =>
           match update with
           | inl e => Ret (fail_with 400 "multisig_setup_failed" (pg_message e))
           | inr _ =>
               Sql (query (select_repo_by_id (Repos.id repo)))
                 (fun refreshed => setup_finish env refreshed pushTx)
           end)
  end
  end)
  end
  end
  end
  end.

(** ** [POST /push-log] *)
Definition post_push_log (env : Env) (b : PushLogBody) : prog response :=
  match l_txId b with
  | None => Ret (fail 400 "txId required")
  | Some txId =>
  if negb (nonempty txId) then Ret (fail 400 "txId required") else
  repoRow <- getRepoByOwnerAndName (l_owner b) (l_repo b) ;;
  Sql (attempt_ (insert_push_on_conflict_do_nothing
                   {| Pushes.id := randomUUID_1 env;
                      Pushes.repo_id :=
                        match repoRow with
                        | Some r => JS.or_null (Some (Repos.id r))
                        | None => None
                        end;
                      Pushes.tx_id := txId;
                      Pushes.owner := JS.or_null (l_owner b);
                      Pushes.repo := JS.or_null (l_repo b);
                      Pushes.branch := JS.or_null (l_branch b);
                      Pushes.encrypted := l_encrypted b;
                      Pushes.created_at := NOW env |}))
    (fun insert =>
       match insert with
       | inl _ => Ret (fail 500 "DB insert failed")
       | inr _ =>
           multisigEntry <- ensureMultisigEntry (randomUUID_2 env) (NOW env)
                              repoRow txId (l_branch b) ;;
           match multisigEntry with
           | inl _ => Ret (fail 500 "DB insert failed")
           | inr entry => Ret (ok (PushLogJson (summary entry)))
           end
       end)
  end.

(** ** The server *)
Definition handle (env : Env) (req : request) : prog response :=
  match req with
  | PostPaymentsVerify b => post_payments_verify env b
  | PostRepos b => post_repos env b
  | PostOtpRequest b => post_otp_request env b
  | PostOtpRedeem b => post_otp_redeem env b
  | PostMultisigApprove b => post_multisig_approve env b
  | PostMultisigSetup b => post_multisig_setup env b
  | PostPushLog b => post_push_log env b
  end.

(** One request served without interruption. *)
Definition serve (chain : string -> rpc_result) (env : Env) (req : request) (db : DB)
  : outcome response :=
  run chain (handle env req) db.

(** One step of a request against the store; a finished request stays as
    it is. *)
Definition advance {A : Type} (chain : string -> rpc_result) (p : prog A) (db : DB)
  : DB * prog A :=
  match p with
  | Ret a => (db, Ret a)
  | Sql stmt k => let '(db', r) := stmt db in (db', k r)
  | GetTransaction txSig k => (db, k (chain txSig))
  end.

(** Requests served one after the other. *)
Fixpoint serve_all (chain : string -> rpc_result) (reqs : list (Env * request)) (db : DB)
  : DB :=
  match reqs with
  | [] => db
  | (env, req) :: rest => serve_all chain rest (out_db (serve chain env req db))
  end.

(** ** Interleaved execution *)

(** Requests in flight and the store they share.  A step accepts a new
    request, lets one request in flight perform its next step, or retires a
    finished one.  The ledger may answer a lookup with anything. *)
Record cluster : Type := {
  store : DB;
  in_flight : list (prog response)
}.

Inductive cluster_step : cluster -> cluster -> Prop :=
| step_accept (db : DB) (ps : list (prog response)) (env : Env) (req : request) :
    cluster_step {| store := db; in_flight := ps |}
                 {| store := db; in_flight := handle env req :: ps |}
| step_sql (db : DB) (ps1 ps2 : list (prog response)) (R : Type)
      (stmt : DB -> DB * R) (k : R -> prog response) :
    cluster_step {| store := db; in_flight := ps1 ++ Sql stmt k :: ps2 |}
                 {| store := fst (stmt db);
                    in_flight := ps1 ++ k (snd (stmt db)) :: ps2 |}
| step_rpc (db : DB) (ps1 ps2 : list (prog response)) (txSig : string)
      (k : rpc_result -> prog response) (answer : rpc_result) :
    cluster_step {| store := db; in_flight := ps1 ++ GetTransaction txSig k :: ps2 |}
                 {| store := db; in_flight := ps1 ++ k answer :: ps2 |}
| step_reply (db : DB) (ps1 ps2 : list (prog response)) (r : response) :
    cluster_step {| store := db; in_flight := ps1 ++ Ret r :: ps2 |}
                 {| store := db; in_flight := ps1 ++ ps2 |}.

Inductive cluster_steps : cluster -> cluster -> Prop :=
| steps_refl (c : cluster) : cluster_steps c c
| steps_cons (c1 c2 c3 : cluster) :
    cluster_step c1 c2 -> cluster_steps c2 c3 -> cluster_steps c1 c3.

(** The stores that the server can reach from an empty database. *)
Definition reachable (db : DB) : Prop :=
  exists ps, cluster_steps {| store := empty_db; in_flight := [] |}
                           {| store := db; in_flight := ps |}.

(* ================================================================== *)
(** * Invariants of the store *)
(* ================================================================== *)

Fixpoint distinct (l : list string) : bool :=
  match l with
  | [] => true
  | x :: rest => negb (JS.includes rest x) && distinct rest
  end.

(** The primary key of [payments] identifies a row. *)
Definition payments_keyed (db : DB) : Prop :=
  distinct (map Payments.id (payments db)) = true.

(** The resource that a consumed payment paid for: a repo or a ticket that
    carries the payment's transaction hash. *)
Definition resource_of (db : DB) (txSig : string) : Prop :=
  (exists r, In r (repos db) /\ Repos.payment_tx r = Some txSig)
  \/ (exists t, In t (otp_tokens db) /\ OtpTokens.payment_tx t = txSig).

(** No payment is marked consumed without its resource. *)
Definition consumed_backed (db : DB) : Prop :=
  forall p, In p (payments db) -> Payments.consumed_at p <> None ->
            resource_of db (Payments.tx_sig p).

Definition inv (db : DB) : Prop := payments_keyed db /\ consumed_backed db.

(** ** How a table may change *)

(** [grows R old new]: the rows of [old] are still there, in place, each
    related by [R] to what it was; rows may have been appended. *)
Inductive grows {A : Type} (R : A -> A -> Prop) : list A -> list A -> Prop :=
| grows_nil (ext : list A) : grows R [] ext
| grows_cons (x y : A) (l l' : list A) :
    R x y -> grows R l l' -> grows R (x :: l) (y :: l').

(** A payment keeps its identity and purpose, stays confirmed once
    confirmed and keeps its consumed-at once set. *)
Definition payment_le (p p' : Payments.row) : Prop :=
  Payments.id p' = Payments.id p
  /\ Payments.tx_sig p' = Payments.tx_sig p
  /\ Payments.purpose p' = Payments.purpose p
  /\ (Payments.status p = "confirmed" -> Payments.status p' = "confirmed")
  /\ (forall t, Payments.consumed_at p = Some t -> Payments.consumed_at p' = Some t).

(** A ticket changes in its used-at only, and only from null. *)
Definition otp_le (r r' : OtpTokens.row) : Prop :=
  OtpTokens.id r' = OtpTokens.id r
  /\ OtpTokens.otp_plain r' = OtpTokens.otp_plain r
  /\ OtpTokens.payment_tx r' = OtpTokens.payment_tx r
  /\ (forall t, OtpTokens.used_at r = Some t -> OtpTokens.used_at r' = Some t).

(** A repo keeps its identity and its payment, and stays multisig. *)
Definition repo_le (r r' : Repos.row) : Prop :=
  Repos.id r' = Repos.id r
  /\ Repos.owner r' = Repos.owner r
  /\ Repos.name r' = Repos.name r
  /\ (Repos.is_multisig r = true -> Repos.is_multisig r' = true)
  /\ (forall h, Repos.payment_tx r = Some h -> Repos.payment_tx r' = Some h).

(** An approval request keeps its identity and its required count, and
    stays approved. *)
Definition multisig_push_le (r r' : MultisigPushes.row) : Prop :=
  MultisigPushes.id r' = MultisigPushes.id r
  /\ MultisigPushes.repo_id r' = MultisigPushes.repo_id r
  /\ MultisigPushes.push_tx r' = MultisigPushes.push_tx r
  /\ MultisigPushes.approvals_required r' = MultisigPushes.approvals_required r
  /\ (MultisigPushes.status r = "approved" -> MultisigPushes.status r' = "approved").

Definition db_le (db db' : DB) : Prop :=
  grows payment_le (payments db) (payments db')
  /\ grows repo_le (repos db) (repos db')
  /\ grows otp_le (otp_tokens db) (otp_tokens db')
  /\ grows multisig_push_le (multisig_pushes db) (multisig_pushes db')
  /\ grows eq (multisig_signatures db) (multisig_signatures db').

(** A statement that keeps the invariants and changes the tables only as
    above. *)
Definition preserves {R : Type} (stmt : DB -> DB * R) : Prop :=
  forall db, inv db -> inv (fst (stmt db)) /\ db_le db (fst (stmt db)).

(** A program all of whose statements do. *)
Fixpoint safe {A : Type} (p : prog A) : Prop :=
  match p with
  | Ret _ => True
  | Sql stmt k => preserves stmt /\ forall r, safe (k r)
  | GetTransaction _ k => forall r, safe (k r)
  end.

(** A request at some point of its execution. *)
Inductive residue : prog response -> Prop :=
| residue_handle (env : Env) (req : request) : residue (handle env req)
| residue_sql (R : Type) (stmt : DB -> DB * R) (k : R -> prog response) (r : R) :
    residue (Sql stmt k) -> residue (k r)
| residue_rpc (txSig : string) (k : rpc_result -> prog response) (answer : rpc_result) :
    residue (GetTransaction txSig k) -> residue (k answer).

(** An approval request for subject [txId] of the repo named by [repoId]
    or by [owner] and [name]. *)
Definition approve_request (repoId owner name : option string)
    (txId signer signatureB64 : string) : request :=
  PostMultisigApprove
    {| a_repoId := repoId; a_owner := owner; a_name := name;
       a_txId := Some txId; a_signer := Some signer;
       a_signatureB64 := Some signatureB64 |}.

(** One submission: the environment of the request, the signer and the
    signature. *)
Definition submission : Type := Env * string * string.

Definition sub_env (s : submission) : Env := fst (fst s).
Definition sub_signer (s : submission) : string := snd (fst s).
Definition sub_signature (s : submission) : string := snd s.

(** The approvals of several signers for the same subject, submitted one
    after the other. *)
Definition approvals (repoId owner name : option string) (txId : string)
    (subs : list submission) : list (Env * request) :=
  map (fun s => (sub_env s,
                 approve_request repoId owner name txId (sub_signer s) (sub_signature s)))
      subs.

(** The signature rows stored for an approval request. *)
Definition signatures_of (pushId : string) (db : DB) : list MultisigSignatures.row :=
  filter (fun r => String.eqb (MultisigSignatures.multisig_push_id r) pushId)
         (multisig_signatures db).

(** The store after a signature row went in: the count is taken over the
    rows and written back, with the status when the quorum is reached. *)
Definition record_approval (env : Env) (push : MultisigPushes.row)
    (sig : MultisigSignatures.row) (db : DB) : DB * body :=
  let db1 := with_multisig_signatures (multisig_signatures db ++ [sig]) db in
  let approvalsCount := count_multisig_signatures (MultisigPushes.id push) db1 in
  if (MultisigPushes.approvals_required push <=? approvalsCount)
     && negb (String.eqb (MultisigPushes.status push) "approved")
  then (update_multisig_push_approved approvalsCount (MultisigPushes.id push) (NOW env) db1,
        ApprovalJson "approved" approvalsCount (MultisigPushes.approvals_required push))
  else (update_multisig_push_count approvalsCount (MultisigPushes.id push) db1,
        ApprovalJson (MultisigPushes.status push) approvalsCount
          (MultisigPushes.approvals_required push)).

(** The repo that [lookup_repo] finds in a given store. *)
Definition lookup_repo_in (repoId owner name : option string) (db : DB)
  : option Repos.row :=
  out_value (run (fun _ => inr None) (lookup_repo repoId owner name) db).

(** A program none of whose statements writes to [payments]. *)
Fixpoint leaves_payments {A : Type} (p : prog A) : Prop :=
  match p with
  | Ret _ => True
  | Sql stmt k =>
      (forall db, payments (fst (stmt db)) = payments db)
      /\ forall r, leaves_payments (k r)
  | GetTransaction _ k => forall r, leaves_payments (k r)
  end.

(** The record that a first [/payments/verify] of [txSig] inserts. *)
Definition verified_row (env : Env) (b : VerifyBody) (txSig purpose payer : string)
    (info : ChainInfo) : Payments.row :=
  {| Payments.id := randomUUID_1 env; Payments.tx_sig := txSig;
     Payments.payer := payer; Payments.purpose := purpose;
     Payments.token_amount_atomic := amountAtomic info;
     Payments.status := "confirmed";
     Payments.repo_name := JS.or_null (v_repoName b);
     Payments.consumed_at := None;
     Payments.metadata :=
       {| Payments.meta_decimals := chain_decimals info;
          Payments.minTokens := PAYMENT_MIN_TOKENS cfg;
          Payments.destination := PAYMENT_DESTINATION cfg;
          Payments.meta_mint := PAYMENT_TOKEN_MINT cfg |};
     Payments.created_at := NOW env |}.

(** The repo and the threshold for which [ensureMultisigEntry] goes to the
    store; [None] where it returns [null] at once. *)
Definition tracked (repo : option Repos.row) : option (Repos.row * Z) :=
  match repo with
  | None => None
  | Some r =>
      if negb (Repos.is_multisig r) then None else
      match effective_threshold (Repos.signers r) (Repos.threshold r) with
      | None => None
      | Some threshold => if threshold =? 0 then None else Some (r, threshold)
      end
  end.

(** The approval request that [ensureMultisigEntry] sends to the store. *)
Definition new_push_row (id repoId pushTx : string) (branch : option string)
    (required now : Z) : MultisigPushes.row :=
  {| MultisigPushes.id := id; MultisigPushes.repo_id := repoId;
     MultisigPushes.push_tx := pushTx;
     MultisigPushes.branch := branch;
     MultisigPushes.status := "pending";
     MultisigPushes.approvals_required := required;
     MultisigPushes.approvals_count := 0;
     MultisigPushes.created_at := now;
     MultisigPushes.approved_at := None |}.

(** The row that [/push-log] sends to the store. *)
Definition logged_push (env : Env) (b : PushLogBody) (txId : string)
    (repoRow : option Repos.row) : Pushes.row :=
  {| Pushes.id := randomUUID_1 env;
     Pushes.repo_id :=
       match repoRow with
       | Some r => JS.or_null (Some (Repos.id r))
       | None => None
       end;
     Pushes.tx_id := txId;
     Pushes.owner := JS.or_null (l_owner b);
     Pushes.repo := JS.or_null (l_repo b);
     Pushes.branch := JS.or_null (l_branch b);
     Pushes.encrypted := l_encrypted b;
     Pushes.created_at := NOW env |}.

(** A program each of whose statements keeps the property [P] of the
    store. *)
Fixpoint keeps {A : Type} (P : DB -> Prop) (p : prog A) : Prop :=
  match p with
  | Ret _ => True
  | Sql stmt k => (forall db, P db -> P (fst (stmt db))) /\ forall r, keeps P (k r)
  | GetTransaction _ k => forall r, keeps P (k r)
  end.

(** The payments on record: identified by their key, all confirmed, none
    below the minimum, and consumed only when of a consuming purpose. *)
Definition paid (db : DB) : Prop :=
  payments_keyed db
  /\ forall p, In p (payments db) ->
       Payments.status p = "confirmed"
       /\ MIN_PAYMENT_ATOMIC cfg <= Payments.token_amount_atomic p
       /\ (Payments.consumed_at p <> None ->
           Payments.purpose p = "repo_init" \/ Payments.purpose p = "otp_share").

(** An approval request agrees with the signatures on record: its count
    is the number of its signatures, it requires at least one, and it is
    approved, with the time of approval, exactly when the count reaches
    what it requires. *)
Definition tally_ok (sigs : list MultisigSignatures.row) (m : MultisigPushes.row)
  : Prop :=
  MultisigPushes.approvals_count m
  = count_where (fun s => String.eqb (MultisigSignatures.multisig_push_id s)
                            (MultisigPushes.id m)) sigs
  /\ 1 <= MultisigPushes.approvals_required m
  /\ (MultisigPushes.status m = "approved" \/ MultisigPushes.status m = "pending")
  /\ (MultisigPushes.status m = "approved"
      <-> MultisigPushes.approvals_required m <= MultisigPushes.approvals_count m)
  /\ (MultisigPushes.status m = "approved" <-> MultisigPushes.approved_at m <> None).

Definition tallied (db : DB) : Prop :=
  distinct (map MultisigPushes.id (multisig_pushes db)) = true
  /\ (forall s, In s (multisig_signatures db) ->
        In (MultisigSignatures.multisig_push_id s)
           (map MultisigPushes.id (multisig_pushes db)))
  /\ NoDup (map (fun s => (MultisigSignatures.multisig_push_id s,
                           MultisigSignatures.signer s)) (multisig_signatures db))
  /\ forall m, In m (multisig_pushes db) -> tally_ok (multisig_signatures db) m.

(* ================================================================== *)
(** * Lemmas on tables *)
(* ================================================================== *)

Lemma includes_In (l : list string) (x : string) :
  JS.includes l x = true <-> In x l.
Proof.
  unfold JS.includes. rewrite existsb_exists. split.
  - intros [y [Hy He]]. apply String.eqb_eq in He. now subst.
  - intros H. exists x. split; [assumption | apply String.eqb_refl].
Qed.

Lemma distinct_NoDup (l : list string) : distinct l = true <-> NoDup l.
Proof.
  induction l as [|x l IH]; simpl.
  - split; [constructor | reflexivity].
  - rewrite andb_true_iff, negb_true_iff, IH. split.
    + intros [Hx Hl]. constructor; [|assumption].
      intros Hin. apply includes_In in Hin. congruence.
    + intros H. inversion H as [|? ? Hx Hl]; subst. split; [|assumption].
      destruct (JS.includes l x) eqn:E; [|reflexivity].
      apply includes_In in E. contradiction.
Qed.

Lemma distinct_app_fresh (l : list string) (x : string) :
  distinct l = true -> JS.includes l x = false -> distinct (l ++ [x]) = true.
Proof.
  intros Hl Hx. apply distinct_NoDup. apply distinct_NoDup in Hl.
  induction l as [|y l IH]; simpl.
  - constructor; [intros [] | constructor].
  - inversion Hl as [|? ? Hy Hl']; subst.
    assert (Hxl : JS.includes l x = false).
    { destruct (JS.includes l x) eqn:E; [|reflexivity].
      apply includes_In in E.
      assert (JS.includes (y :: l) x = true) by (apply includes_In; now right).
      congruence. }
    constructor; [|now apply IH].
    rewrite in_app_iff. intros [Hin | [Heq | []]]; [contradiction|].
    assert (JS.includes (y :: l) x = true) by (apply includes_In; left; congruence).
    congruence.
Qed.

Section Grows.
Context {A : Type} (R : A -> A -> Prop).

Lemma grows_refl (l : list A) : (forall x, R x x) -> grows R l l.
Proof. intros HR. induction l; constructor; auto. Qed.

Lemma grows_trans (l1 l2 l3 : list A) :
  (forall x y z, R x y -> R y z -> R x z) ->
  grows R l1 l2 -> grows R l2 l3 -> grows R l1 l3.
Proof.
  intros HR H12. revert l3.
  induction H12 as [ext | x y l l' Hxy H12 IH]; intros l3 H23.
  - constructor.
  - inversion H23 as [| ? z ? l'' Hyz H23']; subst.
    constructor; [eapply HR; eassumption | now apply IH].
Qed.

Lemma grows_app (l ext : list A) : (forall x, R x x) -> grows R l (l ++ ext).
Proof. intros HR. induction l; simpl; constructor; auto. Qed.

Lemma grows_map (f : A -> A) (l : list A) :
  (forall x, In x l -> R x (f x)) -> grows R l (map f l).
Proof.
  induction l as [|x l IH]; intros HR; simpl; constructor.
  - apply HR. now left.
  - apply IH. intros y Hy. apply HR. now right.
Qed.

Lemma grows_update_where (cond : A -> bool) (f : A -> A) (l : list A) :
  (forall x, R x x) ->
  (forall x, In x l -> cond x = true -> R x (f x)) ->
  grows R l (update_where cond f l).
Proof.
  intros Hrefl HR. unfold update_where. apply grows_map.
  intros x Hx. destruct (cond x) eqn:E; auto.
Qed.

(** A lookup that found a row still finds it, as it has become. *)
Lemma grows_find (key : A -> bool) (l l' : list A) (x : A) :
  (forall a b, R a b -> key b = key a) ->
  grows R l l' -> find key l = Some x ->
  exists y, find key l' = Some y /\ R x y.
Proof.
  intros Hkey H. induction H as [ext | a b l l' Hab H IH]; simpl; intros Hf.
  - discriminate.
  - rewrite (Hkey _ _ Hab). destruct (key a).
    + inversion Hf; subst. eauto.
    + auto.
Qed.

Lemma grows_In (l l' : list A) (x : A) :
  grows R l l' -> In x l -> exists y, In y l' /\ R x y.
Proof.
  intros H. induction H as [ext | a b l l' Hab H IH]; simpl; intros Hin.
  - contradiction.
  - destruct Hin as [-> | Hin]; [eauto|].
    destruct (IH Hin) as [y [Hy Hxy]]. eauto.
Qed.

End Grows.

Lemma payment_le_refl (p : Payments.row) : payment_le p p.
Proof. unfold payment_le. auto. Qed.

Lemma payment_le_trans (p q r : Payments.row) :
  payment_le p q -> payment_le q r -> payment_le p r.
Proof.
  unfold payment_le. intros (H1 & H2 & H3 & H4 & H5) (K1 & K2 & K3 & K4 & K5).
  repeat split; try congruence; auto.
Qed.

Lemma otp_le_refl (r : OtpTokens.row) : otp_le r r.
Proof. unfold otp_le. auto. Qed.

Lemma otp_le_trans (p q r : OtpTokens.row) : otp_le p q -> otp_le q r -> otp_le p r.
Proof.
  unfold otp_le. intros (H1 & H2 & H3 & H4) (K1 & K2 & K3 & K4).
  repeat split; try congruence; auto.
Qed.

Lemma repo_le_refl (r : Repos.row) : repo_le r r.
Proof. unfold repo_le. auto. Qed.

Lemma repo_le_trans (p q r : Repos.row) : repo_le p q -> repo_le q r -> repo_le p r.
Proof.
  unfold repo_le. intros (H1 & H2 & H3 & H4 & H5) (K1 & K2 & K3 & K4 & K5).
  repeat split; try congruence; auto.
Qed.

Lemma multisig_push_le_refl (r : MultisigPushes.row) : multisig_push_le r r.
Proof. unfold multisig_push_le. auto. Qed.

Lemma multisig_push_le_trans (p q r : MultisigPushes.row) :
  multisig_push_le p q -> multisig_push_le q r -> multisig_push_le p r.
Proof.
  unfold multisig_push_le. intros (H1 & H2 & H3 & H4 & H5) (K1 & K2 & K3 & K4 & K5).
  repeat split; try congruence; auto.
Qed.

Lemma db_le_refl (db : DB) : db_le db db.
Proof.
  unfold db_le. repeat split; apply grows_refl;
    auto using payment_le_refl, repo_le_refl, otp_le_refl, multisig_push_le_refl.
Qed.

Lemma db_le_trans (a b c : DB) : db_le a b -> db_le b c -> db_le a c.
Proof.
  unfold db_le. intros (H1 & H2 & H3 & H4 & H5) (K1 & K2 & K3 & K4 & K5).
  repeat split; eapply grows_trans; try eassumption.
  - apply payment_le_trans.
  - apply repo_le_trans.
  - apply otp_le_trans.
  - apply multisig_push_le_trans.
  - intros; congruence.
Qed.

Lemma keyed_unique {A : Type} (key : A -> string) (l : list A) (a b : A) :
  distinct (map key l) = true -> In a l -> In b l -> key a = key b -> a = b.
Proof.
  intros Hd. apply distinct_NoDup in Hd.
  induction l as [|x l IH]; simpl in *; [contradiction|].
  inversion Hd as [|? ? Hx Hl]; subst.
  intros [-> | Ha] [-> | Hb] Hk; auto.
  - exfalso. apply Hx. rewrite Hk. now apply in_map.
  - exfalso. apply Hx. rewrite <- Hk. now apply in_map.
Qed.

Lemma update_where_In {A : Type} (cond : A -> bool) (f : A -> A) (l : list A) (y : A) :
  In y (update_where cond f l) ->
  exists x, In x l /\ y = (if cond x then f x else x).
Proof.
  unfold update_where. rewrite in_map_iff. intros [x [Hx Hin]]. eauto.
Qed.

Lemma update_where_keys {A : Type} (key : A -> string) (cond : A -> bool)
    (f : A -> A) (l : list A) :
  (forall x, key (f x) = key x) ->
  map key (update_where cond f l) = map key l.
Proof.
  intros Hk. unfold update_where. rewrite map_map. apply map_ext.
  intros x. destruct (cond x); auto.
Qed.

Lemma existsb_false_In {A : Type} (f : A -> bool) (l : list A) (x : A) :
  existsb f l = false -> In x l -> f x = false.
Proof.
  intros He Hin. destruct (f x) eqn:E; [|reflexivity].
  assert (existsb f l = true) by (apply existsb_exists; eauto). congruence.
Qed.

Lemma existsb_key_includes {A : Type} (key : A -> string) (l : list A) (k : string) :
  existsb (fun r => String.eqb (key r) k) l = JS.includes (map key l) k.
Proof.
  unfold JS.includes. induction l as [|x l IH]; simpl; [reflexivity|].
  rewrite IH. f_equal. apply String.eqb_sym.
Qed.

Lemma select_payment_In (h : string) (db : DB) (p : Payments.row) :
  select_payment h db = Some p -> In p (payments db) /\ Payments.tx_sig p = h.
Proof.
  unfold select_payment. intros H. apply find_some in H.
  destruct H as [Hin He]. apply String.eqb_eq in He. auto.
Qed.

Lemma resource_of_mono (db db' : DB) (h : string) :
  grows repo_le (repos db) (repos db') ->
  grows otp_le (otp_tokens db) (otp_tokens db') ->
  resource_of db h -> resource_of db' h.
Proof.
  intros Hr Ho [[r [Hin Hp]] | [t [Hin Hp]]].
  - destruct (grows_In _ _ _ _ Hr Hin) as [r' [Hin' Hle]].
    left. exists r'. split; [assumption|]. now apply Hle.
  - destruct (grows_In _ _ _ _ Ho Hin) as [t' [Hin' Hle]].
    right. exists t'. split; [assumption|].
    destruct Hle as (_ & _ & Hp' & _). congruence.
Qed.

(** The invariants survive whatever leaves the payments alone and lets the
    resources grow. *)
Lemma inv_same_payments (db db' : DB) :
  payments db' = payments db ->
  grows repo_le (repos db) (repos db') ->
  grows otp_le (otp_tokens db) (otp_tokens db') ->
  inv db -> inv db'.
Proof.
  intros Hp Hr Ho [Hk Hb]. split.
  - unfold payments_keyed. now rewrite Hp.
  - intros p Hin Hc. rewrite Hp in Hin.
    eapply resource_of_mono; eauto.
Qed.

(* ------------------------------------------------------------------ *)
(** ** The transactions, case by case *)
(* ------------------------------------------------------------------ *)

Lemma lock_payment_spec (h purpose : string) (db : DB) :
  lock_payment h purpose db =
  match select_payment h db with
  | None => inl "payment_not_found"
  | Some p =>
      if negb (String.eqb (Payments.purpose p) purpose) then inl "payment_wrong_purpose"
      else if negb (String.eqb (Payments.status p) "confirmed")
      then inl "payment_not_confirmed"
      else if is_some (Payments.consumed_at p) then inl "payment_already_consumed"
      else inr (db, p)
  end.
Proof.
  unfold lock_payment, tx_bind, tx_query, throw, tx_ret.
  destruct (select_payment h db) as [p|]; [|reflexivity].
  destruct (negb (String.eqb (Payments.purpose p) purpose)); [reflexivity|].
  destruct (negb (String.eqb (Payments.status p) "confirmed")); [reflexivity|].
  destruct (is_some (Payments.consumed_at p)); reflexivity.
Qed.

Lemma repos_transaction_spec (env : Env) (name owner : string) (b : ReposBody)
    (h : string) (db : DB) :
  repos_transaction env name owner b h db =
  match lock_payment h "repo_init" db with
  | inl e => inl e
  | inr (_, p) =>
      match integer_or_null (computedThreshold (r_signers b) (r_threshold b)) with
      | inl e => inl (pg_message e)
      | inr threshold =>
          let row := new_repo_row env name owner b h threshold in
          if repo_owner_name_taken row db then inl "repo_exists"
          else if repo_pkey_taken row db
          then inl (pg_message (unique_violation "repos_pkey"))
          else inr (update_payment_consumed (Payments.id p) (NOW env)
                      (with_repos (repos db ++ [row]) db), row)
      end
  end.
Proof.
  unfold repos_transaction, tx_bind. rewrite lock_payment_spec.
  destruct (select_payment h db) as [p|]; [|reflexivity].
  destruct (negb (String.eqb (Payments.purpose p) "repo_init")); [reflexivity|].
  destruct (negb (String.eqb (Payments.status p) "confirmed")); [reflexivity|].
  destruct (is_some (Payments.consumed_at p)); [reflexivity|].
  unfold tx_attempt, with_integer_or_null, insert_repo_on_conflict_do_nothing.
  destruct (integer_or_null _) as [e|threshold]; [reflexivity|]. cbv zeta.
  destruct (repo_owner_name_taken _ db); [reflexivity|].
  destruct (repo_pkey_taken _ db); reflexivity.
Qed.

Lemma otp_transaction_spec (env : Env) (repo : Repos.row) (bundleTx h : string)
    (b : OtpRequestBody) (db : DB) :
  otp_transaction env repo bundleTx h b db =
  match lock_payment h "otp_share" db with
  | inl e => inl e
  | inr (_, p) =>
      let row := new_otp_row env repo bundleTx h b in
      if existsb (fun r => String.eqb (OtpTokens.id r) (OtpTokens.id row)) (otp_tokens db)
      then inl (pg_message (unique_violation "otp_tokens_pkey"))
      else inr (update_payment_consumed (Payments.id p) (NOW env)
                  (with_otp_tokens (otp_tokens db ++ [row]) db),
                OtpJson (OtpTokens.otp_plain row) (OtpTokens.decrypt_key row) bundleTx
                  (Date_now env + ttlMinutes b * 60 * 1000))
  end.
Proof.
  unfold otp_transaction, tx_bind. rewrite lock_payment_spec.
  destruct (select_payment h db) as [p|]; [|reflexivity].
  destruct (negb (String.eqb (Payments.purpose p) "otp_share")); [reflexivity|].
  destruct (negb (String.eqb (Payments.status p) "confirmed")); [reflexivity|].
  destruct (is_some (Payments.consumed_at p)); [reflexivity|].
  unfold tx_attempt_, insert_otp_token, new_otp_row. cbn [OtpTokens.id].
  destruct (existsb _ (otp_tokens db)); reflexivity.
Qed.

Lemma approve_transaction_spec (env : Env) (repo : Repos.row)
    (txId signer signatureB64 : string) (db : DB) :
  approve_transaction env repo txId signer signatureB64 db =
  match select_multisig_push (Repos.id repo) txId db with
  | None => inl "push_not_tracked"
  | Some push =>
      let sig := new_signature_row env (MultisigPushes.id push) signer signatureB64 in
      match insert_multisig_signature sig db with
      | inl e => if String.eqb (code e) "23505" then inl "signature_already_submitted"
                 else inl (pg_message e)
      | inr _ => inr (record_approval env push sig db)
      end
  end.
Proof.
  unfold approve_transaction, tx_bind, tx_query.
  destruct (select_multisig_push (Repos.id repo) txId db) as [push|]; [|reflexivity].
  unfold tx_attempt_. fold (new_signature_row env (MultisigPushes.id push) signer signatureB64).
  cbv zeta. unfold insert_multisig_signature.
  destruct (existsb _ (multisig_signatures db)); [reflexivity|].
  destruct (existsb _ (multisig_signatures db)); [reflexivity|].
  unfold record_approval, throw, tx_exec, tx_ret. cbv zeta.
  destruct (_ && _); reflexivity.
Qed.

(* ------------------------------------------------------------------ *)
(** ** Every statement of the server keeps the invariants *)
(* ------------------------------------------------------------------ *)

Create HintDb tables discriminated.
#[local] Hint Resolve payment_le_refl repo_le_refl otp_le_refl multisig_push_le_refl
  db_le_refl : tables.
#[local] Hint Extern 1 (grows _ ?l ?l) => apply grows_refl : tables.
#[local] Hint Extern 1 (grows _ ?l (?l ++ _)) => apply grows_app : tables.

(** Splits [db_le] and closes the tables that did not change or were only
    appended to. *)
Ltac tables := unfold db_le; cbn [payments repos pushes otp_tokens multisig_pushes
  multisig_signatures with_payments with_repos with_pushes with_otp_tokens
  with_multisig_pushes with_multisig_signatures];
  repeat split; auto with tables.

(** Closes [inv] of a store whose payments are those of [db]. *)
Ltac same_payments db :=
  apply (inv_same_payments db);
  [reflexivity | cbn; auto with tables | cbn; auto with tables | assumption].

Lemma preserves_query {R : Type} (f : DB -> R) : preserves (query f).
Proof. intros db H. cbn. auto with tables. Qed.

Lemma preserves_update_payment_confirmed (id : string) :
  preserves (exec (update_payment_confirmed id)).
Proof.
  intros db [Hk Hb]. cbn [fst exec]. split; [split|].
  - unfold payments_keyed, update_payment_confirmed. cbn [payments with_payments].
    rewrite update_where_keys; [assumption | reflexivity].
  - intros p' Hin Hc. unfold update_payment_confirmed in Hin. cbn in Hin.
    apply update_where_In in Hin. destruct Hin as [p [Hin ->]].
    assert (Hr : resource_of db (Payments.tx_sig p)).
    { apply Hb; [assumption|]. destruct (String.eqb _ _); exact Hc. }
    destruct (String.eqb _ _); exact Hr.
  - unfold update_payment_confirmed. tables.
    apply grows_update_where; auto with tables.
    intros x _ _. unfold payment_le. cbn. auto.
Qed.

Lemma preserves_insert_payment (id txSig : string) (payer : option string)
    (purpose : string) (amount : Z) (repoName : option string)
    (metadata : Payments.Metadata) (now : Z) :
  preserves (attempt (insert_payment id txSig payer purpose amount repoName metadata now)).
Proof.
  intros db [Hk Hb]. unfold attempt, insert_payment.
  destruct payer as [payer|]; [|cbn; split; [split|]; auto with tables].
  destruct (existsb (fun r => String.eqb (Payments.id r) id) (payments db)) eqn:Eid;
    [cbn; split; [split|]; auto with tables|].
  destruct (existsb (fun r => String.eqb (Payments.tx_sig r) txSig) (payments db));
    [cbn; split; [split|]; auto with tables|].
  cbn [fst]. split; [split|].
  - unfold payments_keyed. cbn [payments with_payments]. rewrite map_app. cbn [map].
    apply distinct_app_fresh; [assumption|].
    now rewrite <- existsb_key_includes.
  - intros p Hin Hc. cbn [payments with_payments] in Hin.
    apply in_app_or in Hin. destruct Hin as [Hin | [<- | []]].
    + exact (Hb p Hin Hc).
    + now cbn in Hc.
  - tables.
Qed.

(** Marking the locked payment consumed, after writes that brought its
    resource into being. *)
Lemma consume_preserves (h : string) (p : Payments.row) (now : Z) (db db1 : DB) :
  inv db -> select_payment h db = Some p -> Payments.consumed_at p = None ->
  payments db1 = payments db -> db_le db db1 -> resource_of db1 h ->
  inv (update_payment_consumed (Payments.id p) now db1)
  /\ db_le db (update_payment_consumed (Payments.id p) now db1).
Proof.
  intros [Hk Hb] Hsel Hnone Hpay Hle Hres.
  destruct (select_payment_In _ _ _ Hsel) as [Hin Hsig].
  assert (Hsame : forall q, In q (payments db) ->
            String.eqb (Payments.id q) (Payments.id p) = true -> q = p).
  { intros q Hq He. apply String.eqb_eq in He.
    eapply (keyed_unique Payments.id); eauto. }
  destruct Hle as (Hg1 & Hg2 & Hg3 & Hg4 & Hg5).
  split; [split|].
  - unfold payments_keyed, update_payment_consumed. cbn [payments with_payments].
    rewrite update_where_keys; [|reflexivity]. now rewrite Hpay.
  - intros q' Hq' Hc. unfold update_payment_consumed in Hq'. cbn in Hq'.
    apply update_where_In in Hq'. destruct Hq' as [q [Hq ->]].
    rewrite Hpay in Hq.
    destruct (String.eqb (Payments.id q) (Payments.id p)) eqn:E.
    + rewrite (Hsame q Hq E). cbn. rewrite Hsig. exact Hres.
    + eapply resource_of_mono with (db := db); eauto.
  - unfold update_payment_consumed. tables. rewrite Hpay.
    apply grows_update_where; auto with tables.
    intros x Hx E. rewrite (Hsame x Hx E). unfold payment_le. cbn.
    repeat split; auto. intros t Ht. congruence.
Qed.

Lemma lock_payment_ok (h purpose : string) (db db' : DB) (p : Payments.row) :
  lock_payment h purpose db = inr (db', p) ->
  db' = db /\ select_payment h db = Some p /\ Payments.purpose p = purpose
  /\ Payments.status p = "confirmed" /\ Payments.consumed_at p = None.
Proof.
  rewrite lock_payment_spec. destruct (select_payment h db) as [q|]; [|discriminate].
  destruct (String.eqb (Payments.purpose q) purpose) eqn:E1; [|discriminate].
  destruct (String.eqb (Payments.status q) "confirmed") eqn:E2; [|discriminate].
  destruct (Payments.consumed_at q) eqn:E3; [discriminate|].
  cbn. intros H. inversion H; subst.
  apply String.eqb_eq in E1, E2. auto.
Qed.

Lemma preserves_repos_transaction (env : Env) (name owner : string) (b : ReposBody)
    (h : string) :
  preserves (transaction (repos_transaction env name owner b h)).
Proof.
  intros db Hinv. unfold transaction. rewrite repos_transaction_spec.
  destruct (lock_payment h "repo_init" db) as [e | [db' p]] eqn:Hlock;
    [cbn; auto with tables|].
  apply lock_payment_ok in Hlock. destruct Hlock as (-> & Hsel & _ & _ & Hnone).
  destruct (integer_or_null _) as [e|threshold]; [cbn; auto with tables|].
  cbv zeta. destruct (repo_owner_name_taken _ db); [cbn; auto with tables|].
  destruct (repo_pkey_taken _ db); [cbn; auto with tables|].
  cbn [fst]. eapply consume_preserves; eauto.
  - tables.
  - left. exists (new_repo_row env name owner b h threshold). split.
    + cbn. apply in_or_app. right. now left.
    + reflexivity.
Qed.

Lemma preserves_otp_transaction (env : Env) (repo : Repos.row) (bundleTx h : string)
    (b : OtpRequestBody) :
  preserves (transaction (otp_transaction env repo bundleTx h b)).
Proof.
  intros db Hinv. unfold transaction. rewrite otp_transaction_spec.
  destruct (lock_payment h "otp_share" db) as [e | [db' p]] eqn:Hlock;
    [cbn; auto with tables|].
  apply lock_payment_ok in Hlock. destruct Hlock as (-> & Hsel & _ & _ & Hnone).
  cbv zeta. destruct (existsb _ (otp_tokens db)); [cbn; auto with tables|].
  cbn [fst]. eapply consume_preserves; eauto.
  - tables.
  - right. exists (new_otp_row env repo bundleTx h b). split.
    + cbn. apply in_or_app. right. now left.
    + reflexivity.
Qed.

Lemma preserves_update_otp_used (id : string) (now : Z) :
  preserves (update_otp_used id now).
Proof.
  intros db Hinv. unfold update_otp_used. cbn [fst].
  assert (Hg : grows otp_le (otp_tokens db)
                 (update_where (otp_unused_with_id id)
                    (OtpTokens.set_used_at (Some now)) (otp_tokens db))).
  { apply grows_update_where; auto with tables.
    intros x _ E. unfold otp_unused_with_id in E. apply andb_true_iff in E.
    destruct E as [_ E]. unfold otp_le. cbn. repeat split.
    intros t Ht. rewrite Ht in E. discriminate. }
  split.
  - same_payments db.
  - tables.
Qed.

Lemma preserves_approve_transaction (env : Env) (repo : Repos.row)
    (txId signer signatureB64 : string) :
  preserves (transaction (approve_transaction env repo txId signer signatureB64)).
Proof.
  intros db Hinv. unfold transaction. rewrite approve_transaction_spec.
  destruct (select_multisig_push (Repos.id repo) txId db) as [push|];
    [|cbn; auto with tables].
  cbv zeta. destruct (insert_multisig_signature _ db) as [e|db1].
  { destruct (String.eqb (code e) "23505"); cbn; auto with tables. }
  unfold record_approval. cbv zeta.
  destruct (_ && _); cbn [fst].
  - split.
    + same_payments db.
    + unfold update_multisig_push_approved. tables.
      apply grows_update_where; auto with tables.
      intros x _ _. unfold multisig_push_le. cbn. auto.
  - split.
    + same_payments db.
    + unfold update_multisig_push_count. tables.
      apply grows_update_where; auto with tables.
      intros x _ _. unfold multisig_push_le. cbn. auto.
Qed.

Lemma preserves_with_integer {R : Type} (x : JS.number)
    (stmt : Z -> DB -> pg_error + DB * R) :
  (forall z, preserves (attempt (stmt z))) -> preserves (attempt (with_integer x stmt)).
Proof.
  intros H db Hinv. unfold attempt, with_integer.
  destruct (pg_integer x) as [e|z]; [cbn; auto with tables|].
  apply (H z db Hinv).
Qed.

Lemma preserves_with_integer_ (x : JS.number) (stmt : Z -> DB -> pg_error + DB) :
  (forall z, preserves (attempt_ (stmt z))) -> preserves (attempt_ (with_integer x stmt)).
Proof.
  intros H db Hinv. unfold attempt_, with_integer.
  destruct (pg_integer x) as [e|z]; [cbn; auto with tables|].
  apply (H z db Hinv).
Qed.

Lemma preserves_insert_repo (row : Repos.row) : preserves (attempt (insert_repo row)).
Proof.
  intros db Hinv. unfold attempt, insert_repo.
  destruct (repo_pkey_taken row db); [cbn; auto with tables|].
  destruct (repo_owner_name_taken row db); [cbn; auto with tables|].
  cbn [fst]. split.
  - same_payments db.
  - tables.
Qed.

Lemma preserves_update_repo_multisig (threshold : Z) (signers : list string)
    (paymentTx : option string) (id : string) :
  preserves (attempt_ (fun db => inr (update_repo_multisig threshold signers paymentTx id db))).
Proof.
  intros db Hinv. cbn [fst attempt_]. unfold update_repo_multisig.
  assert (Hg : grows repo_le (repos db)
            (repos (update_repo_multisig threshold signers paymentTx id db))).
  { unfold update_repo_multisig. cbn [repos with_repos].
    apply grows_update_where; auto with tables.
    intros x _ _. unfold repo_le. cbn. repeat split; auto.
    intros h Hh. now rewrite Hh. }
  unfold update_repo_multisig in Hg. cbn [repos with_repos] in Hg. split.
  - same_payments db.
  - tables.
Qed.

Lemma preserves_insert_multisig_push (id repoId pushTx : string)
    (branch : option string) (required now : Z) :
  preserves (attempt_ (insert_multisig_push_on_conflict_do_nothing
                         id repoId pushTx branch required now)).
Proof.
  intros db Hinv. unfold attempt_, insert_multisig_push_on_conflict_do_nothing.
  destruct (existsb (same_push repoId pushTx) (multisig_pushes db));
    [cbn; auto with tables|].
  destruct (existsb _ (multisig_pushes db)); [cbn; auto with tables|].
  cbn [fst]. split.
  - same_payments db.
  - tables.
Qed.

Lemma preserves_insert_push (row : Pushes.row) :
  preserves (attempt_ (insert_push_on_conflict_do_nothing row)).
Proof.
  intros db Hinv. unfold attempt_, insert_push_on_conflict_do_nothing.
  destruct (existsb (fun r => String.eqb (Pushes.tx_id r) (Pushes.tx_id row)) (pushes db));
    [cbn; auto with tables|].
  destruct (existsb _ (pushes db)); [cbn; auto with tables|].
  cbn [fst]. split.
  - same_payments db.
  - tables.
Qed.

#[local] Hint Resolve preserves_query preserves_update_payment_confirmed
  preserves_insert_payment preserves_repos_transaction preserves_otp_transaction
  preserves_update_otp_used preserves_approve_transaction preserves_insert_repo
  preserves_update_repo_multisig preserves_insert_multisig_push
  preserves_insert_push preserves_with_integer preserves_with_integer_ : tables.

(* ------------------------------------------------------------------ *)
(** ** Every handler is safe *)
(* ------------------------------------------------------------------ *)

Lemma safe_bind {A B : Type} (p : prog A) (f : A -> prog B) :
  safe p -> (forall a, safe (f a)) -> safe (bind p f).
Proof.
  intros Hp Hf. induction p as [a | R stmt k IH | txSig k IH]; cbn in *.
  - apply Hf.
  - destruct Hp as [Hs Hk]. split; [assumption|]. intros r. apply IH, Hk.
  - intros r. apply IH, Hp.
Qed.

(** Decomposes a safety goal along the shape of the program. *)
Ltac safe_step :=
  match goal with
  | |- safe (Ret _) => exact I
  | |- safe (Sql _ _) => split; [auto with tables | intros ?]
  | |- safe (GetTransaction _ _) => intros ?
  | |- safe (bind _ _) => apply safe_bind; [| intros ?]
  | |- safe (match ?x with _ => _ end) => destruct x
  | |- safe (if ?c then _ else _) => destruct c
  | |- safe (let _ := _ in _) => cbv zeta
  end.

Lemma safe_getRepoByOwnerAndName (owner name : option string) :
  safe (getRepoByOwnerAndName owner name).
Proof. unfold getRepoByOwnerAndName. repeat safe_step. Qed.

Lemma safe_lookup_repo (repoId owner name : option string) :
  safe (lookup_repo repoId owner name).
Proof.
  unfold lookup_repo. repeat safe_step; apply safe_getRepoByOwnerAndName.
Qed.

Lemma safe_ensureMultisigEntry (id : string) (now : Z) (repo : option Repos.row)
    (pushTx : string) (branch : option string) :
  safe (ensureMultisigEntry id now repo pushTx branch).
Proof. unfold ensureMultisigEntry. repeat safe_step. Qed.

Lemma safe_verifyTokenPayment (txSig : string) : safe (verifyTokenPayment txSig).
Proof. unfold verifyTokenPayment. repeat safe_step. Qed.

#[local] Hint Resolve safe_getRepoByOwnerAndName safe_lookup_repo
  safe_ensureMultisigEntry safe_verifyTokenPayment : tables.

Lemma safe_verify_after_select (env : Env) (b : VerifyBody) (txSig purpose : string)
    (existing : option Payments.row) :
  safe (verify_after_select env b txSig purpose existing).
Proof. unfold verify_after_select. repeat safe_step; auto with tables. Qed.

Lemma safe_redeem_after_select (env : Env) (rows : option OtpTokens.row) :
  safe (redeem_after_select env rows).
Proof. unfold redeem_after_select. repeat safe_step. Qed.

Lemma safe_setup_finish (env : Env) (repo : option Repos.row) (pushTx : string) :
  safe (setup_finish env repo pushTx).
Proof. unfold setup_finish. repeat safe_step; auto with tables. Qed.

Lemma safe_handle (env : Env) (req : request) : safe (handle env req).
Proof.
  destruct req as [b | b | b | b | b | b | b]; cbn [handle].
  - unfold post_payments_verify. cbv zeta. repeat safe_step.
    apply safe_verify_after_select.
  - unfold post_repos. repeat safe_step.
  - unfold post_otp_request. repeat safe_step; auto with tables.
  - unfold post_otp_redeem. repeat safe_step. apply safe_redeem_after_select.
  - unfold post_multisig_approve. repeat safe_step; auto with tables.
  - unfold post_multisig_setup. cbv zeta.
    repeat (safe_step; auto using safe_setup_finish with tables).
  - unfold post_push_log. repeat safe_step; auto with tables.
Qed.

Lemma residue_safe (p : prog response) : residue p -> safe p.
Proof.
  induction 1 as [env req | R stmt k r _ IH | txSig k answer _ IH].
  - apply safe_handle.
  - apply IH.
  - apply IH.
Qed.

(* ------------------------------------------------------------------ *)
(** ** Executions keep the invariants *)
(* ------------------------------------------------------------------ *)

Lemma run_safe {A : Type} (chain : string -> rpc_result) (p : prog A) (db : DB) :
  safe p -> inv db ->
  inv (out_db (run chain p db)) /\ db_le db (out_db (run chain p db)).
Proof.
  revert db. induction p as [a | R stmt k IH | txSig k IH]; intros db Hs Hinv; cbn.
  - auto with tables.
  - destruct Hs as [Hp Hk]. destruct (Hp db Hinv) as [Hinv' Hle].
    destruct (stmt db) as [db' r]. cbn in *.
    destruct (IH r db' (Hk r) Hinv') as [Hinv'' Hle'].
    split; [assumption | eapply db_le_trans; eassumption].
  - apply IH; auto.
Qed.

Lemma serve_safe (chain : string -> rpc_result) (env : Env) (req : request) (db : DB) :
  inv db ->
  inv (out_db (serve chain env req db)) /\ db_le db (out_db (serve chain env req db)).
Proof. intros H. apply run_safe; [apply safe_handle | assumption]. Qed.

Lemma serve_all_safe (chain : string -> rpc_result) (reqs : list (Env * request))
    (db : DB) :
  inv db -> inv (serve_all chain reqs db) /\ db_le db (serve_all chain reqs db).
Proof.
  revert db. induction reqs as [|[env req] reqs IH]; intros db Hinv; cbn.
  - auto with tables.
  - destruct (serve_safe chain env req db Hinv) as [H1 H2].
    destruct (IH _ H1) as [H3 H4].
    split; [assumption | eapply db_le_trans; eassumption].
Qed.

Lemma cluster_step_safe (c c' : cluster) :
  cluster_step c c' -> inv (store c) -> Forall residue (in_flight c) ->
  inv (store c') /\ Forall residue (in_flight c') /\ db_le (store c) (store c').
Proof.
  intros Hstep. destruct Hstep as [db ps env req | db ps1 ps2 R stmt k
    | db ps1 ps2 txSig k answer | db ps1 ps2 r]; cbn; intros Hinv Hres.
  - split; [assumption | split; [|auto with tables]].
    constructor; [constructor | assumption].
  - apply Forall_app in Hres. destruct Hres as [H1 H2].
    inversion H2 as [|? ? Hp H2']; subst.
    pose proof (residue_safe _ Hp) as [Hpres _].
    destruct (Hpres db Hinv) as [Hinv' Hle].
    split; [assumption | split; [|assumption]].
    apply Forall_app. split; [assumption|].
    constructor; [|assumption]. eapply residue_sql; eassumption.
  - apply Forall_app in Hres. destruct Hres as [H1 H2].
    inversion H2 as [|? ? Hp H2']; subst.
    split; [assumption | split; [|auto with tables]].
    apply Forall_app. split; [assumption|].
    constructor; [|assumption]. eapply residue_rpc; eassumption.
  - apply Forall_app in Hres. destruct Hres as [H1 H2].
    inversion H2 as [|? ? Hp H2']; subst.
    split; [assumption | split; [|auto with tables]].
    apply Forall_app. split; assumption.
Qed.

Lemma cluster_steps_safe (c c' : cluster) :
  cluster_steps c c' -> inv (store c) -> Forall residue (in_flight c) ->
  inv (store c') /\ Forall residue (in_flight c') /\ db_le (store c) (store c').
Proof.
  induction 1 as [c | c1 c2 c3 Hstep Hsteps IH]; intros Hinv Hres.
  - auto with tables.
  - destruct (cluster_step_safe _ _ Hstep Hinv Hres) as (H1 & H2 & H3).
    destruct (IH H1 H2) as (H4 & H5 & H6).
    split; [assumption | split; [assumption|]]. eapply db_le_trans; eassumption.
Qed.

Lemma inv_empty : inv empty_db.
Proof. split; [reflexivity | intros p []]. Qed.

Lemma reachable_inv (db : DB) : reachable db -> inv db.
Proof.
  intros [ps Hsteps].
  apply cluster_steps_safe in Hsteps; cbn; auto using inv_empty.
  now destruct Hsteps.
Qed.

(** Serving a request without interruption is one way for the cluster to
    run. *)
Lemma run_cluster_steps (chain : string -> rpc_result) (p : prog response) (db : DB)
    (ps : list (prog response)) :
  cluster_steps {| store := db; in_flight := p :: ps |}
                {| store := out_db (run chain p db); in_flight := ps |}.
Proof.
  revert db. induction p as [a | R stmt k IH | txSig k IH]; intros db; cbn.
  - eapply steps_cons; [apply (step_reply db [] ps a) | apply steps_refl].
  - eapply steps_cons; [apply (step_sql db [] ps R stmt k)|].
    cbn. destruct (stmt db) as [db' r]. cbn. apply IH.
  - eapply steps_cons; [apply (step_rpc db [] ps txSig k (chain txSig))|].
    cbn. apply IH.
Qed.

Lemma cluster_steps_trans (c1 c2 c3 : cluster) :
  cluster_steps c1 c2 -> cluster_steps c2 c3 -> cluster_steps c1 c3.
Proof.
  induction 1 as [c | a b c Hstep Hsteps IH]; intros H; [assumption|].
  eapply steps_cons; [eassumption | auto].
Qed.

Lemma serve_all_cluster_steps (chain : string -> rpc_result)
    (reqs : list (Env * request)) (db : DB) :
  cluster_steps {| store := db; in_flight := [] |}
                {| store := serve_all chain reqs db; in_flight := [] |}.
Proof.
  revert db. induction reqs as [|[env req] reqs IH]; intros db; cbn.
  - apply steps_refl.
  - eapply steps_cons; [apply (step_accept db [] env req)|].
    eapply cluster_steps_trans; [apply run_cluster_steps | apply IH].
Qed.

(* ================================================================== *)
(** * Thresholds *)
(* ================================================================== *)

Lemma Math_ceil_half_eq (n : nat) : JS.Math_ceil_half n = (Z.of_nat n + 1) / 2.
Proof.
  unfold JS.Math_ceil_half, Qceiling, Qfloor. cbn.
  rewrite Z.mul_1_r. Z.div_mod_to_equations. lia.
Qed.

Lemma Math_ceil_half_range (n : nat) :
  (0 < n)%nat -> 1 <= JS.Math_ceil_half n <= Z.of_nat n.
Proof.
  intros Hn. rewrite Math_ceil_half_eq. Z.div_mod_to_equations. lia.
Qed.

Lemma pg_integer_of_Z (z : Z) : pg_integer (JS.of_Z z) = inr z.
Proof.
  unfold pg_integer, JS.of_Z. rewrite Qfloor_Z.
  assert (E : Qeq_bool (inject_Z z) (inject_Z z) = true)
    by (apply Qeq_bool_iff; reflexivity).
  now rewrite E.
Qed.

Lemma pg_integer_whole (x : JS.number) (z : Z) :
  pg_integer x = inr z -> exists q, x = JS.Finite q /\ (inject_Z z == q)%Q.
Proof.
  unfold pg_integer. destruct x as [q| | |]; try discriminate.
  destruct (Qeq_bool (inject_Z (Qfloor q)) q) eqn:E; [|discriminate].
  intros [= <-]. exists q. split; [reflexivity|]. now apply Qeq_bool_iff.
Qed.

Lemma number_truthy_of_Z (z : Z) : JS.number_truthy (JS.of_Z z) = negb (z =? 0).
Proof.
  unfold JS.number_truthy, JS.of_Z. f_equal.
  destruct (Z.eqb_spec z 0) as [->|Hz].
  - now apply Qeq_bool_iff.
  - destruct (Qeq_bool (inject_Z z) 0) eqn:E; [|reflexivity].
    apply Qeq_bool_iff in E. unfold Qeq in E. cbn in E. lia.
Qed.

Lemma Qle_bool_inject_Z (a b : Z) : Qle_bool (inject_Z a) (inject_Z b) = (a <=? b).
Proof.
  destruct (Z.leb_spec a b) as [H|H].
  - apply Qle_bool_iff. now rewrite <- Zle_Qle.
  - destruct (Qle_bool (inject_Z a) (inject_Z b)) eqn:E; [|reflexivity].
    apply Qle_bool_iff in E. rewrite <- Zle_Qle in E. lia.
Qed.

Lemma gt_int_of_Z (z k : Z) : JS.gt_int (JS.of_Z z) k = (k <? z).
Proof.
  unfold JS.gt_int, JS.of_Z. rewrite Qle_bool_inject_Z.
  destruct (Z.leb_spec z k), (Z.ltb_spec k z); cbn; try reflexivity; lia.
Qed.

Lemma le_int_of_Z (z k : Z) : JS.le_int (JS.of_Z z) k = (z <=? k).
Proof. unfold JS.le_int, JS.of_Z. apply Qle_bool_inject_Z. Qed.

(** The test of [calcThreshold] on a number. *)
Lemma calcThreshold_test (x : JS.number) (n : Z) :
  JS.number_truthy x && JS.gt_int x 0 && JS.le_int x n = true <-> positive_up_to x n.
Proof.
  unfold positive_up_to. destruct x as [q| | |]; cbn [JS.number_truthy JS.gt_int JS.le_int].
  - rewrite !andb_true_iff, !negb_true_iff. change (inject_Z 0) with 0%Q. split.
    + intros [[_ H2] H3]. split.
      * apply Qnot_le_lt. intros H. apply Qle_bool_iff in H. congruence.
      * now apply Qle_bool_iff.
    + intros [H1 H2]. repeat split.
      * destruct (Qeq_bool q 0) eqn:E; [|reflexivity].
        apply Qeq_bool_iff in E. rewrite E in H1. now apply Qlt_irrefl in H1.
      * destruct (Qle_bool q 0) eqn:E; [|reflexivity].
        apply Qle_bool_iff in E. now apply Qlt_not_le in H1.
      * now apply Qle_bool_iff.
  - cbn. split; [discriminate | contradiction].
  - cbn. split; [discriminate | contradiction].
  - cbn. split; [discriminate | contradiction].
Qed.

Lemma positive_up_to_of_Z (z n : Z) : positive_up_to (JS.of_Z z) n <-> 1 <= z <= n.
Proof.
  unfold positive_up_to, JS.of_Z. change 0%Q with (inject_Z 0).
  rewrite <- Zlt_Qlt, <- Zle_Qle. lia.
Qed.

(** On the whole numbers that the store holds [calcThreshold] stays within
    them. *)
Lemma calcThreshold_of_Z (signers : list string) (stored : option Z) :
  calcThreshold signers (option_map JS.of_Z stored)
  = option_map JS.of_Z (effective_threshold signers stored).
Proof.
  unfold calcThreshold, effective_threshold. destruct signers as [|s rest]; [reflexivity|].
  destruct stored as [t|]; [|reflexivity]. cbn [option_map].
  rewrite number_truthy_of_Z, gt_int_of_Z, le_int_of_Z.
  destruct (negb (t =? 0) && (0 <? t) && (t <=? Z.of_nat (List.length (s :: rest))));
    reflexivity.
Qed.

Lemma effective_threshold_range (signers : list string) (stored : option Z) (t : Z) :
  effective_threshold signers stored = Some t -> 1 <= t <= Z.of_nat (List.length signers).
Proof.
  unfold effective_threshold. destruct signers as [|s rest]; [discriminate|].
  pose proof (Math_ceil_half_range (List.length (s :: rest))) as Hc.
  assert (Hpos : (0 < List.length (s :: rest))%nat) by (cbn; lia).
  specialize (Hc Hpos).
  destruct stored as [r|]; [|intros [= <-]; exact Hc].
  destruct (negb (r =? 0) && (0 <? r) && (r <=? Z.of_nat (List.length (s :: rest))))
    eqn:E; intros [= <-]; [|exact Hc].
  apply andb_prop in E. destruct E as [E E3]. apply andb_prop in E. destruct E as [_ E2].
  apply Z.ltb_lt in E2. apply Z.leb_le in E3. lia.
Qed.

Lemma effective_threshold_idem (signers : list string) (stored : option Z) (t : Z) :
  effective_threshold signers stored = Some t ->
  effective_threshold signers (Some t) = Some t.
Proof.
  intros H. pose proof (effective_threshold_range _ _ _ H) as Hr.
  unfold effective_threshold. destruct signers as [|s rest]; [discriminate|].
  destruct (Z.eqb_spec t 0); [lia|].
  destruct (Z.ltb_spec 0 t); [|lia].
  destruct (Z.leb_spec t (Z.of_nat (List.length (s :: rest)))); [reflexivity | lia].
Qed.

(* ================================================================== *)
(** * Ledger verification *)
(* ================================================================== *)

Lemma find_none_iff {A : Type} (f : A -> bool) (l : list A) :
  find f l = None <-> forall x, In x l -> f x = false.
Proof.
  split.
  - intros H x Hx. exact (find_none f l H x Hx).
  - intros H. induction l as [|x l IH]; cbn; [reflexivity|].
    rewrite (H x) by now left. apply IH. intros y Hy. apply H. now right.
Qed.

(** C10. Let the post-transfer balances hold an entry [dest] for the
    recipient and the asset.  The amount delivered is the post-transfer
    amount of [dest] minus the amount of the pre-transfer entry that
    matches it on recipient, asset and account index, as exact integers;
    when no pre-transfer entry matches, what is subtracted is zero, so the
    amount delivered is the whole post-transfer amount; and an amount
    delivered of zero or less is [no_deposit_detected]. *)
Theorem C10_missing_pre_balance_counts_as_zero
    (m : Solana.TxMeta) (dest : Solana.TokenBalance) (postAmount : Z) :
  Solana.err m = false ->
  find_dest cfg (or_empty (Solana.postTokenBalances m)) = Some dest ->
  JS.BigInt (amount_or_zero (Some dest)) = Some postAmount ->
  let result := verifyTokenPayment_check cfg (Some {| Solana.meta := Some m |}) in
  ((forall e, In e (or_empty (Solana.preTokenBalances m)) ->
              Solana.mint e = PAYMENT_TOKEN_MINT cfg ->
              Solana.owner e = Some (PAYMENT_DESTINATION cfg) ->
              Solana.accountIndex e <> Solana.accountIndex dest) ->
   (postAmount <= 0 -> result = inl "no_deposit_detected")
   /\ (0 < postAmount ->
       exists d, result = inr {| amountAtomic := postAmount; chain_decimals := d |}))
  /\ (forall (pre : Solana.TokenBalance) (preAmount : Z),
         find_preMatch cfg (or_empty (Solana.preTokenBalances m)) dest = Some pre ->
         JS.BigInt (amount_or_zero (Some pre)) = Some preAmount ->
         (postAmount - preAmount <= 0 -> result = inl "no_deposit_detected")
         /\ (0 < postAmount - preAmount ->
             exists d, result = inr {| amountAtomic := postAmount - preAmount;
                                       chain_decimals := d |})).
Proof.
  intros Herr Hdest Hpost result. subst result. unfold verifyTokenPayment_check.
  cbn [Solana.meta]. rewrite Herr. cbv zeta. rewrite Hdest, Hpost. split.
  - intros Hnone.
    assert (Hpre : find_preMatch cfg (or_empty (Solana.preTokenBalances m)) dest = None).
    { unfold find_preMatch. apply find_none_iff. intros e He.
      destruct (String.eqb_spec (Solana.mint e) (PAYMENT_TOKEN_MINT cfg)) as [E1|E1];
        [|reflexivity].
      unfold owner_is. destruct (Solana.owner e) as [o|] eqn:Eo; [|reflexivity].
      destruct (String.eqb_spec o (PAYMENT_DESTINATION cfg)) as [E2|E2]; [|reflexivity].
      subst o. cbn [andb]. apply Z.eqb_neq. now apply Hnone. }
    rewrite Hpre. cbn [amount_or_zero]. change (JS.BigInt "0") with (Some 0).
    cbv iota beta. rewrite Z.sub_0_r. split; intros H.
    + apply Z.leb_le in H. now rewrite H.
    + apply Z.leb_gt in H. rewrite H. eexists. reflexivity.
  - intros pre preAmount Hpre HpreAmount. rewrite Hpre, HpreAmount. split; intros H.
    + apply Z.leb_le in H. now rewrite H.
    + apply Z.leb_gt in H. rewrite H. eexists. reflexivity.
Qed.

(* ================================================================== *)
(** * Payment records *)
(* ================================================================== *)

Lemma set_status_same (r : Payments.row) (v : string) :
  Payments.status r = v -> Payments.set_status v r = r.
Proof. intros <-. now destruct r. Qed.

Lemma update_where_length {A : Type} (cond : A -> bool) (f : A -> A) (l : list A) :
  List.length (update_where cond f l) = List.length l.
Proof. unfold update_where. apply length_map. Qed.

Lemma find_update_where {A : Type} (key cond : A -> bool) (f : A -> A) (l : list A) :
  (forall x, key (f x) = key x) ->
  find key (update_where cond f l)
  = option_map (fun x => if cond x then f x else x) (find key l).
Proof.
  intros Hk. unfold update_where. induction l as [|x l IH]; cbn; [reflexivity|].
  assert (E : key (if cond x then f x else x) = key x) by (destruct (cond x); auto).
  rewrite E. destruct (key x); [reflexivity | exact IH].
Qed.

(** C9. When a payment record for the transaction hash exists,
    [/payments/verify] replays it.  The ledger is not consulted, no record
    is inserted and no other table is written.  A request for another
    purpose fails with [purpose_mismatch] and changes nothing.  Otherwise
    the answer is the existing record with status confirmed, marked
    [reused]; the record stored under the hash is afterwards that same
    record, confirmed: unchanged when it was confirmed already, and with
    its status flipped (and nothing else) when it was not; the records
    with another identifier are untouched.  Repeating the request then
    gives the same answer and leaves the store as it is. *)
Theorem C9_verify_replays_existing_record
    (chain chain' : string -> rpc_result) (env env' : Env) (b : VerifyBody)
    (txSig : string) (row : Payments.row) (db : DB) :
  v_txSig b = Some txSig -> nonempty txSig = true -> env_configured cfg = true ->
  nonempty (match v_purpose b with Some p => p | None => "repo_init" end) = true ->
  select_payment txSig db = Some row ->
  let purpose := match v_purpose b with Some p => p | None => "repo_init" end in
  let o := serve chain env (PostPaymentsVerify b) db in
  out_rpc o = []
  /\ List.length (payments (out_db o)) = List.length (payments db)
  /\ (repos (out_db o) = repos db /\ pushes (out_db o) = pushes db
      /\ otp_tokens (out_db o) = otp_tokens db
      /\ multisig_pushes (out_db o) = multisig_pushes db
      /\ multisig_signatures (out_db o) = multisig_signatures db)
  /\ (Payments.purpose row <> purpose ->
      out_value o = fail 400 "purpose_mismatch" /\ out_db o = db)
  /\ (Payments.purpose row = purpose ->
      out_value o = ok (PaymentJson (Payments.set_status "confirmed" row) true)
      /\ select_payment txSig (out_db o) = Some (Payments.set_status "confirmed" row)
      /\ (exists stored,
             select_payment txSig (out_db o) = Some stored
             /\ Payments.status stored = "confirmed"
             /\ Payments.id stored = Payments.id row
             /\ Payments.tx_sig stored = Payments.tx_sig row
             /\ Payments.payer stored = Payments.payer row
             /\ Payments.purpose stored = Payments.purpose row
             /\ Payments.token_amount_atomic stored = Payments.token_amount_atomic row
             /\ Payments.consumed_at stored = Payments.consumed_at row
             /\ Payments.created_at stored = Payments.created_at row)
      /\ (forall r, In r (payments db) -> Payments.id r <> Payments.id row ->
                    In r (payments (out_db o)))
      /\ (Payments.status row = "confirmed" -> out_db o = db)
      /\ (Payments.status row <> "confirmed" ->
          out_db o = update_payment_confirmed (Payments.id row) db))
  /\ serve chain' env' (PostPaymentsVerify b) (out_db o)
     = {| out_db := out_db o; out_value := out_value o; out_rpc := [] |}.
Proof.
  intros Htx Hne Hcfg Hpurp Hsel purpose o.
  assert (Hserve : forall ch en d,
            serve ch en (PostPaymentsVerify b) d
            = run ch (verify_after_select en b txSig purpose (select_payment txSig d)) d).
  { intros ch en d. unfold serve. cbn [handle]. unfold post_payments_verify. cbv zeta.
    rewrite Htx, Hne. fold purpose. fold purpose in Hpurp. rewrite Hpurp, Hcfg.
    reflexivity. }
  assert (Hflip : select_payment txSig (update_payment_confirmed (Payments.id row) db)
                  = Some (Payments.set_status "confirmed" row)).
  { unfold select_payment, update_payment_confirmed. cbn [payments with_payments].
    rewrite find_update_where by reflexivity.
    fold (select_payment txSig db). rewrite Hsel. cbn [option_map].
    now rewrite String.eqb_refl. }
  subst o. rewrite !Hserve, Hsel. unfold verify_after_select.
  destruct (String.eqb (Payments.purpose row) purpose) eqn:B1; cbn [negb].
  - assert (E1 := B1). apply String.eqb_eq in E1.
    destruct (String.eqb (Payments.status row) "confirmed") eqn:B2; cbn [negb run exec].
    + assert (E2 := B2). apply String.eqb_eq in E2. cbn [out_db out_value out_rpc].
      rewrite Hsel, B1, B2. cbn [negb run].
      rewrite (set_status_same row "confirmed" E2).
      repeat split; try congruence; auto.
      exists row. repeat split; auto.
    + assert (E2 := B2). apply String.eqb_neq in E2. cbn [out_db out_value out_rpc fst].
      rewrite Hflip. cbn [Payments.set_status Payments.purpose Payments.status].
      rewrite B1, String.eqb_refl. cbn [negb run].
      repeat split; try congruence; auto.
      * apply update_where_length.
      * eexists. split; [reflexivity|]. cbn. repeat split; reflexivity.
      * intros r Hin Hid. unfold update_payment_confirmed. cbn [payments with_payments].
        unfold update_where. apply in_map_iff. exists r. split; [|exact Hin].
        apply String.eqb_neq in Hid. now rewrite Hid.
  - assert (E1 := B1). apply String.eqb_neq in E1. cbn [run out_db out_value out_rpc].
    rewrite Hsel, B1. cbn [negb run].
    repeat split; try congruence; auto.
Qed.

(** ** Consumption *)

Lemma serve_post_repos (chain : string -> rpc_result) (env : Env) (b : ReposBody)
    (name owner h : string) (db : DB) :
  r_name b = Some name -> r_owner b = Some owner -> r_paymentTxSig b = Some h ->
  nonempty name = true -> nonempty owner = true -> nonempty h = true ->
  serve chain env (PostRepos b) db =
  match repos_transaction env name owner b h db with
  | inl e => {| out_db := db; out_value := fail_with 400 "repo_create_failed" e;
                out_rpc := [] |}
  | inr (db', row) => {| out_db := db'; out_value := ok (RepoJson row); out_rpc := [] |}
  end.
Proof.
  intros Hn Ho Hh Hn' Ho' Hh'. unfold serve. cbn [handle]. unfold post_repos.
  rewrite Hn, Ho, Hh. cbn [JS.truthy]. fold (nonempty name) (nonempty owner) (nonempty h).
  rewrite Hn', Ho', Hh'. cbn [negb run]. unfold transaction.
  destruct (repos_transaction env name owner b h db) as [e | [db' row]]; reflexivity.
Qed.

(** A request that [/repos] rejects before it opens its transaction. *)
Lemma post_repos_cases (env : Env) (b : ReposBody) :
  (exists e, post_repos env b = Ret (fail 400 e))
  \/ (exists name owner h,
         r_name b = Some name /\ r_owner b = Some owner /\ r_paymentTxSig b = Some h
         /\ nonempty name = true /\ nonempty owner = true /\ nonempty h = true).
Proof.
  unfold post_repos.
  destruct (r_name b) as [name|]; cbn [JS.truthy negb]; [|eauto].
  fold (nonempty name). destruct (nonempty name) eqn:E1; cbn [negb]; [|eauto].
  destruct (r_owner b) as [owner|]; cbn [JS.truthy negb]; [|eauto].
  fold (nonempty owner). destruct (nonempty owner) eqn:E2; cbn [negb]; [|eauto].
  destruct (r_paymentTxSig b) as [h|]; cbn [JS.truthy negb]; [|eauto].
  fold (nonempty h). destruct (nonempty h) eqn:E3; cbn [negb]; [|eauto].
  right. exists name, owner, h. auto 10.
Qed.

(* ------------------------------------------------------------------ *)
(** ** The effective threshold *)
(* ------------------------------------------------------------------ *)

(** C8. For a non-empty signer list of length [n] the effective threshold
    is the requested number exactly when [0 < requested <= n], which for a
    whole number is [1 <= requested <= n], and is [ceil(n/2)] otherwise
    (also for an infinity and for [NaN]) and when none is requested; lists
    of 1, 2, 3, 4 and 5 signers get 1, 1, 2, 2 and 3 by default; an empty
    list gets no threshold.  A repo that [/repos] answers with has the
    parsed signers, is flagged multisig iff its signer list is non-empty,
    and stores the effective threshold, which was then a whole number or
    null; when the effective threshold is not a whole number the store
    refuses it and [/repos] answers 400 and changes nothing. *)
Theorem C8_effective_threshold :
  (forall (signers : list string) (requested : JS.number),
      signers <> [] ->
      let n := Z.of_nat (List.length signers) in
      exists t,
        calcThreshold signers (Some requested) = Some t
        /\ (t = requested <-> positive_up_to requested n)
        /\ (~ positive_up_to requested n ->
            t = JS.of_Z (JS.Math_ceil_half (List.length signers)))
        /\ (forall z, requested = JS.of_Z z ->
                      (t = requested <-> 1 <= z <= n)
                      /\ (~ 1 <= z <= n ->
                          t = JS.of_Z (JS.Math_ceil_half (List.length signers)))))
  /\ (forall signers : list string,
         signers <> [] ->
         calcThreshold signers None
         = Some (JS.of_Z (JS.Math_ceil_half (List.length signers))))
  /\ (forall n : nat, JS.Math_ceil_half n = (Z.of_nat n + 1) / 2)
  /\ (forall a b c d e : string,
         calcThreshold [a] None = Some (JS.of_Z 1)
         /\ calcThreshold [a; b] None = Some (JS.of_Z 1)
         /\ calcThreshold [a; b; c] None = Some (JS.of_Z 2)
         /\ calcThreshold [a; b; c; d] None = Some (JS.of_Z 2)
         /\ calcThreshold [a; b; c; d; e] None = Some (JS.of_Z 3))
  /\ (forall requested : option JS.number, calcThreshold [] requested = None)
  /\ (forall (chain : string -> rpc_result) (env : Env) (b : ReposBody) (db : DB)
             (row : Repos.row),
         out_value (serve chain env (PostRepos b) db) = ok (RepoJson row) ->
         Repos.signers row = parseSigners (r_signers b)
         /\ (Repos.is_multisig row = true <-> Repos.signers row <> [])
         /\ integer_or_null (calcThreshold (Repos.signers row)
                               (JS.unless_NaN (r_threshold b)))
            = inr (Repos.threshold row))
  /\ (forall (chain : string -> rpc_result) (env : Env) (b : ReposBody) (db : DB)
             (e : pg_error),
         integer_or_null (calcThreshold (parseSigners (r_signers b))
                            (JS.unless_NaN (r_threshold b))) = inl e ->
         statusCode (out_value (serve chain env (PostRepos b) db)) = 400
         /\ out_db (serve chain env (PostRepos b) db) = db).
Proof.
  repeat apply conj.
  - intros signers r Hne n. destruct signers as [|s rest]; [congruence|].
    pose proof (Math_ceil_half_range (List.length (s :: rest))) as Hc.
    assert (Hpos : (0 < List.length (s :: rest))%nat) by (cbn; lia).
    specialize (Hc Hpos). unfold calcThreshold. fold n. fold n in Hc.
    destruct (JS.number_truthy r && JS.gt_int r 0 && JS.le_int r n) eqn:E.
    + apply calcThreshold_test in E. exists r.
      split; [reflexivity|]. split; [tauto|]. split; [tauto|].
      intros z ->. apply positive_up_to_of_Z in E. tauto.
    + assert (Hout : ~ positive_up_to r n).
      { intros H. apply calcThreshold_test in H. congruence. }
      eexists. split; [reflexivity|]. split; [|split; [reflexivity|]].
      * split; [|contradiction]. intros <-. apply positive_up_to_of_Z. exact Hc.
      * intros z ->. rewrite positive_up_to_of_Z in Hout.
        split; [|reflexivity].
        split; [|contradiction]. intros Heq. unfold JS.of_Z in Heq.
        injection Heq as Heq. change (S (List.length rest)) with (List.length (s :: rest)) in Heq.
        rewrite <- Heq. exact Hc.
  - intros signers Hne. destruct signers; [congruence | reflexivity].
  - exact Math_ceil_half_eq.
  - intros a b c d e. repeat split; reflexivity.
  - intros requested. reflexivity.
  - intros chain env b db row Hok.
    destruct (post_repos_cases env b) as [[e He] | (name & owner & h & Hn & Ho & Hh & H)].
    { unfold serve in Hok. cbn [handle] in Hok. rewrite He in Hok. discriminate. }
    destruct H as (Hn' & Ho' & Hh').
    rewrite (serve_post_repos chain env b name owner h db) in Hok by assumption.
    rewrite repos_transaction_spec in Hok.
    destruct (lock_payment h "repo_init" db) as [e | [db0 p]]; [discriminate|].
    unfold computedThreshold in Hok.
    destruct (integer_or_null _) as [e|t] eqn:Ht; [discriminate|].
    cbv zeta in Hok.
    destruct (repo_owner_name_taken _ db); [discriminate|].
    destruct (repo_pkey_taken _ db); [discriminate|].
    cbn [out_value] in Hok. injection Hok as <-.
    cbn [new_repo_row Repos.signers Repos.is_multisig Repos.threshold].
    split; [reflexivity|]. split; [|exact Ht].
    destruct (parseSigners (r_signers b)); cbn; split; congruence.
  - intros chain env b db e He.
    destruct (post_repos_cases env b) as [[e' He'] | (name & owner & h & Hn & Ho & Hh & H)].
    { unfold serve. cbn [handle]. rewrite He'. split; reflexivity. }
    destruct H as (Hn' & Ho' & Hh').
    rewrite (serve_post_repos chain env b name owner h db) by assumption.
    rewrite repos_transaction_spec.
    destruct (lock_payment h "repo_init" db) as [e' | [db0 p]]; [split; reflexivity|].
    unfold computedThreshold. rewrite He. split; reflexivity.
Qed.

Lemma find_app_left {A : Type} (key : A -> bool) (l ext : list A) (x : A) :
  find key l = Some x -> find key (l ++ ext) = Some x.
Proof.
  induction l as [|y l IH]; cbn; [discriminate|].
  destruct (key y); auto.
Qed.

(** What a successful [/repos] leaves behind: the payment found under the
    hash is the one that was locked, now consumed. *)
Lemma post_repos_consumes (chain : string -> rpc_result) (env : Env) (b : ReposBody)
    (db : DB) :
  statusCode (out_value (serve chain env (PostRepos b) db)) = 200 ->
  exists h p,
    r_paymentTxSig b = Some h
    /\ select_payment h db = Some p
    /\ Payments.consumed_at p = None
    /\ select_payment h (out_db (serve chain env (PostRepos b) db))
       = Some (Payments.set_consumed_at (Some (NOW env)) p)
    /\ Payments.purpose p = "repo_init" /\ Payments.status p = "confirmed".
Proof.
  destruct (post_repos_cases env b) as [[e He] | (name & owner & h & Hn & Ho & Hh & H)].
  - unfold serve. cbn [handle]. rewrite He. cbn. discriminate.
  - destruct H as (Hn' & Ho' & Hh').
    rewrite (serve_post_repos chain env b name owner h db) by assumption.
    rewrite repos_transaction_spec.
    destruct (lock_payment h "repo_init" db) as [e | [db' p]] eqn:Hlock;
      [cbn; discriminate|].
    apply lock_payment_ok in Hlock. destruct Hlock as (-> & Hsel & Hp & Hs & Hc).
    destruct (integer_or_null _) as [e|threshold]; [cbn; discriminate|].
    cbv zeta. destruct (repo_owner_name_taken _ db); [cbn; discriminate|].
    destruct (repo_pkey_taken _ db); [cbn; discriminate|].
    cbn [out_value out_db]. intros _. exists h, p.
    repeat split; auto.
    unfold select_payment, update_payment_consumed. cbn [payments with_payments with_repos].
    rewrite find_update_where by reflexivity.
    fold (select_payment h db). rewrite Hsel. cbn [option_map].
    now rewrite String.eqb_refl.
Qed.

Lemma run_bind {A B : Type} (chain : string -> rpc_result) (p : prog A)
    (f : A -> prog B) (db : DB) :
  run chain (bind p f) db =
  let o := run chain p db in
  let o' := run chain (f (out_value o)) (out_db o) in
  {| out_db := out_db o'; out_value := out_value o';
     out_rpc := out_rpc o ++ out_rpc o' |}.
Proof.
  revert db. induction p as [a | R stmt k IH | txSig k IH]; intros db; cbn.
  - now destruct (run chain (f a) db).
  - destruct (stmt db) as [db' r]. apply IH.
  - rewrite IH. reflexivity.
Qed.

Lemma run_lookup_repo (chain : string -> rpc_result) (repoId owner name : option string)
    (db : DB) :
  run chain (lookup_repo repoId owner name) db
  = {| out_db := db; out_value := lookup_repo_in repoId owner name db; out_rpc := [] |}.
Proof.
  unfold lookup_repo_in, lookup_repo, getRepoByOwnerAndName.
  destruct repoId as [id|]; [destruct (nonempty id)|];
    try reflexivity;
    destruct owner as [o|]; try reflexivity;
    destruct name as [n|]; try reflexivity;
    destruct (negb (nonempty o) || negb (nonempty n)); reflexivity.
Qed.

Lemma serve_post_otp_request (chain : string -> rpc_result) (env : Env)
    (b : OtpRequestBody) (bundleTx h : string) (db : DB) :
  o_bundleTx b = Some bundleTx -> o_paymentTxSig b = Some h ->
  nonempty bundleTx = true -> nonempty h = true ->
  serve chain env (PostOtpRequest b) db =
  match lookup_repo_in (o_repoId b) (o_owner b) (o_name b) db with
  | None => {| out_db := db; out_value := fail 404 "repo_not_found"; out_rpc := [] |}
  | Some repo =>
      match otp_transaction env repo bundleTx h b db with
      | inl e => {| out_db := db; out_value := fail_with 400 "otp_create_failed" e;
                    out_rpc := [] |}
      | inr (db', issued) => {| out_db := db'; out_value := ok issued; out_rpc := [] |}
      end
  end.
Proof.
  intros Hb Hh Hb' Hh'. unfold serve. cbn [handle]. unfold post_otp_request.
  rewrite Hb, Hh. cbn [JS.truthy]. fold (nonempty bundleTx) (nonempty h).
  rewrite Hb', Hh'. cbn [negb]. rewrite run_bind, run_lookup_repo.
  cbn [out_db out_value out_rpc app].
  destruct (lookup_repo_in _ _ _ db) as [repo|]; [|reflexivity].
  cbn [run]. unfold transaction.
  destruct (otp_transaction env repo bundleTx h b db) as [e | [db' issued]]; reflexivity.
Qed.

Lemma post_otp_request_cases (env : Env) (b : OtpRequestBody) :
  (exists e, post_otp_request env b = Ret (fail 400 e))
  \/ (exists bundleTx h,
         o_bundleTx b = Some bundleTx /\ o_paymentTxSig b = Some h
         /\ nonempty bundleTx = true /\ nonempty h = true).
Proof.
  unfold post_otp_request.
  destruct (o_bundleTx b) as [bundleTx|]; cbn [JS.truthy negb]; [|eauto].
  fold (nonempty bundleTx). destruct (nonempty bundleTx) eqn:E1; cbn [negb]; [|eauto].
  destruct (o_paymentTxSig b) as [h|]; cbn [JS.truthy negb]; [|eauto].
  fold (nonempty h). destruct (nonempty h) eqn:E2; cbn [negb]; [|eauto].
  right. exists bundleTx, h. auto.
Qed.

(** What a successful [/otp/request] leaves behind. *)
Lemma post_otp_request_consumes (chain : string -> rpc_result) (env : Env)
    (b : OtpRequestBody) (db : DB) :
  statusCode (out_value (serve chain env (PostOtpRequest b) db)) = 200 ->
  exists h p,
    o_paymentTxSig b = Some h /\ nonempty h = true
    /\ select_payment h db = Some p
    /\ select_payment h (out_db (serve chain env (PostOtpRequest b) db))
       = Some (Payments.set_consumed_at (Some (NOW env)) p)
    /\ Payments.purpose p = "otp_share" /\ Payments.status p = "confirmed".
Proof.
  destruct (post_otp_request_cases env b) as [[e He] | (bundleTx & h & Hbt & Hh & H)].
  - unfold serve. cbn [handle]. rewrite He. cbn. discriminate.
  - destruct H as (Hbt' & Hh').
    rewrite (serve_post_otp_request chain env b bundleTx h db) by assumption.
    destruct (lookup_repo_in _ _ _ db) as [repo|]; [|cbn; discriminate].
    rewrite otp_transaction_spec.
    destruct (lock_payment h "otp_share" db) as [e | [db' p]] eqn:Hlock;
      [cbn; discriminate|].
    apply lock_payment_ok in Hlock. destruct Hlock as (-> & Hsel & Hp & Hs & Hc).
    cbv zeta. destruct (existsb _ (otp_tokens db)); [cbn; discriminate|].
    cbn [out_value out_db]. intros _. exists h, p.
    repeat split; auto.
    unfold select_payment, update_payment_consumed.
    cbn [payments with_payments with_otp_tokens].
    rewrite find_update_where by reflexivity.
    fold (select_payment h db). rewrite Hsel. cbn [option_map].
    now rewrite String.eqb_refl.
Qed.

(** A consumed payment does not pass the lock. *)
Lemma lock_payment_consumed (h purpose : string) (db : DB) (p : Payments.row) (t : Z) :
  select_payment h db = Some p -> Payments.consumed_at p = Some t ->
  exists e, lock_payment h purpose db = inl e.
Proof.
  intros Hsel Hc. rewrite lock_payment_spec, Hsel, Hc. cbn [is_some].
  destruct (negb _); [eauto|]. destruct (negb _); eauto.
Qed.

Lemma truthy_Some (v : option string) :
  JS.truthy v = true -> exists s, v = Some s /\ nonempty s = true.
Proof. destruct v as [s|]; cbn; [eauto | discriminate]. Qed.

(** C1. A payment is consumed at most once.  (1) Once the consumed-at of
    the record under a transaction hash is set, it keeps that value
    whatever requests the server goes on to serve, in whatever
    interleaving. (2) While it is set, no [/repos] and no [/otp/request]
    call with that hash succeeds, and such a call leaves the store as it
    was. (3) After a [/repos] call has succeeded, any later [/repos] call
    with the same hash (and a name and an owner) fails with
    [payment_already_consumed], changes nothing, and the record still
    carries the consumed-at of the first call. (4) Likewise after an
    [/otp/request] call has succeeded, any later [/otp/request] call with
    the same hash (for a bundle and a repo that exists) fails with
    [payment_already_consumed] and changes nothing. *)
Theorem C1_payment_consumed_at_most_once :
  (forall (c c' : cluster) (h : string) (p : Payments.row) (t : Z),
      inv (store c) -> Forall residue (in_flight c) -> cluster_steps c c' ->
      select_payment h (store c) = Some p -> Payments.consumed_at p = Some t ->
      exists p', select_payment h (store c') = Some p'
                 /\ Payments.id p' = Payments.id p
                 /\ Payments.consumed_at p' = Some t)
  /\ (forall (chain : string -> rpc_result) (env : Env) (db : DB) (h : string)
             (p : Payments.row) (t : Z),
         select_payment h db = Some p -> Payments.consumed_at p = Some t ->
         (forall b, r_paymentTxSig b = Some h ->
                    statusCode (out_value (serve chain env (PostRepos b) db)) <> 200
                    /\ out_db (serve chain env (PostRepos b) db) = db)
         /\ (forall b, o_paymentTxSig b = Some h ->
                       statusCode (out_value (serve chain env (PostOtpRequest b) db)) <> 200
                       /\ out_db (serve chain env (PostOtpRequest b) db) = db))
  /\ (forall (chain chain' : string -> rpc_result) (env env' : Env)
             (b b' : ReposBody) (db : DB) (c c' : cluster),
         inv db ->
         statusCode (out_value (serve chain env (PostRepos b) db)) = 200 ->
         store c = out_db (serve chain env (PostRepos b) db) ->
         Forall residue (in_flight c) -> cluster_steps c c' ->
         r_paymentTxSig b' = r_paymentTxSig b ->
         JS.truthy (r_name b') = true -> JS.truthy (r_owner b') = true ->
         serve chain' env' (PostRepos b') (store c')
         = {| out_db := store c';
              out_value := fail_with 400 "repo_create_failed" "payment_already_consumed";
              out_rpc := [] |}
         /\ exists h p', r_paymentTxSig b = Some h
                         /\ select_payment h (store c') = Some p'
                         /\ Payments.consumed_at p' = Some (NOW env))
  /\ (forall (chain chain' : string -> rpc_result) (env env' : Env)
             (b b' : OtpRequestBody) (db : DB) (c c' : cluster),
         inv db ->
         statusCode (out_value (serve chain env (PostOtpRequest b) db)) = 200 ->
         store c = out_db (serve chain env (PostOtpRequest b) db) ->
         Forall residue (in_flight c) -> cluster_steps c c' ->
         o_paymentTxSig b' = o_paymentTxSig b ->
         JS.truthy (o_bundleTx b') = true ->
         lookup_repo_in (o_repoId b') (o_owner b') (o_name b') (store c') <> None ->
         serve chain' env' (PostOtpRequest b') (store c')
         = {| out_db := store c';
              out_value := fail_with 400 "otp_create_failed" "payment_already_consumed";
              out_rpc := [] |}
         /\ exists h p', o_paymentTxSig b = Some h
                         /\ select_payment h (store c') = Some p'
                         /\ Payments.consumed_at p' = Some (NOW env)).
Proof.
  assert (Hkey : forall h a b, payment_le a b ->
            String.eqb (Payments.tx_sig b) h = String.eqb (Payments.tx_sig a) h).
  { intros h a b (_ & -> & _). reflexivity. }
  assert (Hmono : forall (c c' : cluster) (h : string) (p : Payments.row),
      inv (store c) -> Forall residue (in_flight c) -> cluster_steps c c' ->
      select_payment h (store c) = Some p ->
      exists p', select_payment h (store c') = Some p' /\ payment_le p p').
  { intros c c' h p Hinv Hres Hsteps Hsel.
    destruct (cluster_steps_safe _ _ Hsteps Hinv Hres) as (_ & _ & Hle).
    destruct Hle as (Hg & _). unfold select_payment in *.
    eapply grows_find; eauto. }
  repeat apply conj.
  - intros c c' h p t Hinv Hres Hsteps Hsel Hc.
    destruct (Hmono c c' h p Hinv Hres Hsteps Hsel) as [p' [Hsel' Hle]].
    exists p'. destruct Hle as (Hid & _ & _ & _ & Hcons). auto.
  - intros chain env db h p t Hsel Hc. split.
    + intros b Hb.
      destruct (post_repos_cases env b) as [[e He] | (name & owner & h' & Hn & Ho & Hh & H)].
      * unfold serve. cbn [handle]. rewrite He. cbn. split; [discriminate | reflexivity].
      * destruct H as (Hn' & Ho' & Hh'). assert (h' = h) by congruence. subst h'.
        rewrite (serve_post_repos chain env b name owner h db) by assumption.
        rewrite repos_transaction_spec.
        destruct (lock_payment_consumed h "repo_init" db p t Hsel Hc) as [e ->].
        cbn. split; [discriminate | reflexivity].
    + intros b Hb.
      destruct (post_otp_request_cases env b) as [[e He] | (bundleTx & h' & Hbt & Hh & H)].
      * unfold serve. cbn [handle]. rewrite He. cbn. split; [discriminate | reflexivity].
      * destruct H as (Hbt' & Hh'). assert (h' = h) by congruence. subst h'.
        rewrite (serve_post_otp_request chain env b bundleTx h db) by assumption.
        destruct (lookup_repo_in _ _ _ db) as [repo|];
          [|cbn; split; [discriminate | reflexivity]].
        rewrite otp_transaction_spec.
        destruct (lock_payment_consumed h "otp_share" db p t Hsel Hc) as [e ->].
        cbn. split; [discriminate | reflexivity].
  - intros chain chain' env env' b b' db c c' Hinv Hok Hstore Hres Hsteps Hsame Hn Ho.
    destruct (post_repos_consumes chain env b db Hok)
      as (h & p & Hh & Hsel & Hnone & Hsel1 & Hpurp & Hstat).
    assert (Hinv1 : inv (store c)).
    { rewrite Hstore. apply serve_safe. assumption. }
    rewrite <- Hstore in Hsel1.
    destruct (Hmono c c' h _ Hinv1 Hres Hsteps Hsel1) as [p' [Hsel' Hle]].
    destruct Hle as (_ & _ & Hpurp' & Hstat' & Hcons').
    cbn in Hpurp', Hstat'. specialize (Hcons' (NOW env) eq_refl).
    specialize (Hstat' Hstat).
    destruct (truthy_Some _ Hn) as [name [Hname Hname']].
    destruct (truthy_Some _ Ho) as [owner [Howner Howner']].
    assert (Hh' : r_paymentTxSig b' = Some h) by congruence.
    assert (Hne : nonempty h = true).
    { destruct (post_repos_cases env b) as [[e He] | (n0 & o0 & h0 & _ & _ & Hh0 & _ & _ & E)].
      - unfold serve in Hok. cbn [handle] in Hok. rewrite He in Hok. discriminate.
      - congruence. }
    split; [|eauto].
    rewrite (serve_post_repos chain' env' b' name owner h (store c')) by assumption.
    rewrite repos_transaction_spec, lock_payment_spec, Hsel', Hpurp', Hpurp, Hstat', Hcons'.
    reflexivity.
  - intros chain chain' env env' b b' db c c' Hinv Hok Hstore Hres Hsteps Hsame Hbt Hrepo.
    destruct (post_otp_request_consumes chain env b db Hok)
      as (h & p & Hh & Hne & Hsel & Hsel1 & Hpurp & Hstat).
    assert (Hinv1 : inv (store c)).
    { rewrite Hstore. apply serve_safe. assumption. }
    rewrite <- Hstore in Hsel1.
    destruct (Hmono c c' h _ Hinv1 Hres Hsteps Hsel1) as [p' [Hsel' Hle]].
    destruct Hle as (_ & _ & Hpurp' & Hstat' & Hcons').
    cbn in Hpurp', Hstat'. specialize (Hcons' (NOW env) eq_refl).
    specialize (Hstat' Hstat).
    destruct (truthy_Some _ Hbt) as [bundleTx [Hbundle Hbundle']].
    assert (Hh' : o_paymentTxSig b' = Some h) by congruence.
    split; [|eauto].
    rewrite (serve_post_otp_request chain' env' b' bundleTx h (store c')) by assumption.
    destruct (lookup_repo_in _ _ _ (store c')) as [repo|]; [|congruence].
    rewrite otp_transaction_spec, lock_payment_spec, Hsel', Hpurp', Hpurp, Hstat', Hcons'.
    reflexivity.
Qed.

Lemma existsb_find {A : Type} (f : A -> bool) (l : list A) :
  existsb f l = is_some (find f l).
Proof.
  induction l as [|x l IH]; cbn; [reflexivity|].
  destruct (f x); [reflexivity | exact IH].
Qed.

(** C2. A failed resource creation burns no payment.  (1, 2) Whenever
    [/repos] or [/otp/request] answers anything but 200, the store is
    exactly as before: every write of the transaction is rolled back.
    (3) In particular, when the payment is confirmed, unconsumed and of
    the right purpose but a repo of that owner and name exists, [/repos]
    answers 400 [repo_create_failed], the store is as before and the
    payment's consumed-at is still null; the message is [repo_exists]
    whenever the store accepts the threshold as an INTEGER parameter (a
    threshold that is not a whole number is refused with the store's own
    message before the conflict is looked at).
    (4) In every store the server can reach, each consumed payment has its
    resource: a repo or a ticket carrying its transaction hash. *)
Theorem C2_failed_creation_rolls_back :
  (forall (chain : string -> rpc_result) (env : Env) (b : ReposBody) (db : DB),
      statusCode (out_value (serve chain env (PostRepos b) db)) <> 200 ->
      out_db (serve chain env (PostRepos b) db) = db)
  /\ (forall (chain : string -> rpc_result) (env : Env) (b : OtpRequestBody) (db : DB),
         statusCode (out_value (serve chain env (PostOtpRequest b) db)) <> 200 ->
         out_db (serve chain env (PostOtpRequest b) db) = db)
  /\ (forall (chain : string -> rpc_result) (env : Env) (b : ReposBody)
             (name owner h : string) (p : Payments.row) (existing : Repos.row) (db : DB),
         r_name b = Some name -> r_owner b = Some owner -> r_paymentTxSig b = Some h ->
         nonempty name = true -> nonempty owner = true -> nonempty h = true ->
         select_payment h db = Some p ->
         Payments.purpose p = "repo_init" -> Payments.status p = "confirmed" ->
         Payments.consumed_at p = None ->
         select_repo_by_owner_name (JS.trim owner) (JS.trim name) db = Some existing ->
         (exists m,
             serve chain env (PostRepos b) db
             = {| out_db := db;
                  out_value := fail_with 400 "repo_create_failed" m;
                  out_rpc := [] |})
         /\ (forall threshold,
                integer_or_null (computedThreshold (r_signers b) (r_threshold b))
                = inr threshold ->
                serve chain env (PostRepos b) db
                = {| out_db := db;
                     out_value := fail_with 400 "repo_create_failed" "repo_exists";
                     out_rpc := [] |})
         /\ option_map Payments.consumed_at
              (select_payment h (out_db (serve chain env (PostRepos b) db)))
            = Some None)
  /\ (forall (db : DB) (p : Payments.row),
         reachable db -> In p (payments db) -> Payments.consumed_at p <> None ->
         resource_of db (Payments.tx_sig p)).
Proof.
  repeat apply conj.
  - intros chain env b db Hfail.
    destruct (post_repos_cases env b) as [[e He] | (name & owner & h & Hn & Ho & Hh & H)].
    + unfold serve. cbn [handle]. rewrite He. reflexivity.
    + destruct H as (Hn' & Ho' & Hh').
      rewrite (serve_post_repos chain env b name owner h db) in * by assumption.
      destruct (repos_transaction env name owner b h db) as [e | [db' row]];
        [reflexivity|].
      cbn in Hfail. congruence.
  - intros chain env b db Hfail.
    destruct (post_otp_request_cases env b) as [[e He] | (bundleTx & h & Hbt & Hh & H)].
    + unfold serve. cbn [handle]. rewrite He. reflexivity.
    + destruct H as (Hbt' & Hh').
      rewrite (serve_post_otp_request chain env b bundleTx h db) in * by assumption.
      destruct (lookup_repo_in _ _ _ db) as [repo|]; [|reflexivity].
      destruct (otp_transaction env repo bundleTx h b db) as [e | [db' issued]];
        [reflexivity|].
      cbn in Hfail. congruence.
  - intros chain env b name owner h p existing db Hn Ho Hh Hn' Ho' Hh'
      Hsel Hpurp Hstat Hnone Hrepo.
    rewrite (serve_post_repos chain env b name owner h db) by assumption.
    rewrite repos_transaction_spec, lock_payment_spec, Hsel, Hpurp, Hstat, Hnone.
    rewrite !String.eqb_refl. cbn [negb is_some].
    assert (Htaken : forall t,
              repo_owner_name_taken (new_repo_row env name owner b h t) db = true).
    { intros t. unfold repo_owner_name_taken. rewrite existsb_find.
      unfold select_repo_by_owner_name in Hrepo. cbn [new_repo_row Repos.owner Repos.name].
      now rewrite Hrepo. }
    destruct (integer_or_null _) as [e|t] eqn:Ht; cbv zeta; rewrite ?Htaken;
      cbn [out_db]; rewrite Hsel; cbn [option_map]; rewrite Hnone.
    + split; [eauto|]. split; [discriminate | reflexivity].
    + split; [eauto|]. split; [reflexivity | reflexivity].
  - intros db p Hreach Hin Hc.
    destruct (reachable_inv db Hreach) as [_ Hb]. exact (Hb p Hin Hc).
Qed.

(* ================================================================== *)
(** * Tickets *)
(* ================================================================== *)

Lemma update_where_none {A : Type} (cond : A -> bool) (f : A -> A) (l : list A) :
  (forall x, In x l -> cond x = false) -> update_where cond f l = l.
Proof.
  intros H. unfold update_where. induction l as [|x l IH]; cbn; [reflexivity|].
  rewrite (H x) by now left. f_equal. apply IH. intros y Hy. apply H. now right.
Qed.

Lemma count_where_none {A : Type} (cond : A -> bool) (l : list A) :
  (forall x, In x l -> cond x = false) -> count_where cond l = 0.
Proof.
  intros H. unfold count_where. induction l as [|x l IH]; cbn; [reflexivity|].
  rewrite (H x) by now left. apply IH. intros y Hy. apply H. now right.
Qed.

Lemma count_where_some {A : Type} (cond : A -> bool) (l : list A) (x : A) :
  In x l -> cond x = true -> 0 < count_where cond l.
Proof.
  intros Hin Hc. unfold count_where.
  assert (Hf : In x (filter cond l)) by (apply filter_In; auto).
  destruct (filter cond l); [contradiction | cbn; lia].
Qed.

Lemma with_otp_tokens_same (db : DB) : with_otp_tokens (otp_tokens db) db = db.
Proof. now destruct db. Qed.

(** A redemption whose lookup saw a fresh ticket: it succeeds when the
    ticket is still unused at the time of the update. *)
Lemma redeem_fresh (chain : string -> rpc_result) (env : Env) (row : OtpTokens.row)
    (db : DB) :
  OtpTokens.used_at row = None -> expired env row = false -> In row (otp_tokens db) ->
  run chain (redeem_after_select env (Some row)) db
  = {| out_db := fst (update_otp_used (OtpTokens.id row) (NOW env) db);
       out_value := ok (RedeemJson (OtpTokens.repo_id row) (OtpTokens.bundle_tx row)
                          (OtpTokens.decrypt_key row));
       out_rpc := [] |}.
Proof.
  intros Hu He Hin. unfold redeem_after_select. rewrite Hu. cbn [is_some].
  fold (expired env row). rewrite He. cbn [run update_otp_used].
  assert (H : 0 < count_where (otp_unused_with_id (OtpTokens.id row)) (otp_tokens db)).
  { apply count_where_some with (x := row); [assumption|].
    unfold otp_unused_with_id. now rewrite String.eqb_refl, Hu. }
  destruct (Z.eqb_spec (count_where (otp_unused_with_id (OtpTokens.id row))
                          (otp_tokens db)) 0) as [E|E]; [lia | reflexivity].
Qed.

(** A redemption whose lookup saw a fresh ticket, but whose update finds
    every row of that id used: it loses. *)
Lemma redeem_lost (chain : string -> rpc_result) (env : Env) (row : OtpTokens.row)
    (db : DB) :
  OtpTokens.used_at row = None -> expired env row = false ->
  (forall r, In r (otp_tokens db) -> OtpTokens.id r = OtpTokens.id row ->
             OtpTokens.used_at r <> None) ->
  run chain (redeem_after_select env (Some row)) db
  = {| out_db := db; out_value := fail 410 "otp_already_used"; out_rpc := [] |}.
Proof.
  intros Hu He Hall. unfold redeem_after_select. rewrite Hu. cbn [is_some].
  fold (expired env row). rewrite He. cbn [run update_otp_used].
  assert (Hnone : forall r, In r (otp_tokens db) ->
                    otp_unused_with_id (OtpTokens.id row) r = false).
  { intros r Hr. unfold otp_unused_with_id.
    destruct (String.eqb_spec (OtpTokens.id r) (OtpTokens.id row)) as [E|E];
      [|reflexivity].
    specialize (Hall r Hr E). destruct (OtpTokens.used_at r); [reflexivity | congruence]. }
  rewrite count_where_none, update_where_none by assumption.
  now rewrite with_otp_tokens_same.
Qed.

Lemma used_after_update (id : string) (now : Z) (db : DB) (r : OtpTokens.row) :
  In r (otp_tokens (fst (update_otp_used id now db))) -> OtpTokens.id r = id ->
  OtpTokens.used_at r <> None.
Proof.
  unfold update_otp_used. cbn [fst otp_tokens with_otp_tokens]. intros Hin Hid.
  apply update_where_In in Hin. destruct Hin as [x [Hx ->]].
  unfold otp_unused_with_id in *.
  destruct (String.eqb (OtpTokens.id x) id) eqn:E1; cbn [andb] in *.
  - destruct (OtpTokens.used_at x) eqn:E2; cbn; congruence.
  - apply String.eqb_neq in E1. congruence.
Qed.

Lemma serve_post_otp_redeem (chain : string -> rpc_result) (env : Env)
    (b : OtpRedeemBody) (otp : string) (db : DB) :
  d_otp b = Some otp -> nonempty otp = true ->
  serve chain env (PostOtpRedeem b) db
  = run chain (redeem_after_select env (select_otp_token otp db)) db.
Proof.
  intros Hb Hne. unfold serve. cbn [handle]. unfold post_otp_redeem.
  rewrite Hb, Hne. reflexivity.
Qed.

(** C7. [/otp/redeem] answers [otp_not_found] when no ticket has the
    token, [otp_already_used] when the ticket's used-at is set,
    [otp_expired] when the ticket is unused and its expiry lies before the
    current time, and otherwise succeeds with the ticket's repo id, bundle
    reference and key, setting used-at (1).  Success hangs on the
    conditional update: a call that saw the ticket unused but whose update
    finds it used answers [otp_already_used], as happens to the second of
    two calls that both read the ticket before either wrote (2).  After a
    success every later call for that token answers [otp_already_used],
    whatever the server served in between (3). *)
Theorem C7_redeem_once :
  (forall (chain : string -> rpc_result) (env : Env) (b : OtpRedeemBody)
          (otp : string) (db : DB),
      d_otp b = Some otp -> nonempty otp = true ->
      let o := serve chain env (PostOtpRedeem b) db in
      match select_otp_token otp db with
      | None => o = {| out_db := db; out_value := fail 404 "otp_not_found";
                       out_rpc := [] |}
      | Some row =>
          match OtpTokens.used_at row with
          | Some _ => o = {| out_db := db; out_value := fail 410 "otp_already_used";
                             out_rpc := [] |}
          | None =>
              if expired env row
              then o = {| out_db := db; out_value := fail 410 "otp_expired";
                          out_rpc := [] |}
              else out_value o = ok (RedeemJson (OtpTokens.repo_id row)
                                       (OtpTokens.bundle_tx row)
                                       (OtpTokens.decrypt_key row))
                   /\ out_db o = fst (update_otp_used (OtpTokens.id row) (NOW env) db)
                   /\ option_map OtpTokens.used_at (select_otp_token otp (out_db o))
                      = Some (Some (NOW env))
          end
      end)
  /\ (forall (chain : string -> rpc_result) (envA envB : Env) (otp : string)
             (row : OtpTokens.row) (db : DB),
         select_otp_token otp db = Some row ->
         OtpTokens.used_at row = None ->
         expired envA row = false -> expired envB row = false ->
         let first := run chain (redeem_after_select envA (Some row)) db in
         let second := run chain (redeem_after_select envB (Some row)) (out_db first) in
         statusCode (out_value first) = 200
         /\ second = {| out_db := out_db first;
                        out_value := fail 410 "otp_already_used"; out_rpc := [] |})
  /\ (forall (chain chain' : string -> rpc_result) (env env' : Env)
             (b b' : OtpRedeemBody) (db : DB) (c c' : cluster),
         inv db ->
         statusCode (out_value (serve chain env (PostOtpRedeem b) db)) = 200 ->
         store c = out_db (serve chain env (PostOtpRedeem b) db) ->
         Forall residue (in_flight c) -> cluster_steps c c' ->
         d_otp b' = d_otp b ->
         serve chain' env' (PostOtpRedeem b') (store c')
         = {| out_db := store c'; out_value := fail 410 "otp_already_used";
              out_rpc := [] |}).
Proof.
  assert (Hfirst : forall chain env otp row db,
    select_otp_token otp db = Some row -> OtpTokens.used_at row = None ->
    expired env row = false ->
    run chain (redeem_after_select env (Some row)) db
    = {| out_db := fst (update_otp_used (OtpTokens.id row) (NOW env) db);
         out_value := ok (RedeemJson (OtpTokens.repo_id row) (OtpTokens.bundle_tx row)
                            (OtpTokens.decrypt_key row));
         out_rpc := [] |}
    /\ select_otp_token otp (fst (update_otp_used (OtpTokens.id row) (NOW env) db))
       = Some (OtpTokens.set_used_at (Some (NOW env)) row)).
  { intros chain env otp row db Hsel Hu He.
    pose proof Hsel as Hfind. unfold select_otp_token in Hfind.
    apply find_some in Hfind. destruct Hfind as [Hin _].
    split; [now apply redeem_fresh|].
    unfold select_otp_token, update_otp_used. cbn [fst otp_tokens with_otp_tokens].
    rewrite find_update_where by reflexivity.
    fold (select_otp_token otp db). rewrite Hsel. cbn [option_map].
    unfold otp_unused_with_id. now rewrite String.eqb_refl, Hu. }
  repeat apply conj.
  - intros chain env b otp db Hb Hne o. subst o.
    rewrite (serve_post_otp_redeem chain env b otp db Hb Hne).
    destruct (select_otp_token otp db) as [row|] eqn:Hsel; [|reflexivity].
    destruct (OtpTokens.used_at row) as [t|] eqn:Hu.
    { unfold redeem_after_select. rewrite Hu. reflexivity. }
    destruct (expired env row) eqn:He.
    { unfold redeem_after_select. rewrite Hu. cbn [is_some].
      fold (expired env row). rewrite He. reflexivity. }
    destruct (Hfirst chain env otp row db Hsel Hu He) as [-> Hsel'].
    cbn [out_value out_db]. rewrite Hsel'. auto.
  - intros chain envA envB otp row db Hsel Hu HeA HeB first second.
    subst first second.
    destruct (Hfirst chain envA otp row db Hsel Hu HeA) as [-> _].
    cbn [out_value out_db statusCode ok]. split; [reflexivity|].
    apply redeem_lost; auto.
    intros r Hr Hid. eapply used_after_update; eauto.
  - intros chain chain' env env' b b' db c c' Hinv Hok Hstore Hres Hsteps Hsame.
    destruct (d_otp b) as [otp|] eqn:Hb;
      [|unfold serve in Hok; cbn [handle] in Hok; unfold post_otp_redeem in Hok;
        rewrite Hb in Hok; discriminate].
    destruct (nonempty otp) eqn:Hne;
      [|unfold serve in Hok; cbn [handle] in Hok; unfold post_otp_redeem in Hok;
        rewrite Hb, Hne in Hok; discriminate].
    rewrite (serve_post_otp_redeem chain env b otp db Hb Hne) in Hok, Hstore.
    assert (Hinv1 : inv (store c)).
    { rewrite Hstore. apply run_safe; [apply safe_redeem_after_select | assumption]. }
    destruct (select_otp_token otp db) as [row|] eqn:Hsel; [|discriminate].
    destruct (OtpTokens.used_at row) as [t|] eqn:Hu.
    { unfold redeem_after_select in Hok. rewrite Hu in Hok. discriminate. }
    destruct (expired env row) eqn:He.
    { unfold redeem_after_select in Hok. rewrite Hu in Hok. cbn [is_some] in Hok.
      fold (expired env row) in Hok. rewrite He in Hok. discriminate. }
    destruct (Hfirst chain env otp row db Hsel Hu He) as [Hrun Hsel'].
    rewrite Hrun in Hstore. cbn [out_db] in Hstore. rewrite <- Hstore in Hsel'.
    destruct (cluster_steps_safe _ _ Hsteps Hinv1 Hres) as (_ & _ & Hle).
    destruct Hle as (_ & _ & Hg & _).
    unfold select_otp_token in Hsel'.
    eapply grows_find in Hsel'; [| |exact Hg].
    2:{ intros x y (_ & -> & _). reflexivity. }
    destruct Hsel' as [row' [Hsel'' Hle]].
    destruct Hle as (_ & _ & _ & Hused). specialize (Hused (NOW env) eq_refl).
    rewrite (serve_post_otp_redeem chain' env' b' otp (store c')) by congruence.
    unfold select_otp_token. rewrite Hsel''. unfold redeem_after_select.
    rewrite Hused. reflexivity.
Qed.

(* ================================================================== *)
(** * Approvals *)
(* ================================================================== *)

Lemma lookup_repo_in_eq (repoId owner name : option string) (db : DB) :
  lookup_repo_in repoId owner name db =
  let by_name :=
    match owner, name with
    | Some o, Some n =>
        if negb (nonempty o) || negb (nonempty n) then None
        else select_repo_by_owner_name o n db
    | _, _ => None
    end in
  match repoId with
  | Some id => if nonempty id then select_repo_by_id id db else by_name
  | None => by_name
  end.
Proof.
  unfold lookup_repo_in, lookup_repo, getRepoByOwnerAndName.
  destruct repoId as [id|]; [destruct (nonempty id)|];
    try reflexivity;
    destruct owner as [o|]; try reflexivity;
    destruct name as [n|]; try reflexivity;
    destruct (negb (nonempty o) || negb (nonempty n)); reflexivity.
Qed.

(** A repo that a lookup found is found again later, as it has become. *)
Lemma lookup_repo_in_grows (repoId owner name : option string) (db db' : DB)
    (repo : Repos.row) :
  db_le db db' -> lookup_repo_in repoId owner name db = Some repo ->
  exists repo', lookup_repo_in repoId owner name db' = Some repo' /\ repo_le repo repo'.
Proof.
  intros (_ & Hg & _). rewrite !lookup_repo_in_eq. cbv zeta.
  assert (Hid : forall id, select_repo_by_id id db = Some repo ->
            exists repo', select_repo_by_id id db' = Some repo' /\ repo_le repo repo').
  { intros id. unfold select_repo_by_id. apply grows_find; [|assumption].
    intros x y (-> & _). reflexivity. }
  assert (Hon : forall o n, select_repo_by_owner_name o n db = Some repo ->
            exists repo', select_repo_by_owner_name o n db' = Some repo'
                          /\ repo_le repo repo').
  { intros o n. unfold select_repo_by_owner_name. apply grows_find; [|assumption].
    intros x y (_ & -> & -> & _). reflexivity. }
  destruct repoId as [id|]; [destruct (nonempty id); [apply Hid|]|];
    (destruct owner as [o|]; [|discriminate];
     destruct name as [n|]; [|discriminate];
     destruct (negb (nonempty o) || negb (nonempty n)); [discriminate | apply Hon]).
Qed.

Lemma verifyApprovalSignature_fields (txId signer signatureB64 : string) :
  verifyApprovalSignature txId signer signatureB64 = None ->
  nonempty txId = true /\ nonempty signer = true /\ nonempty signatureB64 = true.
Proof.
  unfold verifyApprovalSignature.
  destruct (nonempty txId), (nonempty signer), (nonempty signatureB64);
    cbn; auto; discriminate.
Qed.

(** The answer of [/multisig/approve] to a well-formed request, by what
    the lookup finds. *)
Lemma serve_approve (chain : string -> rpc_result) (env : Env)
    (repoId owner name : option string) (txId signer signatureB64 : string) (db : DB) :
  nonempty txId = true -> nonempty signer = true -> nonempty signatureB64 = true ->
  serve chain env (approve_request repoId owner name txId signer signatureB64) db =
  match lookup_repo_in repoId owner name db with
  | None => {| out_db := db; out_value := fail 404 "repo_not_multisig"; out_rpc := [] |}
  | Some repo =>
      if negb (Repos.is_multisig repo)
      then {| out_db := db; out_value := fail 404 "repo_not_multisig"; out_rpc := [] |}
      else if negb (JS.includes (Repos.signers repo) signer)
      then {| out_db := db; out_value := fail 403 "signer_not_authorized"; out_rpc := [] |}
      else
        match verifyApprovalSignature txId signer signatureB64 with
        | Some e => {| out_db := db; out_value := fail_with 400 "signature_invalid" e;
                       out_rpc := [] |}
        | None =>
            match approve_transaction env repo txId signer signatureB64 db with
            | inl e => {| out_db := db;
                          out_value := fail_with 400 "multisig_approval_failed" e;
                          out_rpc := [] |}
            | inr (db', approval) =>
                {| out_db := db'; out_value := ok approval; out_rpc := [] |}
            end
        end
  end.
Proof.
  intros H1 H2 H3. unfold serve, approve_request. cbn [handle].
  unfold post_multisig_approve.
  cbn [a_txId a_signer a_signatureB64 a_repoId a_owner a_name JS.truthy].
  fold (nonempty txId) (nonempty signer) (nonempty signatureB64).
  rewrite H1, H2, H3. cbn [negb]. rewrite run_bind, run_lookup_repo.
  cbn [out_db out_value out_rpc app].
  destruct (lookup_repo_in repoId owner name db) as [repo|]; [|reflexivity].
  destruct (negb (Repos.is_multisig repo)); [reflexivity|].
  destruct (negb (JS.includes (Repos.signers repo) signer)); [reflexivity|].
  destruct (verifyApprovalSignature txId signer signatureB64); [reflexivity|].
  cbn [run]. unfold transaction.
  destruct (approve_transaction env repo txId signer signatureB64 db) as [e | [db' a]];
    reflexivity.
Qed.

(** What a stored approval leaves behind. *)
Lemma record_approval_db (env : Env) (push : MultisigPushes.row)
    (sig : MultisigSignatures.row) (db : DB) :
  let db' := fst (record_approval env push sig db) in
  payments db' = payments db /\ repos db' = repos db
  /\ otp_tokens db' = otp_tokens db
  /\ multisig_signatures db' = (multisig_signatures db ++ [sig])%list
  /\ multisig_pushes db'
     = update_where (fun r => String.eqb (MultisigPushes.id r) (MultisigPushes.id push))
         (if (MultisigPushes.approvals_required push
              <=? count_multisig_signatures (MultisigPushes.id push)
                    (with_multisig_signatures (multisig_signatures db ++ [sig]) db))
             && negb (String.eqb (MultisigPushes.status push) "approved")
          then MultisigPushes.set_approved
                 (count_multisig_signatures (MultisigPushes.id push)
                    (with_multisig_signatures (multisig_signatures db ++ [sig]) db))
                 (NOW env)
          else MultisigPushes.set_approvals_count
                 (count_multisig_signatures (MultisigPushes.id push)
                    (with_multisig_signatures (multisig_signatures db ++ [sig]) db)))
         (multisig_pushes db).
Proof.
  unfold record_approval. cbv zeta. destruct (_ && _); cbn; auto 10.
Qed.

Lemma lookup_repo_in_same_repos (repoId owner name : option string) (db db' : DB) :
  repos db' = repos db ->
  lookup_repo_in repoId owner name db' = lookup_repo_in repoId owner name db.
Proof.
  intros H. rewrite !lookup_repo_in_eq.
  unfold select_repo_by_id, select_repo_by_owner_name. now rewrite H.
Qed.

Lemma count_signatures_app (pushId : string) (db : DB) (sig : MultisigSignatures.row) :
  MultisigSignatures.multisig_push_id sig = pushId ->
  count_multisig_signatures pushId
    (with_multisig_signatures (multisig_signatures db ++ [sig]) db)
  = count_multisig_signatures pushId db + 1.
Proof.
  intros H. unfold count_multisig_signatures, count_where.
  cbn [multisig_signatures with_multisig_signatures].
  rewrite filter_app, length_app. cbn [filter]. rewrite H, String.eqb_refl.
  cbn [List.length]. lia.
Qed.

Lemma distinct_app_head (l r : list string) (x : string) :
  distinct (l ++ x :: r) = true ->
  JS.includes l x = false /\ distinct ((l ++ [x]) ++ r) = true.
Proof.
  intros H. split.
  - apply distinct_NoDup in H. apply NoDup_remove_2 in H.
    destruct (JS.includes l x) eqn:E; [|reflexivity].
    apply includes_In in E. exfalso. apply H. apply in_or_app. now left.
  - now rewrite <- app_assoc.
Qed.

Lemma same_signature_includes (pushId signer : string) (db : DB) :
  existsb (same_signature pushId signer) (multisig_signatures db)
  = JS.includes (map MultisigSignatures.signer (signatures_of pushId db)) signer.
Proof.
  unfold signatures_of, JS.includes.
  induction (multisig_signatures db) as [|x l IH]; cbn; [reflexivity|].
  unfold same_signature at 1.
  destruct (String.eqb (MultisigSignatures.multisig_push_id x) pushId); cbn.
  - rewrite IH. f_equal. apply String.eqb_sym.
  - exact IH.
Qed.

Lemma signatures_of_app (pushId : string) (db : DB) (sig : MultisigSignatures.row) :
  MultisigSignatures.multisig_push_id sig = pushId ->
  signatures_of pushId (with_multisig_signatures (multisig_signatures db ++ [sig]) db)
  = (signatures_of pushId db ++ [sig])%list.
Proof.
  intros H. unfold signatures_of. cbn [multisig_signatures with_multisig_signatures].
  rewrite filter_app. cbn [filter]. now rewrite H, String.eqb_refl.
Qed.

(** One approval by an authorized signer who has not signed yet, with a
    valid signature: the row goes in, the count is the number of rows, and
    the request is approved from the moment the count reaches [k]. *)
Lemma approve_step (chain : string -> rpc_result) (env : Env)
    (repoId owner name : option string) (txId signer signatureB64 : string)
    (db : DB) (repo : Repos.row) (push : MultisigPushes.row) (k : Z) :
  lookup_repo_in repoId owner name db = Some repo ->
  Repos.is_multisig repo = true ->
  JS.includes (Repos.signers repo) signer = true ->
  verifyApprovalSignature txId signer signatureB64 = None ->
  select_multisig_push (Repos.id repo) txId db = Some push ->
  MultisigPushes.approvals_required push = k ->
  let pid := MultisigPushes.id push in
  let j := count_multisig_signatures pid db in
  MultisigPushes.status push = (if k <=? j then "approved" else "pending") ->
  JS.includes (map MultisigSignatures.id (multisig_signatures db)) (randomUUID_1 env)
  = false ->
  JS.includes (map MultisigSignatures.signer (signatures_of pid db)) signer = false ->
  let o := serve chain env (approve_request repoId owner name txId signer signatureB64) db in
  let sig := new_signature_row env pid signer signatureB64 in
  out_value o
  = ok (ApprovalJson (if k <=? j + 1 then "approved" else "pending") (j + 1) k)
  /\ out_db o = fst (record_approval env push sig db)
  /\ exists push1,
      select_multisig_push (Repos.id repo) txId (out_db o) = Some push1
      /\ MultisigPushes.id push1 = pid
      /\ MultisigPushes.approvals_required push1 = k
      /\ MultisigPushes.approvals_count push1 = j + 1
      /\ MultisigPushes.status push1 = (if k <=? j + 1 then "approved" else "pending")
      /\ ((k <=? j) = false -> (k <=? j + 1) = true ->
          MultisigPushes.approved_at push1 = Some (NOW env))
      /\ ((k <=? j) = true \/ (k <=? j + 1) = false ->
          MultisigPushes.approved_at push1 = MultisigPushes.approved_at push).
Proof.
  intros Hrepo Hms Hauth Hsig Hpush Hk pid j Hstatus Hfresh Hnew o sig. subst o.
  destruct (verifyApprovalSignature_fields _ _ _ Hsig) as (F1 & F2 & F3).
  rewrite (serve_approve chain env repoId owner name txId signer signatureB64 db F1 F2 F3).
  rewrite Hrepo, Hms, Hauth, Hsig. cbn [negb].
  rewrite approve_transaction_spec, Hpush. cbv zeta.
  fold pid. fold sig.
  assert (Hins : insert_multisig_signature sig db
                 = inr (with_multisig_signatures (multisig_signatures db ++ [sig]) db)).
  { unfold insert_multisig_signature.
    rewrite (existsb_key_includes MultisigSignatures.id).
    cbn [sig new_signature_row MultisigSignatures.id
         MultisigSignatures.multisig_push_id MultisigSignatures.signer].
    rewrite Hfresh, same_signature_includes, Hnew. reflexivity. }
  rewrite Hins.
  assert (Hcount : count_multisig_signatures pid
            (with_multisig_signatures (multisig_signatures db ++ [sig]) db) = j + 1).
  { apply count_signatures_app. reflexivity. }
  assert (Hfind : forall f, (forall x, same_push (Repos.id repo) txId (f x)
                                       = same_push (Repos.id repo) txId x) ->
            find (same_push (Repos.id repo) txId)
              (update_where (fun r => String.eqb (MultisigPushes.id r) pid) f
                 (multisig_pushes db)) = Some (f push)).
  { intros f Hf. rewrite find_update_where by exact Hf.
    fold (select_multisig_push (Repos.id repo) txId db). rewrite Hpush.
    cbn [option_map]. unfold pid. now rewrite String.eqb_refl. }
  unfold record_approval. cbv zeta. fold pid. rewrite Hcount, Hk, Hstatus.
  destruct (k <=? j) eqn:Ej; rewrite ?Ej in Hstatus.
  - assert (Ej1 : (k <=? j + 1) = true) by (apply Z.leb_le; apply Z.leb_le in Ej; lia).
    rewrite Ej1, String.eqb_refl. cbn [negb andb fst out_value out_db].
    split; [reflexivity|]. split; [reflexivity|].
    eexists. split.
    + unfold select_multisig_push, update_multisig_push_count.
      cbn [multisig_pushes with_multisig_pushes with_multisig_signatures].
      apply Hfind. reflexivity.
    + cbn. rewrite Hk, Hstatus. repeat split; auto; discriminate.
  - change (negb (String.eqb "pending" "approved")) with true. rewrite andb_true_r.
    destruct (k <=? j + 1) eqn:Ej1; cbn [fst out_value out_db].
    + split; [reflexivity|]. split; [reflexivity|].
      eexists. split.
      * unfold select_multisig_push, update_multisig_push_approved.
        cbn [multisig_pushes with_multisig_pushes with_multisig_signatures].
        apply Hfind. reflexivity.
      * cbn. rewrite Hk. repeat split; auto.
        intros [H | H]; discriminate.
    + split; [reflexivity|]. split; [reflexivity|].
      eexists. split.
      * unfold select_multisig_push, update_multisig_push_count.
        cbn [multisig_pushes with_multisig_pushes with_multisig_signatures].
        apply Hfind. reflexivity.
      * cbn. rewrite Hk, Hstatus. repeat split; auto; discriminate.
Qed.

(** The approvals of [subs] on a request that already holds [j] rows. *)
Lemma approvals_run (chain : string -> rpc_result)
    (repoId owner name : option string) (txId : string) (repo : Repos.row) (k : Z)
    (subs : list submission) :
  forall (db : DB) (push : MultisigPushes.row),
  lookup_repo_in repoId owner name db = Some repo ->
  Repos.is_multisig repo = true ->
  select_multisig_push (Repos.id repo) txId db = Some push ->
  MultisigPushes.approvals_required push = k ->
  let pid := MultisigPushes.id push in
  let j := count_multisig_signatures pid db in
  let n := Z.of_nat (List.length subs) in
  MultisigPushes.status push = (if k <=? j then "approved" else "pending") ->
  Forall (fun s => JS.includes (Repos.signers repo) (sub_signer s) = true
                   /\ verifyApprovalSignature txId (sub_signer s) (sub_signature s) = None)
         subs ->
  distinct (map MultisigSignatures.signer (signatures_of pid db)
            ++ map sub_signer subs) = true ->
  distinct (map MultisigSignatures.id (multisig_signatures db)
            ++ map (fun s => randomUUID_1 (sub_env s)) subs) = true ->
  let db' := serve_all chain (approvals repoId owner name txId subs) db in
  exists push',
    select_multisig_push (Repos.id repo) txId db' = Some push'
    /\ MultisigPushes.id push' = pid
    /\ MultisigPushes.approvals_required push' = k
    /\ count_multisig_signatures pid db' = j + n
    /\ MultisigPushes.status push' = (if k <=? j + n then "approved" else "pending")
    /\ (subs <> [] -> MultisigPushes.approvals_count push' = j + n)
    /\ ((k <=? j) = false -> (k <=? j + n) = true ->
        MultisigPushes.approved_at push' <> None)
    /\ ((k <=? j) = true \/ (k <=? j + n) = false ->
        MultisigPushes.approved_at push' = MultisigPushes.approved_at push).
Proof.
  induction subs as [|s subs IH]; intros db push Hrepo Hms Hpush Hk pid j n Hstatus
    Hsubs Hsigners Hids db'.
  - subst db' n. cbn [approvals map serve_all List.length Z.of_nat].
    rewrite Z.add_0_r. exists push. fold pid. fold j.
    repeat split; auto; congruence.
  - apply Forall_cons_iff in Hsubs. destruct Hsubs as [[Hauth Hsig] Hsubs'].
    cbn [map] in Hsigners, Hids.
    apply distinct_app_head in Hsigners. destruct Hsigners as [Hnew Hsigners].
    apply distinct_app_head in Hids. destruct Hids as [Hfresh Hids].
    pose proof (approve_step chain (sub_env s) repoId owner name txId (sub_signer s)
                  (sub_signature s) db repo push k Hrepo Hms Hauth Hsig Hpush Hk)
      as Hstep.
    cbv zeta in Hstep. fold pid in Hstep. fold j in Hstep.
    specialize (Hstep Hstatus Hfresh Hnew).
    destruct Hstep as (_ & Hdb & push1 & Hpush1 & Hid1 & Hk1 & Hc1 & Hs1 & Ha1 & Ha1').
    set (db1 := out_db (serve chain (sub_env s)
                  (approve_request repoId owner name txId (sub_signer s)
                     (sub_signature s)) db)) in *.
    destruct (record_approval_db (sub_env s) push
                (new_signature_row (sub_env s) pid (sub_signer s) (sub_signature s)) db)
      as (_ & Hrepos & _ & Hsigs & _).
    rewrite <- Hdb in Hrepos, Hsigs.
    assert (Hcount1 : count_multisig_signatures pid db1 = j + 1).
    { unfold count_multisig_signatures, count_where. rewrite Hsigs.
      rewrite filter_app, length_app. cbn [filter new_signature_row
        MultisigSignatures.multisig_push_id]. rewrite String.eqb_refl.
      cbn [List.length]. unfold j, count_multisig_signatures, count_where. lia. }
    assert (Hsigs1 : signatures_of pid db1
              = (signatures_of pid db
                 ++ [new_signature_row (sub_env s) pid (sub_signer s) (sub_signature s)])%list).
    { unfold signatures_of. rewrite Hsigs, filter_app.
      cbn [filter new_signature_row MultisigSignatures.multisig_push_id].
      now rewrite String.eqb_refl. }
    specialize (IH db1 push1).
    rewrite (lookup_repo_in_same_repos repoId owner name db db1 Hrepos) in IH.
    specialize (IH Hrepo Hms Hpush1 Hk1). cbv zeta in IH.
    rewrite Hid1, Hcount1 in IH.
    assert (Hsigners1 : distinct (map MultisigSignatures.signer (signatures_of pid db1)
                                  ++ map sub_signer subs) = true).
    { rewrite Hsigs1, map_app. exact Hsigners. }
    assert (Hids1 : distinct (map MultisigSignatures.id (multisig_signatures db1)
                              ++ map (fun s => randomUUID_1 (sub_env s)) subs) = true).
    { rewrite Hsigs, map_app. exact Hids. }
    specialize (IH Hs1 Hsubs' Hsigners1 Hids1).
    destruct IH as (push' & Hsel & Hid' & Hk' & Hc' & Hs' & Hcnt' & Hat' & Hat'').
    subst db' n. cbn [approvals map serve_all]. fold db1.
    fold (approvals repoId owner name txId subs).
    replace (j + Z.of_nat (List.length (s :: subs)))
      with (j + 1 + Z.of_nat (List.length subs)) by (cbn [List.length]; lia).
    exists push'. repeat split; auto.
    + intros _. destruct subs as [|s' subs'].
      * cbn [approvals map serve_all] in Hsel. rewrite Hpush1 in Hsel.
        inversion Hsel; subst push'. cbn [List.length Z.of_nat]. lia.
      * apply Hcnt'. discriminate.
    + intros Ej En. destruct (k <=? j + 1) eqn:Ej1.
      * rewrite Hat'' by now left. rewrite (Ha1 Ej eq_refl). discriminate.
      * apply Hat'; auto.
    + intros [Ej | En].
      * rewrite Hat''.
        -- apply Ha1'. now left.
        -- left. apply Z.leb_le. apply Z.leb_le in Ej. lia.
      * rewrite Hat'' by now right. apply Ha1'. right.
        apply Z.leb_gt in En. apply Z.leb_gt. lia.
Qed.

Lemma distinct_Permutation (l l' : list string) :
  Permutation l l' -> distinct l = true -> distinct l' = true.
Proof.
  intros Hp Hd. apply distinct_NoDup. apply distinct_NoDup in Hd.
  eapply Permutation_NoDup; eassumption.
Qed.

(** C5. Take an approval request that is pending, requires [k >= 1]
    approvals and has no signature stored, and let distinct authorized
    signers each submit one valid signature, in any order.  Then the
    number of stored signature rows is the number [n] of submissions; the
    request is still pending (approved-at untouched) while [n < k] and is
    approved, with approved-at stamped, once [n >= k]; the stored count is
    the number of rows; and any other order of the same submissions ends
    in the same status. *)
Theorem C5_quorum
    (chain : string -> rpc_result) (repoId owner name : option string) (txId : string)
    (repo : Repos.row) (push : MultisigPushes.row) (subs : list submission) (db : DB) :
  lookup_repo_in repoId owner name db = Some repo ->
  Repos.is_multisig repo = true ->
  select_multisig_push (Repos.id repo) txId db = Some push ->
  MultisigPushes.status push = "pending" ->
  1 <= MultisigPushes.approvals_required push ->
  signatures_of (MultisigPushes.id push) db = [] ->
  Forall (fun s => JS.includes (Repos.signers repo) (sub_signer s) = true
                   /\ verifyApprovalSignature txId (sub_signer s) (sub_signature s) = None)
         subs ->
  distinct (map sub_signer subs) = true ->
  distinct (map MultisigSignatures.id (multisig_signatures db)
            ++ map (fun s => randomUUID_1 (sub_env s)) subs) = true ->
  let k := MultisigPushes.approvals_required push in
  let n := Z.of_nat (List.length subs) in
  let after := fun order =>
    select_multisig_push (Repos.id repo) txId
      (serve_all chain (approvals repoId owner name txId order) db) in
  exists push',
    after subs = Some push'
    /\ MultisigPushes.approvals_required push' = k
    /\ count_multisig_signatures (MultisigPushes.id push)
         (serve_all chain (approvals repoId owner name txId subs) db) = n
    /\ (subs <> [] -> MultisigPushes.approvals_count push' = n)
    /\ (n < k -> MultisigPushes.status push' = "pending"
                 /\ MultisigPushes.approved_at push' = MultisigPushes.approved_at push)
    /\ (k <= n -> MultisigPushes.status push' = "approved"
                  /\ MultisigPushes.approved_at push' <> None)
    /\ (forall order, Permutation subs order ->
          exists push'', after order = Some push''
                         /\ MultisigPushes.status push'' = MultisigPushes.status push').
Proof.
  intros Hrepo Hms Hpush Hpending Hk Hnone Hsubs Hsigners Hids k n after.
  assert (Hj : count_multisig_signatures (MultisigPushes.id push) db = 0).
  { unfold count_multisig_signatures, count_where. fold (signatures_of (MultisigPushes.id push) db).
    now rewrite Hnone. }
  assert (Hk0 : (k <=? 0) = false) by (apply Z.leb_gt; unfold k; lia).
  assert (Hrun : forall order, Permutation subs order ->
    exists p, after order = Some p
      /\ MultisigPushes.approvals_required p = k
      /\ count_multisig_signatures (MultisigPushes.id push)
           (serve_all chain (approvals repoId owner name txId order) db) = n
      /\ MultisigPushes.status p = (if k <=? n then "approved" else "pending")
      /\ (order <> [] -> MultisigPushes.approvals_count p = n)
      /\ ((k <=? n) = true -> MultisigPushes.approved_at p <> None)
      /\ ((k <=? n) = false ->
          MultisigPushes.approved_at p = MultisigPushes.approved_at push)).
  { intros order Hperm.
    destruct (approvals_run chain repoId owner name txId repo k order db push
                Hrepo Hms Hpush eq_refl) as (p & H1 & H2 & H3 & H4 & H5 & H6 & H7 & H8).
    - rewrite Hj, Hk0. exact Hpending.
    - eapply Permutation_Forall; eassumption.
    - rewrite Hnone. cbn [map app].
      eapply distinct_Permutation; [|exact Hsigners]. now apply Permutation_map.
    - eapply distinct_Permutation; [|exact Hids].
      apply Permutation_app_head. now apply Permutation_map.
    - rewrite Hj in *. cbn [Z.add] in *.
      assert (Hlen : Z.of_nat (List.length order) = n).
      { unfold n. f_equal. symmetry. now apply Permutation_length. }
      rewrite Hlen in *. exists p. repeat split; auto. }
  destruct (Hrun subs (Permutation_refl subs))
    as (push' & H1 & H2 & H3 & H4 & H5 & H6 & H7).
  exists push'. repeat split; auto.
  - rewrite H4. destruct (Z.leb_spec k n); [lia | reflexivity].
  - apply H7. apply Z.leb_gt. lia.
  - rewrite H4. destruct (Z.leb_spec k n); [reflexivity | lia].
  - apply H6. apply Z.leb_le. lia.
  - intros order Hperm.
    destruct (Hrun order Hperm) as (p & K1 & _ & _ & K4 & _).
    exists p. split; [assumption | congruence].
Qed.

(** What a successful [/multisig/approve] went through. *)
Lemma approve_ok_inv (chain : string -> rpc_result) (env : Env)
    (repoId owner name : option string) (txId signer signatureB64 : string) (db : DB) :
  statusCode (out_value
    (serve chain env (approve_request repoId owner name txId signer signatureB64) db))
  = 200 ->
  exists repo push,
    lookup_repo_in repoId owner name db = Some repo
    /\ Repos.is_multisig repo = true
    /\ select_multisig_push (Repos.id repo) txId db = Some push
    /\ out_db (serve chain env
                 (approve_request repoId owner name txId signer signatureB64) db)
       = fst (record_approval env push
                (new_signature_row env (MultisigPushes.id push) signer signatureB64) db).
Proof.
  intros Hok.
  assert (F : nonempty txId = true /\ nonempty signer = true
              /\ nonempty signatureB64 = true).
  { unfold serve, approve_request in Hok. cbn [handle] in Hok.
    unfold post_multisig_approve in Hok.
    cbn [a_txId a_signer a_signatureB64 JS.truthy] in Hok.
    fold (nonempty txId) (nonempty signer) (nonempty signatureB64) in Hok.
    destruct (nonempty txId); [|discriminate].
    destruct (nonempty signer); [|discriminate].
    destruct (nonempty signatureB64); [|discriminate]. auto. }
  destruct F as (F1 & F2 & F3).
  rewrite (serve_approve chain env repoId owner name txId signer signatureB64 db F1 F2 F3)
    in *.
  destruct (lookup_repo_in repoId owner name db) as [repo|] eqn:Hrepo; [|discriminate].
  destruct (Repos.is_multisig repo) eqn:Hms; [|discriminate]. cbn [negb] in *.
  destruct (JS.includes (Repos.signers repo) signer); [|discriminate]. cbn [negb] in *.
  destruct (verifyApprovalSignature txId signer signatureB64); [discriminate|].
  rewrite approve_transaction_spec in *.
  destruct (select_multisig_push (Repos.id repo) txId db) as [push|] eqn:Hpush;
    [|discriminate].
  cbv zeta in *.
  destruct (insert_multisig_signature _ db) as [e|db1].
  { destruct (String.eqb (code e) "23505"); discriminate. }
  exists repo, push. repeat split; auto.
  destruct (record_approval env push _ db). reflexivity.
Qed.

(** C6. After a signer's approval of a subject was stored, any later
    approval by that signer for that subject (valid signature, signer
    still authorized), whatever the server served in between, fails with
    [signature_already_submitted] and leaves the store, hence the stored
    signatures, the approval count and the status, as they were.  The
    error is the unique violation (code 23505) that the insertion of the
    signature row raises. *)
Theorem C6_second_approval_rejected
    (chain chain' : string -> rpc_result) (env env' : Env)
    (repoId owner name : option string) (txId signer sig sig' : string)
    (db : DB) (c c' : cluster) :
  inv db ->
  statusCode (out_value
    (serve chain env (approve_request repoId owner name txId signer sig) db)) = 200 ->
  store c = out_db (serve chain env (approve_request repoId owner name txId signer sig) db) ->
  Forall residue (in_flight c) -> cluster_steps c c' ->
  verifyApprovalSignature txId signer sig' = None ->
  (forall repo', lookup_repo_in repoId owner name (store c') = Some repo' ->
                 JS.includes (Repos.signers repo') signer = true) ->
  let o := serve chain' env' (approve_request repoId owner name txId signer sig') (store c') in
  o = {| out_db := store c';
         out_value := fail_with 400 "multisig_approval_failed"
                        "signature_already_submitted";
         out_rpc := [] |}
  /\ exists repo' push' e,
       lookup_repo_in repoId owner name (store c') = Some repo'
       /\ select_multisig_push (Repos.id repo') txId (store c') = Some push'
       /\ insert_multisig_signature
            (new_signature_row env' (MultisigPushes.id push') signer sig') (store c')
          = inl e
       /\ code e = "23505"
       /\ select_multisig_push (Repos.id repo') txId (out_db o) = Some push'
       /\ count_multisig_signatures (MultisigPushes.id push') (out_db o)
          = count_multisig_signatures (MultisigPushes.id push') (store c').
Proof.
  intros Hinv Hok Hstore Hres Hsteps Hsig' Hauth' o.
  destruct (approve_ok_inv chain env repoId owner name txId signer sig db Hok)
    as (repo & push & Hrepo & Hms & Hpush & Hdb).
  rewrite Hdb in Hstore.
  assert (Hinv1 : inv (store c)).
  { rewrite Hstore, <- Hdb. apply serve_safe. assumption. }
  set (row := new_signature_row env (MultisigPushes.id push) signer sig) in *.
  destruct (record_approval_db env push row db) as (_ & Hrepos & _ & Hsigs & Hpushes).
  cbv zeta in Hrepos, Hsigs, Hpushes. rewrite <- Hstore in Hrepos, Hsigs, Hpushes.
  (* the state right after the first approval *)
  assert (Hrepo1 : lookup_repo_in repoId owner name (store c) = Some repo).
  { now rewrite (lookup_repo_in_same_repos repoId owner name db (store c) Hrepos). }
  assert (Hpush1 : exists push1, select_multisig_push (Repos.id repo) txId (store c)
                                 = Some push1
                                 /\ MultisigPushes.id push1 = MultisigPushes.id push).
  { unfold select_multisig_push. rewrite Hpushes.
    rewrite find_update_where by (intros x; destruct (_ && _); reflexivity).
    fold (select_multisig_push (Repos.id repo) txId db). rewrite Hpush.
    cbn [option_map]. rewrite String.eqb_refl. eexists. split; [reflexivity|].
    destruct (_ && _); reflexivity. }
  destruct Hpush1 as (push1 & Hpush1 & Hid1).
  assert (Hrow1 : In row (multisig_signatures (store c))).
  { rewrite Hsigs. apply in_or_app. right. now left. }
  (* the state at the time of the second approval *)
  destruct (cluster_steps_safe _ _ Hsteps Hinv1 Hres) as (_ & _ & Hle).
  destruct (lookup_repo_in_grows _ _ _ _ _ _ Hle Hrepo1) as (repo' & Hrepo' & Hrle).
  destruct Hrle as (Hrid & _ & _ & Hms' & _). specialize (Hms' Hms).
  destruct Hle as (_ & _ & _ & Hgp & Hgs).
  unfold select_multisig_push in Hpush1.
  eapply grows_find in Hpush1; [| |exact Hgp].
  2:{ intros x y (_ & Hr & Hp & _). unfold same_push. now rewrite Hr, Hp. }
  destruct Hpush1 as (push' & Hpush' & Hple). destruct Hple as (Hid' & _).
  destruct (grows_In _ _ _ _ Hgs Hrow1) as (row' & Hrow' & <-).
  assert (Hdup : existsb (same_signature (MultisigPushes.id push') signer)
                   (multisig_signatures (store c')) = true).
  { apply existsb_exists. exists row. split; [assumption|].
    unfold same_signature, row. cbn [new_signature_row
      MultisigSignatures.multisig_push_id MultisigSignatures.signer].
    rewrite Hid', Hid1, !String.eqb_refl. reflexivity. }
  assert (Hins : exists e,
             insert_multisig_signature
               (new_signature_row env' (MultisigPushes.id push') signer sig') (store c')
             = inl e /\ code e = "23505").
  { unfold insert_multisig_signature.
    cbn [new_signature_row MultisigSignatures.id MultisigSignatures.multisig_push_id
         MultisigSignatures.signer].
    rewrite Hdup.
    destruct (existsb (fun r => String.eqb (MultisigSignatures.id r) (randomUUID_1 env'))
                (multisig_signatures (store c')));
      eexists; split; reflexivity. }
  destruct Hins as (e & Hins & Hcode).
  destruct (verifyApprovalSignature_fields _ _ _ Hsig') as (F1 & F2 & F3).
  assert (Ho : o = {| out_db := store c';
                      out_value := fail_with 400 "multisig_approval_failed"
                                     "signature_already_submitted";
                      out_rpc := [] |}).
  { subst o.
    rewrite (serve_approve chain' env' repoId owner name txId signer sig' (store c')
               F1 F2 F3).
    rewrite Hrepo', Hms', (Hauth' repo' Hrepo'), Hsig'. cbn [negb].
    rewrite approve_transaction_spec. rewrite Hrid.
    unfold select_multisig_push. rewrite Hpush'. cbv zeta.
    rewrite Hins, Hcode. reflexivity. }
  split; [exact Ho|].
  exists repo', push', e. rewrite Ho. cbn [out_db].
  rewrite Hrid. unfold select_multisig_push. rewrite Hpush'. auto 10.
Qed.

(* ================================================================== *)
(** * Racing verifications *)
(* ================================================================== *)

(** The first step of a well-formed [/payments/verify] is its lookup. *)
Lemma advance_verify (chain : string -> rpc_result) (env : Env) (b : VerifyBody)
    (txSig : string) (db : DB) :
  v_txSig b = Some txSig -> nonempty txSig = true -> env_configured cfg = true ->
  nonempty (match v_purpose b with Some p => p | None => "repo_init" end) = true ->
  advance chain (handle env (PostPaymentsVerify b)) db
  = (db, verify_after_select env b txSig
           (match v_purpose b with Some p => p | None => "repo_init" end)
           (select_payment txSig db)).
Proof.
  intros Htx Hne Hcfg Hpurp. cbn [handle]. unfold post_payments_verify. cbv zeta.
  rewrite Htx, Hne, Hpurp, Hcfg. reflexivity.
Qed.

Lemma insert_payment_duplicate (id txSig : string) (payer : option string)
    (purpose : string) (amount : Z) (repoName : option string)
    (metadata : Payments.Metadata) (now : Z) (db : DB) (row : Payments.row) :
  select_payment txSig db = Some row ->
  exists e, insert_payment id txSig payer purpose amount repoName metadata now db = inl e
            /\ (code e = "23505" \/ code e = "23502")
            /\ (payer <> None ->
                JS.includes (map Payments.id (payments db)) id = false ->
                e = unique_violation "payments_tx_sig_key").
Proof.
  intros Hsel. unfold insert_payment.
  destruct payer as [payer|]; [|eexists; split; [reflexivity|]; split; [auto | congruence]].
  rewrite (existsb_key_includes Payments.id).
  destruct (JS.includes (map Payments.id (payments db)) id).
  - eexists. split; [reflexivity|]. split; [auto | congruence].
  - rewrite existsb_find. fold (select_payment txSig db). rewrite Hsel. cbn [is_some].
    eexists. split; [reflexivity|]. split; auto.
Qed.

(** C4 (as the code has it). A [/payments/verify] call whose lookup found
    no record, and whose insert comes after another caller has inserted
    the same transaction hash, does not re-read the row: its insert raises
    a constraint violation (the unique violation on the hash when a payer
    was given and the id is fresh), the call answers 400
    [payment_verification_failed] with the store's message, and the store
    is left as the winner made it.  A repeated call for the same purpose
    then finds the row and returns it as reused. *)
Theorem C4_losing_verifier_fails
    (chain : string -> rpc_result) (env : Env) (b : VerifyBody) (txSig : string)
    (tx : option Solana.TxResponse) (info : ChainInfo) (row : Payments.row)
    (db0 db : DB) :
  v_txSig b = Some txSig -> nonempty txSig = true -> env_configured cfg = true ->
  nonempty (match v_purpose b with Some p => p | None => "repo_init" end) = true ->
  chain txSig = inr tx -> verifyTokenPayment_check cfg tx = inr info ->
  MIN_PAYMENT_ATOMIC cfg <= amountAtomic info ->
  select_payment txSig db0 = None ->
  select_payment txSig db = Some row ->
  let purpose := match v_purpose b with Some p => p | None => "repo_init" end in
  let loser := snd (advance chain (handle env (PostPaymentsVerify b)) db0) in
  let o := run chain loser db in
  fst (advance chain (handle env (PostPaymentsVerify b)) db0) = db0
  /\ out_db o = db
  /\ (exists e,
         out_value o = fail_with 400 "payment_verification_failed" (pg_message e)
         /\ (code e = "23505" \/ code e = "23502")
         /\ (JS.truthy (v_payer b) = true ->
             JS.includes (map Payments.id (payments db)) (randomUUID_1 env) = false ->
             e = unique_violation "payments_tx_sig_key"))
  /\ (Payments.purpose row = purpose ->
      out_value (serve chain env (PostPaymentsVerify b) db)
      = ok (PaymentJson (Payments.set_status "confirmed" row) true)).
Proof.
  intros Htx Hne Hcfg Hpurp Hchain Hcheck Hmin Hnone Hsel purpose loser o.
  subst loser o. rewrite (advance_verify chain env b txSig db0 Htx Hne Hcfg Hpurp).
  cbn [fst snd]. rewrite Hnone. fold purpose. fold purpose in Hpurp.
  split; [reflexivity|].
  unfold verify_after_select. rewrite run_bind.
  unfold verifyTokenPayment. rewrite Hcfg. cbn [negb run out_db out_value out_rpc].
  rewrite Hchain. cbn [run out_db out_value out_rpc]. rewrite Hcheck.
  destruct (Z.ltb_spec (amountAtomic info) (MIN_PAYMENT_ATOMIC cfg)) as [Hlt|_]; [lia|].
  cbn [run attempt].
  destruct (insert_payment_duplicate (randomUUID_1 env) txSig (JS.or_null (v_payer b))
              purpose (amountAtomic info) (JS.or_null (v_repoName b))
              {| Payments.meta_decimals := chain_decimals info;
                 Payments.minTokens := PAYMENT_MIN_TOKENS cfg;
                 Payments.destination := PAYMENT_DESTINATION cfg;
                 Payments.meta_mint := PAYMENT_TOKEN_MINT cfg |}
              (NOW env) db row Hsel) as (e & Hins & Hcode & Hwhich).
  unfold attempt. rewrite Hins. cbn [run out_db out_value].
  split; [reflexivity|]. split.
  - exists e. split; [reflexivity|]. split; [assumption|].
    intros Hpayer Hfresh. apply Hwhich; [|assumption].
    unfold JS.or_null. rewrite Hpayer. destruct (v_payer b); [discriminate|].
    discriminate.
  - intros Hsame. unfold serve. cbn [handle]. unfold post_payments_verify. cbv zeta.
    rewrite Htx, Hne. fold purpose. rewrite Hpurp, Hcfg. cbn [negb run query].
    rewrite Hsel. unfold verify_after_select. rewrite Hsame, String.eqb_refl.
    cbn [negb].
    destruct (String.eqb (Payments.status row) "confirmed") eqn:E; cbn [negb run exec].
    + apply String.eqb_eq in E. cbn. now rewrite set_status_same.
    + reflexivity.
Qed.

(* ================================================================== *)
(** * Multisig setup and its payment *)
(* ================================================================== *)

Lemma leaves_payments_bind {A B : Type} (p : prog A) (f : A -> prog B) :
  leaves_payments p -> (forall a, leaves_payments (f a)) -> leaves_payments (bind p f).
Proof.
  intros Hp Hf. induction p as [a | R stmt k IH | txSig k IH]; cbn in *.
  - apply Hf.
  - destruct Hp as [Hs Hk]. split; [assumption|]. intros r. apply IH, Hk.
  - intros r. apply IH, Hp.
Qed.

Lemma run_leaves_payments {A : Type} (chain : string -> rpc_result) (p : prog A)
    (db : DB) :
  leaves_payments p -> payments (out_db (run chain p db)) = payments db.
Proof.
  revert db. induction p as [a | R stmt k IH | txSig k IH]; intros db Hp; cbn.
  - reflexivity.
  - destruct Hp as [Hs Hk]. specialize (Hs db).
    destruct (stmt db) as [db' r]. cbn in Hs. rewrite IH by apply Hk. exact Hs.
  - apply IH, Hp.
Qed.

(** Decomposes a goal of [leaves_payments] along the program. *)
Ltac payments_step :=
  match goal with
  | |- leaves_payments (Ret _) => exact I
  | |- leaves_payments (Sql _ _) => split; [intros ? | intros ?]
  | |- leaves_payments (GetTransaction _ _) => intros ?
  | |- leaves_payments (bind _ _) => apply leaves_payments_bind; [| intros ?]
  | |- leaves_payments (match ?x with _ => _ end) => destruct x
  | |- leaves_payments (if ?c then _ else _) => destruct c
  | |- payments (fst (query _ _)) = _ => reflexivity
  | |- payments (fst (exec _ _)) = _ => reflexivity
  | |- payments (fst (attempt _ _)) = _ => unfold attempt
  | |- payments (fst (attempt_ _ _)) = _ => unfold attempt_
  end.

Lemma leaves_payments_getRepoByOwnerAndName (owner name : option string) :
  leaves_payments (getRepoByOwnerAndName owner name).
Proof. unfold getRepoByOwnerAndName. repeat payments_step. Qed.

Lemma leaves_payments_ensureMultisigEntry (id : string) (now : Z)
    (repo : option Repos.row) (pushTx : string) (branch : option string) :
  leaves_payments (ensureMultisigEntry id now repo pushTx branch).
Proof.
  unfold ensureMultisigEntry. repeat payments_step.
  unfold with_integer, insert_multisig_push_on_conflict_do_nothing.
  destruct (pg_integer _); [reflexivity|].
  destruct (existsb _ _); [reflexivity|]. destruct (existsb _ _); reflexivity.
Qed.

Lemma leaves_payments_setup_finish (env : Env) (repo : option Repos.row)
    (pushTx : string) :
  leaves_payments (setup_finish env repo pushTx).
Proof.
  unfold setup_finish. repeat payments_step.
  apply leaves_payments_ensureMultisigEntry.
Qed.

(** [/multisig/setup] reads the payment and never writes to it. *)
Lemma leaves_payments_setup (env : Env) (b : SetupBody) :
  leaves_payments (post_multisig_setup env b).
Proof.
  unfold post_multisig_setup. cbv zeta.
  repeat (payments_step;
          auto using leaves_payments_getRepoByOwnerAndName, leaves_payments_setup_finish).
  all: unfold with_integer; destruct (pg_integer _); [reflexivity|]; try reflexivity.
  all: unfold insert_repo; destruct (repo_pkey_taken _ _); [reflexivity|];
    destruct (repo_owner_name_taken _ _); reflexivity.
Qed.

(** X7. [/multisig/setup] checks the purpose and the status of the payment but
    takes no part in its consumption: whatever the request and its
    outcome, the payments table is afterwards as it was before. *)
Lemma setup_leaves_payments
    (chain : string -> rpc_result) (env : Env) (b : SetupBody) (db : DB) :
  payments (out_db (serve chain env (PostMultisigSetup b) db)) = payments db
  /\ forall h, select_payment h (out_db (serve chain env (PostMultisigSetup b) db))
               = select_payment h db.
Proof.
  assert (H : payments (out_db (serve chain env (PostMultisigSetup b) db)) = payments db).
  { unfold serve. cbn [handle]. apply run_leaves_payments, leaves_payments_setup. }
  split; [exact H|]. intros h. unfold select_payment. now rewrite H.
Qed.

(* ================================================================== *)
(** * Further properties of the handlers *)
(* ================================================================== *)

Lemma find_app_right {A : Type} (key : A -> bool) (l ext : list A) :
  find key l = None -> find key (l ++ ext) = find key ext.
Proof.
  induction l as [|y l IH]; cbn; [reflexivity|].
  destruct (key y); [discriminate | exact IH].
Qed.

Lemma find_existsb_false {A : Type} (key : A -> bool) (l : list A) :
  existsb key l = false -> find key l = None.
Proof.
  rewrite existsb_find. destruct (find key l); [discriminate | reflexivity].
Qed.

(** ** Registering and looking up *)


(** ** Verifying afresh, then again *)

(** The record that a first verification inserts. *)
Lemma verify_fresh_row_eq (env : Env) (b : VerifyBody) (txSig purpose payer : string)
    (info : ChainInfo) (db : DB) :
  JS.or_null (v_payer b) = Some payer ->
  JS.includes (map Payments.id (payments db)) (randomUUID_1 env) = false ->
  select_payment txSig db = None ->
  insert_payment (randomUUID_1 env) txSig (JS.or_null (v_payer b)) purpose
    (amountAtomic info) (JS.or_null (v_repoName b))
    {| Payments.meta_decimals := chain_decimals info;
       Payments.minTokens := PAYMENT_MIN_TOKENS cfg;
       Payments.destination := PAYMENT_DESTINATION cfg;
       Payments.meta_mint := PAYMENT_TOKEN_MINT cfg |} (NOW env) db
  = inr (with_payments (payments db ++ [verified_row env b txSig purpose payer info]) db,
         verified_row env b txSig purpose payer info).
Proof.
  intros Hp Hid Hsel. unfold insert_payment. rewrite Hp.
  rewrite (existsb_key_includes Payments.id), Hid.
  rewrite existsb_find. fold (select_payment txSig db). rewrite Hsel. reflexivity.
Qed.

(** X2. A first verification of a transaction hash that the ledger confirms
    with a sufficient amount makes one ledger lookup, appends one
    confirmed, unconsumed record carrying the net amount, and answers with
    it.  Any repetition of the request afterwards makes no ledger lookup,
    leaves the store alone and answers with the same record, marked
    reused. *)
Theorem verify_then_replay
    (chain chain' : string -> rpc_result) (env env' : Env) (b : VerifyBody)
    (txSig payer : string) (tx : option Solana.TxResponse) (info : ChainInfo) (db : DB) :
  v_txSig b = Some txSig -> nonempty txSig = true -> env_configured cfg = true ->
  nonempty (match v_purpose b with Some p => p | None => "repo_init" end) = true ->
  JS.or_null (v_payer b) = Some payer ->
  JS.includes (map Payments.id (payments db)) (randomUUID_1 env) = false ->
  select_payment txSig db = None ->
  chain txSig = inr tx -> verifyTokenPayment_check cfg tx = inr info ->
  MIN_PAYMENT_ATOMIC cfg <= amountAtomic info ->
  let purpose := match v_purpose b with Some p => p | None => "repo_init" end in
  let row := verified_row env b txSig purpose payer info in
  let first := serve chain env (PostPaymentsVerify b) db in
  let again := serve chain' env' (PostPaymentsVerify b) (out_db first) in
  out_value first = ok (PaymentJson row false)
  /\ out_rpc first = [txSig]
  /\ out_db first = with_payments (payments db ++ [row]) db
  /\ Payments.status row = "confirmed" /\ Payments.consumed_at row = None
  /\ Payments.token_amount_atomic row = amountAtomic info
  /\ out_value again = ok (PaymentJson row true)
  /\ out_rpc again = []
  /\ out_db again = out_db first.
Proof.
  intros Htx Hne Hcfg Hpurp Hpayer Hid Hsel Hchain Hcheck Hmin purpose row first again.
  assert (Hfirst : first = {| out_db := with_payments (payments db ++ [row]) db;
                              out_value := ok (PaymentJson row false);
                              out_rpc := [txSig] |}).
  { subst first. unfold serve. cbn [handle]. unfold post_payments_verify. cbv zeta.
    rewrite Htx, Hne. fold purpose. fold purpose in Hpurp. rewrite Hpurp, Hcfg.
    cbn [negb run query]. rewrite Hsel. unfold verify_after_select.
    rewrite run_bind. unfold verifyTokenPayment. rewrite Hcfg.
    cbn [negb run out_db out_value out_rpc]. rewrite Hchain.
    cbn [run out_db out_value out_rpc]. rewrite Hcheck.
    destruct (Z.ltb_spec (amountAtomic info) (MIN_PAYMENT_ATOMIC cfg)) as [Hlt|_]; [lia|].
    cbn [run]. unfold attempt.
    rewrite (verify_fresh_row_eq env b txSig purpose payer info db Hpayer Hid Hsel).
    reflexivity. }
  subst again. rewrite Hfirst. cbn [out_db out_value out_rpc].
  repeat split; auto.
  all: unfold serve; cbn [handle]; unfold post_payments_verify; cbv zeta;
    rewrite Htx, Hne; fold purpose; fold purpose in Hpurp; rewrite Hpurp, Hcfg;
    cbn [negb run query]; unfold select_payment; cbn [payments with_payments];
    rewrite find_app_right by exact Hsel;
    cbn [find verified_row Payments.tx_sig]; rewrite String.eqb_refl;
    unfold verify_after_select; cbn [Payments.purpose Payments.status];
    rewrite !String.eqb_refl; reflexivity.
Qed.


(** ** Issuing a ticket, then redeeming it *)

Lemma count_where_zero {A : Type} (cond : A -> bool) (l : list A) :
  count_where cond l = 0 -> forall x, In x l -> cond x = false.
Proof.
  unfold count_where. intros H x Hin.
  destruct (cond x) eqn:E; [|reflexivity].
  assert (Hf : In x (filter cond l)) by (apply filter_In; auto).
  destruct (filter cond l); [contradiction | cbn in H; lia].
Qed.


(** ** Refusals that leave the store alone *)

Lemma post_multisig_approve_cases (env : Env) (b : ApproveBody) :
  (exists e, post_multisig_approve env b = Ret (fail 400 e))
  \/ (exists txId signer signatureB64,
         PostMultisigApprove b
         = approve_request (a_repoId b) (a_owner b) (a_name b) txId signer signatureB64
         /\ nonempty txId = true /\ nonempty signer = true
         /\ nonempty signatureB64 = true).
Proof.
  unfold post_multisig_approve, approve_request. destruct b as [rid o n t s g]. cbn.
  destruct t as [t|]; cbn [JS.truthy negb]; [|eauto].
  fold (nonempty t). destruct (nonempty t) eqn:E1; cbn [negb]; [|eauto].
  destruct s as [s|]; cbn [JS.truthy negb]; [|eauto].
  fold (nonempty s). destruct (nonempty s) eqn:E2; cbn [negb]; [|eauto].
  destruct g as [g|]; cbn [JS.truthy negb]; [|eauto].
  fold (nonempty g). destruct (nonempty g) eqn:E3; cbn [negb]; [|eauto].
  right. exists t, s, g. auto.
Qed.

(** X4. A [/payments/verify], [/otp/redeem] or [/multisig/approve] that
    answers with anything but 200 leaves every table as it found it. *)
Theorem refusal_leaves_store
    (chain : string -> rpc_result) (env : Env) (req : request) (db : DB) :
  match req with
  | PostPaymentsVerify _ | PostOtpRedeem _ | PostMultisigApprove _ => True
  | _ => False
  end ->
  statusCode (out_value (serve chain env req db)) <> 200 ->
  out_db (serve chain env req db) = db.
Proof.
  destruct req as [b|b|b|b|b|b|b]; try contradiction; intros _.
  - (* /payments/verify *)
    unfold serve. cbn [handle]. unfold post_payments_verify. cbv zeta.
    destruct (v_txSig b) as [txSig|]; [|reflexivity].
    destruct (nonempty txSig); cbn [negb]; [|reflexivity].
    destruct (nonempty _); cbn [negb]; [|reflexivity].
    destruct (env_configured cfg) eqn:Hcfg; cbn [negb]; [|reflexivity].
    cbn [run query]. unfold verify_after_select.
    destruct (select_payment txSig db) as [row|].
    + destruct (String.eqb (Payments.purpose row) _); cbn [negb]; [|reflexivity].
      destruct (String.eqb (Payments.status row) "confirmed"); cbn [negb run];
        [reflexivity|].
      cbn. congruence.
    + rewrite run_bind. unfold verifyTokenPayment. rewrite Hcfg.
      cbn [negb run out_db out_value out_rpc].
      destruct (chain txSig) as [e|t]; cbn [run out_db out_value]; [reflexivity|].
      destruct (verifyTokenPayment_check cfg t) as [e|info]; cbn [run out_db];
        [reflexivity|].
      destruct (amountAtomic info <? MIN_PAYMENT_ATOMIC cfg); cbn [run out_db];
        [reflexivity|].
      unfold attempt. destruct (insert_payment _ _ _ _ _ _ _ _ db) as [e|[db' r]];
        cbn [run out_db out_value]; [reflexivity|].
      cbn. congruence.
  - (* /otp/redeem *)
    unfold serve. cbn [handle]. unfold post_otp_redeem.
    destruct (d_otp b) as [otp|]; [|reflexivity].
    destruct (nonempty otp); cbn [negb]; [|reflexivity].
    cbn [run query]. unfold redeem_after_select.
    destruct (select_otp_token otp db) as [row|]; [|reflexivity].
    destruct (is_some (OtpTokens.used_at row)); [reflexivity|].
    destruct (expired env row); [reflexivity|].
    cbn [run update_otp_used].
    destruct (Z.eqb_spec (count_where (otp_unused_with_id (OtpTokens.id row))
                            (otp_tokens db)) 0) as [Hz|Hz]; cbn [run out_db out_value].
    + intros _. rewrite update_where_none by (apply count_where_zero; exact Hz).
      apply with_otp_tokens_same.
    + cbn. congruence.
  - (* /multisig/approve *)
    destruct (post_multisig_approve_cases env b)
      as [[e He] | (txId & signer & sg & Hreq & H1 & H2 & H3)].
    { unfold serve. cbn [handle]. rewrite He. reflexivity. }
    rewrite Hreq, serve_approve by assumption.
    destruct (lookup_repo_in _ _ _ db) as [repo|]; [|reflexivity].
    destruct (Repos.is_multisig repo); cbn [negb]; [|reflexivity].
    destruct (JS.includes _ _); cbn [negb]; [|reflexivity].
    destruct (verifyApprovalSignature _ _ _); [reflexivity|].
    destruct (approve_transaction _ _ _ _ _ db) as [e|[db' a]]; [reflexivity|].
    cbn. congruence.
Qed.


(** ** Approval requests *)

Lemma run_ensureMultisigEntry (chain : string -> rpc_result) (id : string) (now : Z)
    (repo : option Repos.row) (pushTx : string) (branch : option string) (db : DB) :
  run chain (ensureMultisigEntry id now repo pushTx branch) db =
  match tracked repo with
  | None => {| out_db := db; out_value := inr None; out_rpc := [] |}
  | Some (r, t) =>
      match select_multisig_push (Repos.id r) pushTx db with
      | Some e => {| out_db := db; out_value := inr (Some e); out_rpc := [] |}
      | None =>
          if JS.includes (map MultisigPushes.id (multisig_pushes db)) id
          then {| out_db := db;
                  out_value := inl (pg_message (unique_violation "multisig_pushes_pkey"));
                  out_rpc := [] |}
          else
            let row := new_push_row id (Repos.id r) pushTx (JS.or_null branch) t now in
            {| out_db := with_multisig_pushes (multisig_pushes db ++ [row]) db;
               out_value := inr (Some row); out_rpc := [] |}
      end
  end.
Proof.
  unfold ensureMultisigEntry, tracked. destruct repo as [r|]; [|reflexivity].
  destruct (Repos.is_multisig r); cbn [negb]; [|reflexivity].
  rewrite calcThreshold_of_Z.
  destruct (effective_threshold _ _) as [t|]; cbn [option_map]; [|reflexivity].
  rewrite number_truthy_of_Z, negb_involutive.
  destruct (t =? 0); [reflexivity|].
  cbn [run]. unfold attempt_, with_integer. rewrite pg_integer_of_Z.
  unfold insert_multisig_push_on_conflict_do_nothing, query.
  rewrite existsb_find. fold (select_multisig_push (Repos.id r) pushTx db).
  destruct (select_multisig_push (Repos.id r) pushTx db) as [e|] eqn:Hsel.
  - cbn [is_some run]. rewrite Hsel. reflexivity.
  - cbn [is_some]. rewrite (existsb_key_includes MultisigPushes.id).
    destruct (JS.includes _ id); cbn [run]; [reflexivity|].
    unfold select_multisig_push. cbn [multisig_pushes with_multisig_pushes].
    rewrite find_app_right by exact Hsel. cbn [find same_push].
    fold (new_push_row id (Repos.id r) pushTx (JS.or_null branch) t now).
    unfold same_push.
    cbn [new_push_row MultisigPushes.repo_id MultisigPushes.push_tx].
    rewrite !String.eqb_refl. reflexivity.
Qed.

(** X5. [ensureMultisigEntry] keeps the first approval request of a push.
    The entry it returns is for the repo and push asked about.  When the
    push was already tracked it is the stored entry and nothing is
    written; when it was not, it is a new pending entry with no approvals
    whose requirement is the repo's effective threshold, appended to the
    table.  A later call for the same push returns the same entry and
    writes nothing, whatever identifier, time and branch it brings and
    whatever signers and threshold the repo then has. *)
Theorem ensureMultisigEntry_first_wins
    (chain chain' : string -> rpc_result) (id id' : string) (now now' : Z)
    (repo repo' : Repos.row) (pushTx : string) (branch branch' : option string)
    (db : DB) (entry : MultisigPushes.row) :
  out_value (run chain (ensureMultisigEntry id now (Some repo) pushTx branch) db)
  = inr (Some entry) ->
  let db' := out_db (run chain (ensureMultisigEntry id now (Some repo) pushTx branch) db) in
  MultisigPushes.repo_id entry = Repos.id repo
  /\ MultisigPushes.push_tx entry = pushTx
  /\ select_multisig_push (Repos.id repo) pushTx db' = Some entry
  /\ (forall e, select_multisig_push (Repos.id repo) pushTx db = Some e ->
                entry = e /\ db' = db)
  /\ (select_multisig_push (Repos.id repo) pushTx db = None ->
      MultisigPushes.status entry = "pending"
      /\ MultisigPushes.approvals_count entry = 0
      /\ MultisigPushes.approved_at entry = None
      /\ calcThreshold (Repos.signers repo) (option_map JS.of_Z (Repos.threshold repo))
         = Some (JS.of_Z (MultisigPushes.approvals_required entry))
      /\ multisig_pushes db' = (multisig_pushes db ++ [entry])%list)
  /\ (Repos.id repo' = Repos.id repo -> tracked (Some repo') <> None ->
      run chain' (ensureMultisigEntry id' now' (Some repo') pushTx branch') db'
      = {| out_db := db'; out_value := inr (Some entry); out_rpc := [] |}).
Proof.
  clear cfg Buffer_from_base64 PublicKey_toBytes nacl_sign_detached_verify.
  rewrite run_ensureMultisigEntry. intros Hv db'.
  assert (Hagain : select_multisig_push (Repos.id repo) pushTx db' = Some entry ->
            Repos.id repo' = Repos.id repo -> tracked (Some repo') <> None ->
            run chain' (ensureMultisigEntry id' now' (Some repo') pushTx branch') db'
            = {| out_db := db'; out_value := inr (Some entry); out_rpc := [] |}).
  { intros Hsel Hid Htr. rewrite run_ensureMultisigEntry.
    destruct (tracked (Some repo')) as [[r t]|] eqn:Ht; [|congruence].
    assert (r = repo').
    { unfold tracked in Ht. destruct (negb (Repos.is_multisig repo')); [discriminate|].
      destruct (effective_threshold _ _); [|discriminate].
      destruct (_ =? 0); congruence. }
    subst r. rewrite Hid, Hsel. reflexivity. }
  destruct (tracked (Some repo)) as [[r t]|] eqn:Ht; [|discriminate].
  assert (r = repo /\ calcThreshold (Repos.signers repo)
                        (option_map JS.of_Z (Repos.threshold repo)) = Some (JS.of_Z t))
    as [-> Hcalc].
  { unfold tracked in Ht. destruct (negb (Repos.is_multisig repo)); [discriminate|].
    rewrite calcThreshold_of_Z.
    destruct (effective_threshold _ _); [|discriminate].
    destruct (_ =? 0); [discriminate|]. split; cbn; congruence. }
  destruct (select_multisig_push (Repos.id repo) pushTx db) as [e|] eqn:Hsel.
  - cbn [out_value out_db] in *. injection Hv as ->.
    assert (Hin : same_push (Repos.id repo) pushTx entry = true).
    { unfold select_multisig_push in Hsel. apply find_some in Hsel. tauto. }
    unfold same_push in Hin. apply andb_prop in Hin. destruct Hin as [H1 H2].
    apply String.eqb_eq in H1, H2.
    repeat split; auto; try discriminate; try (now intros e0 [= <-]); try congruence.
  - destruct (JS.includes _ id); [discriminate|].
    cbv zeta in *. cbn [out_value out_db] in *. injection Hv as <-.
    assert (Hsel' : select_multisig_push (Repos.id repo) pushTx db'
                    = Some (new_push_row id (Repos.id repo) pushTx (JS.or_null branch) t now)).
    { subst db'. unfold select_multisig_push. cbn [multisig_pushes with_multisig_pushes].
      rewrite find_app_right by exact Hsel. cbn [find]. unfold same_push.
      cbn [new_push_row MultisigPushes.repo_id MultisigPushes.push_tx].
      now rewrite !String.eqb_refl. }
    repeat split; auto; try discriminate.
Qed.


Lemma run_ensure_rpc (chain : string -> rpc_result) (id : string) (now : Z)
    (repo : option Repos.row) (pushTx : string) (branch : option string) (db : DB) :
  let o := run chain (ensureMultisigEntry id now repo pushTx branch) db in
  out_rpc o = [] /\ payments (out_db o) = payments db /\ repos (out_db o) = repos db
  /\ pushes (out_db o) = pushes db /\ otp_tokens (out_db o) = otp_tokens db
  /\ multisig_signatures (out_db o) = multisig_signatures db.
Proof.
  cbv zeta. rewrite run_ensureMultisigEntry.
  destruct (tracked repo) as [[r t]|]; [|cbn; auto 10].
  destruct (select_multisig_push _ _ db); [cbn; auto 10|].
  destruct (JS.includes _ id); cbn; auto 10.
Qed.

Lemma run_ensure_again (chain chain' : string -> rpc_result) (id id' : string)
    (now now' : Z) (repo : option Repos.row) (pushTx : string)
    (branch branch' : option string) (db : DB) (entry : option MultisigPushes.row) :
  let o := run chain (ensureMultisigEntry id now repo pushTx branch) db in
  out_value o = inr entry ->
  run chain' (ensureMultisigEntry id' now' repo pushTx branch') (out_db o)
  = {| out_db := out_db o; out_value := inr entry; out_rpc := [] |}.
Proof.
  cbv zeta. rewrite !run_ensureMultisigEntry.
  destruct (tracked repo) as [[r t]|]; [|cbn; congruence].
  destruct (select_multisig_push (Repos.id r) pushTx db) as [e|] eqn:Hsel.
  - cbn [out_db out_value]. rewrite Hsel. congruence.
  - destruct (JS.includes _ id); [discriminate|].
    cbv zeta. cbn [out_db out_value]. intros [= <-].
    unfold select_multisig_push. cbn [multisig_pushes with_multisig_pushes].
    rewrite find_app_right by exact Hsel. cbn [find]. unfold same_push.
    cbn [new_push_row MultisigPushes.repo_id MultisigPushes.push_tx].
    now rewrite !String.eqb_refl.
Qed.

(** ** Logging a push *)

Lemma serve_push_log (chain : string -> rpc_result) (env : Env) (b : PushLogBody)
    (txId : string) (db : DB) :
  l_txId b = Some txId -> nonempty txId = true ->
  serve chain env (PostPushLog b) db =
  let repoRow := lookup_repo_in None (l_owner b) (l_repo b) db in
  match insert_push_on_conflict_do_nothing (logged_push env b txId repoRow) db with
  | inl _ => {| out_db := db; out_value := fail 500 "DB insert failed"; out_rpc := [] |}
  | inr db1 =>
      let o := run chain (ensureMultisigEntry (randomUUID_2 env) (NOW env) repoRow txId
                            (l_branch b)) db1 in
      {| out_db := out_db o;
         out_value := match out_value o with
                      | inl _ => fail 500 "DB insert failed"
                      | inr entry => ok (PushLogJson (summary entry))
                      end;
         out_rpc := [] |}
  end.
Proof.
  intros Htx Hne. unfold serve. cbn [handle]. unfold post_push_log.
  rewrite Htx, Hne. cbn [negb]. rewrite run_bind.
  change (getRepoByOwnerAndName (l_owner b) (l_repo b))
    with (lookup_repo None (l_owner b) (l_repo b)).
  rewrite run_lookup_repo. cbn [out_db out_value out_rpc app]. cbv zeta.
  set (repoRow := lookup_repo_in None (l_owner b) (l_repo b) db).
  cbn [run]. unfold attempt_. fold (logged_push env b txId repoRow).
  destruct (insert_push_on_conflict_do_nothing _ db) as [e|db1]; [reflexivity|].
  rewrite run_bind. cbv zeta.
  destruct (run_ensure_rpc chain (randomUUID_2 env) (NOW env) repoRow txId (l_branch b) db1)
    as [Hrpc _].
  rewrite Hrpc. cbn [app].
  destruct (out_value (run chain (ensureMultisigEntry _ _ repoRow txId _) db1));
    reflexivity.
Qed.

(** X6. A [/push-log] that answered 200 has the transaction in the push log,
    wrote nothing to the payments, repos, tickets and signatures, and can
    be repeated at will: the repetition answers as the first one did and
    leaves every table as it is, whatever identifiers and time it
    draws. *)
Theorem push_log_twice
    (chain chain' : string -> rpc_result) (env env' : Env) (b : PushLogBody) (db : DB) :
  let first := serve chain env (PostPushLog b) db in
  statusCode (out_value first) = 200 ->
  (exists txId row, l_txId b = Some txId /\ In row (pushes (out_db first))
                    /\ Pushes.tx_id row = txId)
  /\ payments (out_db first) = payments db /\ repos (out_db first) = repos db
  /\ otp_tokens (out_db first) = otp_tokens db
  /\ multisig_signatures (out_db first) = multisig_signatures db
  /\ serve chain' env' (PostPushLog b) (out_db first)
     = {| out_db := out_db first; out_value := out_value first; out_rpc := [] |}.
Proof.
  cbv zeta.
  destruct (l_txId b) as [txId|] eqn:Htx;
    [|unfold serve; cbn [handle]; unfold post_push_log; rewrite Htx; discriminate].
  destruct (nonempty txId) eqn:Hne;
    [|unfold serve; cbn [handle]; unfold post_push_log; rewrite Htx, Hne; discriminate].
  rewrite (serve_push_log chain env b txId db Htx Hne). cbv zeta.
  set (repoRow := lookup_repo_in None (l_owner b) (l_repo b) db).
  destruct (insert_push_on_conflict_do_nothing _ db) as [e|db1] eqn:Hins; [discriminate|].
  assert (Hdb1 : payments db1 = payments db /\ repos db1 = repos db
                 /\ otp_tokens db1 = otp_tokens db
                 /\ multisig_signatures db1 = multisig_signatures db
                 /\ existsb (fun r => String.eqb (Pushes.tx_id r) txId) (pushes db1) = true).
  { unfold insert_push_on_conflict_do_nothing in Hins.
    change (Pushes.tx_id (logged_push env b txId repoRow)) with txId in Hins.
    destruct (existsb (fun r => String.eqb (Pushes.tx_id r) txId) (pushes db)) eqn:Hex.
    - injection Hins as <-. auto 10.
    - destruct (existsb (fun r => String.eqb (Pushes.id r) _) (pushes db));
        [discriminate|].
      injection Hins as <-.
      cbn [payments repos otp_tokens multisig_signatures pushes with_pushes].
      repeat split; auto. rewrite existsb_app. cbn. rewrite String.eqb_refl.
      apply orb_true_r. }
  destruct Hdb1 as (Hp & Hr & Ho & Hs & Hex).
  destruct (run_ensure_rpc chain (randomUUID_2 env) (NOW env) repoRow txId (l_branch b) db1)
    as (_ & Hp' & Hr' & Hpu' & Ho' & Hs').
  cbn [out_db out_value].
  set (o := run chain (ensureMultisigEntry (randomUUID_2 env) (NOW env) repoRow txId
                         (l_branch b)) db1) in *.
  destruct (out_value o) as [e|entry] eqn:Hval; [discriminate|]. intros _.
  split.
  { apply existsb_exists in Hex. destruct Hex as (row & Hin & Heq).
    exists txId, row. rewrite Hpu'. apply String.eqb_eq in Heq. auto. }
  repeat (split; [congruence|]).
  rewrite (serve_push_log chain' env' b txId (out_db o) Htx Hne). cbv zeta.
  rewrite (lookup_repo_in_same_repos None (l_owner b) (l_repo b) db (out_db o))
    by congruence.
  fold repoRow.
  unfold insert_push_on_conflict_do_nothing.
  change (Pushes.tx_id (logged_push env' b txId repoRow)) with txId.
  rewrite Hpu', Hex.
  subst o. rewrite (run_ensure_again chain chain' _ _ _ _ repoRow txId _ _ db1 entry Hval).
  reflexivity.
Qed.


(** ** Setting up a multisig repo *)

Lemma select_repo_by_id_In (id : string) (db : DB) (r : Repos.row) :
  select_repo_by_id id db = Some r -> In r (repos db) /\ Repos.id r = id.
Proof.
  unfold select_repo_by_id. intros H. apply find_some in H.
  destruct H as [Hin Heq]. apply String.eqb_eq in Heq. auto.
Qed.

Lemma select_repo_by_owner_name_In (owner name : string) (db : DB) (r : Repos.row) :
  select_repo_by_owner_name owner name db = Some r -> In r (repos db).
Proof.
  unfold select_repo_by_owner_name. intros H. apply find_some in H. tauto.
Qed.

Lemma lookup_repo_in_In (repoId owner name : option string) (db : DB) (r : Repos.row) :
  lookup_repo_in repoId owner name db = Some r -> In r (repos db).
Proof.
  rewrite lookup_repo_in_eq. cbv zeta.
  assert (Hn : match owner, name with
               | Some o, Some n =>
                   if negb (nonempty o) || negb (nonempty n) then None
                   else select_repo_by_owner_name o n db
               | _, _ => None
               end = Some r -> In r (repos db)).
  { destruct owner as [o|]; [|discriminate]. destruct name as [n|]; [|discriminate].
    destruct (negb (nonempty o) || negb (nonempty n)); [discriminate|].
    apply select_repo_by_owner_name_In. }
  destruct repoId as [id|]; [|exact Hn].
  destruct (nonempty id); [|exact Hn].
  intros H. now apply select_repo_by_id_In in H.
Qed.

(** The tail of [/multisig/setup] on a repo that is multisig with
    threshold [t] and in the store. *)
Lemma run_setup_finish (chain : string -> rpc_result) (env : Env) (repo : Repos.row)
    (pushTx : string) (t : Z) (db : DB) :
  Repos.is_multisig repo = true ->
  effective_threshold (Repos.signers repo) (Repos.threshold repo) = Some t -> t <> 0 ->
  let o := run chain (setup_finish env (Some repo) pushTx) db in
  statusCode (out_value o) = 200 ->
  exists entry,
    out_value o = ok (SetupJson (Some repo) (summary (Some entry)))
    /\ select_multisig_push (Repos.id repo) pushTx (out_db o) = Some entry
    /\ MultisigPushes.repo_id entry = Repos.id repo
    /\ payments (out_db o) = payments db /\ repos (out_db o) = repos db.
Proof.
  intros Hm Hc Ht. cbv zeta. unfold setup_finish. rewrite run_bind. cbv zeta.
  rewrite run_ensureMultisigEntry. unfold tracked. rewrite Hm. cbn [negb]. rewrite Hc.
  destruct (Z.eqb_spec t 0) as [|_]; [contradiction|].
  destruct (select_multisig_push (Repos.id repo) pushTx db) as [e|] eqn:Hsel.
  - cbn [out_db out_value out_rpc run app]. intros _. exists e.
    repeat split; auto.
    unfold select_multisig_push in Hsel. apply find_some in Hsel.
    destruct Hsel as [_ Hs]. unfold same_push in Hs. apply andb_prop in Hs.
    destruct Hs as [Hs _]. now apply String.eqb_eq in Hs.
  - destruct (JS.includes _ _); cbn [out_db out_value out_rpc run app];
      [cbn; discriminate|].
    intros _. eexists. split; [reflexivity|].
    unfold select_multisig_push. cbn [multisig_pushes with_multisig_pushes].
    rewrite find_app_right by exact Hsel. cbn [find]. unfold same_push.
    cbn [new_push_row MultisigPushes.repo_id MultisigPushes.push_tx].
    rewrite !String.eqb_refl. auto.
Qed.


Lemma computed_threshold_whole (signers : list string) (requested : option JS.number)
    (x : JS.number) (z : Z) :
  calcThreshold signers requested = Some x -> pg_integer x = inr z ->
  1 <= z <= Z.of_nat (List.length signers)
  /\ effective_threshold signers (Some z) = Some z.
Proof.
  intros Hx Hz.
  assert (Hr : 1 <= z <= Z.of_nat (List.length signers)).
  { unfold calcThreshold in Hx. destruct signers as [|s rest]; [discriminate|].
    pose proof (Math_ceil_half_range (List.length (s :: rest))) as Hc.
    assert (Hpos : (0 < List.length (s :: rest))%nat) by (cbn; lia).
    specialize (Hc Hpos).
    assert (Hceil : x = JS.of_Z (JS.Math_ceil_half (List.length (s :: rest))) ->
                    1 <= z <= Z.of_nat (List.length (s :: rest))).
    { intros ->. rewrite pg_integer_of_Z in Hz. injection Hz as <-. exact Hc. }
    destruct requested as [r|]; [|injection Hx as <-; now apply Hceil].
    destruct (JS.number_truthy r && JS.gt_int r 0
              && JS.le_int r (Z.of_nat (List.length (s :: rest)))) eqn:E;
      injection Hx as <-; [|now apply Hceil].
    apply calcThreshold_test in E.
    destruct (pg_integer_whole _ _ Hz) as (q & -> & Hq).
    cbn [positive_up_to] in E. destruct E as [E1 E2].
    rewrite <- Hq in E1, E2. change 0%Q with (inject_Z 0) in E1.
    rewrite <- Zlt_Qlt in E1. rewrite <- Zle_Qle in E2. lia. }
  split; [exact Hr|].
  unfold effective_threshold. destruct signers as [|s rest]; [cbn in Hr; lia|].
  destruct (Z.eqb_spec z 0); [lia|].
  destruct (Z.ltb_spec 0 z); [|lia].
  destruct (Z.leb_spec z (Z.of_nat (List.length (s :: rest)))); [reflexivity | lia].
Qed.

(** The repo that [/multisig/setup] works on: the one found by [repoId],
    else the one found by owner and name. *)
Lemma run_setup_lookup {B : Type} (chain : string -> rpc_result) (b : SetupBody)
    (f : option Repos.row -> prog B) (db : DB) :
  exists repo,
    run chain
      (bind (if JS.truthy (s_repoId b)
             then match s_repoId b with
                  | Some repoId => Sql (query (select_repo_by_id repoId)) Ret
                  | None => Ret None
                  end
             else Ret None)
         (fun byId =>
            bind (match byId with
                  | Some r => Ret (Some r)
                  | None =>
                      if JS.truthy (s_owner b) && JS.truthy (s_name b)
                      then getRepoByOwnerAndName (s_owner b) (s_name b)
                      else Ret None
                  end) f)) db
    = run chain (f repo) db
    /\ (forall r, repo = Some r -> In r (repos db))
    /\ (repo = None ->
        lookup_repo_in None (s_owner b) (s_name b) db = None).
Proof.
  assert (Hname : exists repo,
            run chain (bind (if JS.truthy (s_owner b) && JS.truthy (s_name b)
                             then getRepoByOwnerAndName (s_owner b) (s_name b)
                             else Ret None) f) db
            = run chain (f repo) db
            /\ (forall r, repo = Some r -> In r (repos db))
            /\ (repo = None -> lookup_repo_in None (s_owner b) (s_name b) db = None)).
  { rewrite lookup_repo_in_eq. cbv zeta. unfold getRepoByOwnerAndName.
    destruct (s_owner b) as [o|]; cbn [JS.truthy andb]; [|exists None; now auto].
    fold (nonempty o). destruct (nonempty o) eqn:Eo; cbn [andb negb orb];
      [|exists None; destruct (s_name b); now auto].
    destruct (s_name b) as [n|]; cbn [JS.truthy]; [|exists None; now auto].
    fold (nonempty n). destruct (nonempty n) eqn:En; cbn [negb orb];
      [|exists None; now auto].
    cbn [negb orb bind run query].
    exists (select_repo_by_owner_name o n db). split; [reflexivity|]. split; [|auto].
    intros r Hr. now apply select_repo_by_owner_name_In in Hr. }
  destruct (JS.truthy (s_repoId b)); [|exact Hname].
  destruct (s_repoId b) as [id|]; [|exact Hname].
  cbn [bind run query].
  destruct (select_repo_by_id id db) as [r|] eqn:Hid; [|exact Hname].
  exists (Some r). cbn [bind]. split; [reflexivity|]. split; [|discriminate].
  intros r' [= <-]. now apply select_repo_by_id_In in Hid.
Qed.

(** X8. What a successful [/multisig/setup] leaves behind.  The payment named
    exists, is confirmed and is of purpose [multisig_setup]; the repo in the
    answer is in the store under its identifier, is multisig, has the parsed
    signers and the effective threshold, a whole number between 1 and the
    number of signers; and the push has an approval request for that repo,
    which the answer summarises.  A setup whose effective threshold is not
    a whole number is refused and changes nothing. *)
Theorem setup_success
    (chain : string -> rpc_result) (env : Env) (b : SetupBody) (db : DB) :
  let o := serve chain env (PostMultisigSetup b) db in
  (statusCode (out_value o) = 200 ->
   exists pushTx h p repo entry z,
     s_pushTx b = Some pushTx /\ s_paymentTxSig b = Some h
     /\ select_payment h db = Some p
     /\ Payments.purpose p = "multisig_setup" /\ Payments.status p = "confirmed"
     /\ out_value o = ok (SetupJson (Some repo) (summary (Some entry)))
     /\ Repos.is_multisig repo = true
     /\ Repos.signers repo = parseSigners (s_signers b)
     /\ Repos.threshold repo = Some z
     /\ integer_or_null (computedThreshold (s_signers b) (s_threshold b)) = inr (Some z)
     /\ 1 <= z <= Z.of_nat (List.length (parseSigners (s_signers b)))
     /\ select_repo_by_id (Repos.id repo) (out_db o) = Some repo
     /\ select_multisig_push (Repos.id repo) pushTx (out_db o) = Some entry)
  /\ (forall x e,
         computedThreshold (s_signers b) (s_threshold b) = Some x ->
         pg_integer x = inl e ->
         statusCode (out_value o) = 400 /\ out_db o = db).
Proof.
  cbv zeta. unfold serve. cbn [handle]. unfold post_multisig_setup.
  destruct (s_pushTx b) as [pushTx|]; [|split; [discriminate | now auto]].
  destruct (nonempty pushTx); cbn [negb]; [|split; [discriminate | now auto]].
  destruct (s_paymentTxSig b) as [h|]; [|split; [discriminate | now auto]].
  destruct (nonempty h); cbn [negb]; [|split; [discriminate | now auto]].
  cbv zeta.
  destruct (parseSigners (s_signers b)) as [|s0 rest] eqn:Hsigners;
    [split; [discriminate | now auto]|].
  destruct (computedThreshold (s_signers b) (s_threshold b)) as [x|] eqn:Hx;
    [|split; [discriminate | now auto]].
  destruct (JS.number_truthy x) eqn:Htruthy; cbn [negb];
    [|split; [discriminate | now auto]].
  cbn [run query].
  destruct (select_payment h db) as [p|] eqn:Hsel; [|split; [discriminate | now auto]].
  destruct (String.eqb (Payments.purpose p) "multisig_setup") eqn:Hpurp; cbn [negb];
    [|split; [discriminate | now auto]].
  destruct (String.eqb (Payments.status p) "confirmed") eqn:Hstat; cbn [negb];
    [|split; [discriminate | now auto]].
  apply String.eqb_eq in Hpurp, Hstat.
  match goal with
  | |- context [run chain (bind _ (fun byId => bind _ ?f)) db] =>
      destruct (run_setup_lookup chain b f db) as (repo & -> & Hin & _)
  end.
  unfold computedThreshold in Hx. rewrite Hsigners in Hx.
  destruct repo as [repo|].
  - (* an existing repo is updated *)
    specialize (Hin repo eq_refl). cbn [run]. unfold attempt_, with_integer.
    destruct (pg_integer x) as [e|z] eqn:Hz.
    { cbn [run out_value out_db]. split; [discriminate|].
      intros x' e' [= <-] _. now auto. }
    split; [|intros x' e' [= <-]; congruence].
    destruct (computed_threshold_whole _ _ _ _ Hx Hz) as [Hrange Heff].
    cbn [run query].
    set (db1 := update_repo_multisig z (s0 :: rest) (Some h) (Repos.id repo) db).
    assert (Hfound : exists r1,
               select_repo_by_id (Repos.id repo) db = Some r1
               /\ Repos.id r1 = Repos.id repo).
    { destruct (select_repo_by_id (Repos.id repo) db) as [r1|] eqn:Hr1.
      - exists r1. split; [reflexivity|]. now apply select_repo_by_id_In in Hr1.
      - unfold select_repo_by_id in Hr1.
        pose proof (find_none _ _ Hr1 repo Hin) as Hno. cbn in Hno.
        now rewrite String.eqb_refl in Hno. }
    destruct Hfound as (r1 & Hr1 & Hid1).
    assert (Hrefreshed : exists repo',
               select_repo_by_id (Repos.id repo) db1 = Some repo'
               /\ Repos.id repo' = Repos.id repo /\ Repos.is_multisig repo' = true
               /\ Repos.signers repo' = s0 :: rest /\ Repos.threshold repo' = Some z).
    { unfold db1, select_repo_by_id, update_repo_multisig. cbn [repos with_repos].
      rewrite find_update_where by reflexivity.
      fold (select_repo_by_id (Repos.id repo) db). rewrite Hr1. cbn [option_map].
      rewrite Hid1, String.eqb_refl. eexists. split; [reflexivity|]. cbn. auto. }
    destruct Hrefreshed as (repo' & Hsel' & Hid' & Hm' & Hs' & Ht').
    rewrite Hsel'. intros Hok.
    assert (Heff' : effective_threshold (Repos.signers repo') (Repos.threshold repo')
                    = Some z) by (rewrite Hs', Ht'; exact Heff).
    assert (Hz0 : z <> 0) by lia.
    destruct (run_setup_finish chain env repo' pushTx z db1 Hm' Heff' Hz0 Hok)
      as (entry & Hv & Hpush & _ & _ & Hrepos).
    exists pushTx, h, p, repo', entry, z.
    repeat split; auto; try lia.
    + unfold integer_or_null. now rewrite Hz.
    + unfold select_repo_by_id. rewrite Hrepos. fold (select_repo_by_id (Repos.id repo') db1).
      now rewrite Hid'.
  - (* a new repo is inserted *)
    destruct (s_owner b) as [owner|]; [|split; [discriminate | now auto]].
    destruct (s_name b) as [name|]; [|split; [discriminate | now auto]].
    destruct (negb (nonempty owner) || negb (nonempty name));
      [split; [discriminate | now auto]|].
    cbn [run]. unfold attempt, with_integer.
    destruct (pg_integer x) as [e|z] eqn:Hz.
    { cbn [run out_value out_db]. split; [discriminate|].
      intros x' e' [= <-] _. now auto. }
    split; [|intros x' e' [= <-]; congruence].
    destruct (computed_threshold_whole _ _ _ _ Hx Hz) as [Hrange Heff].
    unfold insert_repo.
    destruct (repo_pkey_taken _ db) eqn:Hpk; [discriminate|].
    destruct (repo_owner_name_taken _ db); [discriminate|].
    match goal with
    | |- context [with_repos (repos db ++ [?r]) db] => set (row := r)
    end.
    set (db1 := with_repos (repos db ++ [row]) db).
    intros Hok.
    assert (Hz0 : z <> 0) by lia.
    destruct (run_setup_finish chain env row pushTx z db1 eq_refl Heff Hz0 Hok)
      as (entry & Hv & Hpush & _ & _ & Hrepos).
    exists pushTx, h, p, row, entry, z.
    repeat split; auto; try lia.
    + unfold integer_or_null. now rewrite Hz.
    + unfold select_repo_by_id. rewrite Hrepos. unfold db1. cbn [repos with_repos].
      rewrite find_app_right by (apply find_existsb_false; exact Hpk).
      cbn. now rewrite String.eqb_refl.
Qed.



(** ** Thresholds that the store refuses *)


(* ================================================================== *)
(** * Signer lists *)
(* ================================================================== *)

Lemma trim_start_idem (s : string) : JS.trim_start (JS.trim_start s) = JS.trim_start s.
Proof.
  induction s as [|c s IH]; cbn; [reflexivity|].
  destruct (JS.is_space c) eqn:E; [exact IH|]. cbn. now rewrite E.
Qed.

Lemma trim_start_head (s : string) :
  match JS.trim_start s with
  | EmptyString => True
  | String c _ => JS.is_space c = false
  end.
Proof.
  induction s as [|c s IH]; cbn; [exact I|].
  destruct (JS.is_space c) eqn:E; [exact IH | exact E].
Qed.

Lemma trim_end_idem (s : string) : JS.trim_end (JS.trim_end s) = JS.trim_end s.
Proof.
  induction s as [|c s IH]; cbn; [reflexivity|].
  destruct (JS.trim_end s) as [|d r] eqn:E.
  - destruct (JS.is_space c) eqn:Ec; cbn; [reflexivity|]. now rewrite Ec.
  - change (JS.trim_end (String c (String d r)))
      with (match JS.trim_end (String d r) with
            | EmptyString => if JS.is_space c then EmptyString else String c EmptyString
            | rest => String c rest
            end).
    rewrite IH. reflexivity.
Qed.

Lemma trim_end_head (c : ascii) (s : string) :
  JS.is_space c = false -> exists r, JS.trim_end (String c s) = String c r.
Proof.
  intros E. cbn. destruct (JS.trim_end s); [rewrite E|]; eauto.
Qed.

Lemma trim_idem (s : string) : JS.trim (JS.trim s) = JS.trim s.
Proof.
  unfold JS.trim. pose proof (trim_start_head s) as H.
  destruct (JS.trim_start s) as [|c u]; [reflexivity|].
  destruct (trim_end_head c u H) as [r Hr]. rewrite Hr.
  cbn [JS.trim_start]. rewrite H, <- Hr. apply trim_end_idem.
Qed.

Lemma filter_trim_clean (l : list string) :
  Forall clean (filter nonempty (map JS.trim l)).
Proof.
  induction l as [|x l IH]; cbn; [constructor|].
  destruct (nonempty (JS.trim x)) eqn:E; [|exact IH].
  constructor; [|exact IH]. split; [exact E | apply trim_idem].
Qed.

Lemma parseSigners_array_clean (l : list string) :
  Forall clean l -> parseSigners (SignersArray (map Some l)) = l.
Proof.
  intros H. cbn. induction H as [|x l [Hne Htrim] _ IH]; cbn; [reflexivity|].
  rewrite Htrim, Hne. now rewrite IH.
Qed.

(** X9. The signer list that [parseSigners] returns holds only non-empty
    strings without white space around them, whatever the input; and
    parsing such a list again, as an array, returns it unchanged. *)
Theorem parseSigners_normal (input : signers_input) :
  Forall (fun s => nonempty s = true /\ JS.trim s = s) (parseSigners input)
  /\ parseSigners (SignersArray (map Some (parseSigners input))) = parseSigners input.
Proof.
  assert (H : Forall clean (parseSigners input)).
  { destruct input as [elems|s|]; cbn.
    - induction elems as [|x l IH]; cbn; [constructor|].
      destruct x as [x|]; cbn; [|exact IH].
      destruct (nonempty (JS.trim x)) eqn:E; [|exact IH].
      constructor; [|exact IH]. split; [exact E | apply trim_idem].
    - destruct (String.eqb s ""); [constructor | apply filter_trim_clean].
    - constructor. }
  split; [exact H | now apply parseSigners_array_clean].
Qed.

(** ** The client's owners *)

Lemma Array_from_Set_spec (xs acc : list string) :
  NoDup acc ->
  let set := fold_left (fun set x => if JS.includes set x then set
                                      else (set ++ [x])%list) xs acc in
  NoDup set /\ (forall x, In x set <-> In x acc \/ In x xs).
Proof.
  clear cfg Buffer_from_base64 PublicKey_toBytes nacl_sign_detached_verify.
  revert acc. induction xs as [|x xs IH]; intros acc Hnd; cbn.
  - split; [exact Hnd|]. intros x. tauto.
  - destruct (JS.includes acc x) eqn:E.
    + destruct (IH acc Hnd) as [H1 H2]. split; [exact H1|].
      intros y. rewrite H2. apply includes_In in E. split; [tauto|].
      intros [H | [<- | H]]; auto.
    + assert (Hnd' : NoDup (acc ++ [x])).
      { apply NoDup_app; [exact Hnd | repeat constructor; intros [] |].
        intros y Hy [<- | []]. apply includes_In in Hy. congruence. }
      destruct (IH (acc ++ [x])%list Hnd') as [H1 H2]. split; [exact H1|].
      intros y. rewrite H2, in_app_iff. cbn. tauto.
Qed.

(** X10. The signers that the client sends to [/multisig/setup] are the
    trimmed non-empty owners and the key of the user, each once; when that
    key is non-empty and has no white space around it, the backend's
    [parseSigners] takes the list as it is, so it is never empty there and
    what the server stores is what the client sent. *)
Theorem client_owners_reach_the_server (owners : list string) (ownerPk : string) :
  nonempty ownerPk = true -> JS.trim ownerPk = ownerPk ->
  let sent := CLI.uniqueOwners owners ownerPk in
  NoDup sent
  /\ In ownerPk sent
  /\ (forall s, In s sent <-> s = ownerPk \/ (nonempty s = true /\ In s (map JS.trim owners)))
  /\ parseSigners (SignersArray (map Some sent)) = sent
  /\ parseSigners (SignersArray (map Some sent)) <> [].
Proof.
  clear cfg Buffer_from_base64 PublicKey_toBytes nacl_sign_detached_verify.
  intros Hne Htrim sent.
  destruct (Array_from_Set_spec (filter nonempty (map JS.trim owners)) [] (NoDup_nil _))
    as [Hnd Hin].
  fold (CLI.Array_from_Set (filter nonempty (map JS.trim owners))) in Hnd, Hin.
  set (u := CLI.Array_from_Set (filter nonempty (map JS.trim owners))) in *.
  assert (Hu : forall s, In s u <-> nonempty s = true /\ In s (map JS.trim owners)).
  { intros s. rewrite Hin, filter_In. cbn. tauto. }
  assert (Hclean_u : Forall clean u).
  { apply Forall_forall. intros s Hs. apply Hu in Hs. destruct Hs as [H1 H2].
    split; [exact H1|]. apply in_map_iff in H2. destruct H2 as (o & <- & _).
    apply trim_idem. }
  assert (Hsent : NoDup sent /\ In ownerPk sent
                  /\ (forall s, In s sent <-> s = ownerPk \/ In s u)
                  /\ Forall clean sent).
  { subst sent. unfold CLI.uniqueOwners. cbv zeta. fold u.
    destruct (JS.includes u ownerPk) eqn:E; cbn [negb].
    - apply includes_In in E. split; [exact Hnd|]. split; [exact E|].
      split; [|exact Hclean_u].
      intros s. split; [auto|]. intros [-> | H]; auto.
    - split; [|split; [|split]].
      + apply NoDup_app; [exact Hnd | repeat constructor; intros [] |].
        intros y Hy [Heq | []]. subst y.
        apply includes_In in Hy. congruence.
      + apply in_or_app. right. now left.
      + intros s. rewrite in_app_iff. cbn. split.
        * intros [H | [<- | []]]; auto.
        * intros [-> | H]; auto.
      + apply Forall_app. split; [exact Hclean_u|]. repeat constructor; assumption. }
  destruct Hsent as (H1 & H2 & H3 & H4).
  split; [exact H1|]. split; [exact H2|]. split.
  - intros s. rewrite H3, Hu. tauto.
  - rewrite (parseSigners_array_clean sent H4). split; [reflexivity|].
    intros Hnil. rewrite Hnil in H2. contradiction.
Qed.


Lemma filter_trim_id (l : list string) :
  Forall clean l -> filter nonempty (map JS.trim l) = l.
Proof.
  intros H. induction H as [|x l [Hne Htrim] _ IH]; cbn; [reflexivity|].
  rewrite Htrim, Hne. now rewrite IH.
Qed.

(** X11. The client reads its [--multisig-owners] option as the server
    reads a signers string; the owners it then sends are exactly the
    owners read and the key of the user, and they are not trimmed or
    filtered a second time. *)
Theorem client_owner_option (input ownerPk : string) :
  CLI.parseOwners input = parseSigners (SignersString input)
  /\ filter nonempty (map JS.trim (CLI.parseOwners input)) = CLI.parseOwners input
  /\ (forall s, In s (CLI.uniqueOwners (CLI.parseOwners input) ownerPk)
                <-> s = ownerPk \/ In s (CLI.parseOwners input)).
Proof.
  clear cfg Buffer_from_base64 PublicKey_toBytes nacl_sign_detached_verify.
  assert (Hclean : Forall clean (CLI.parseOwners input)).
  { unfold CLI.parseOwners. destruct (String.eqb input ""); [constructor|].
    apply filter_trim_clean. }
  split; [reflexivity|]. split; [now apply filter_trim_id|].
  intros s. unfold CLI.uniqueOwners. cbv zeta. rewrite (filter_trim_id _ Hclean).
  destruct (Array_from_Set_spec (CLI.parseOwners input) [] (NoDup_nil _)) as [_ Hin].
  fold (CLI.Array_from_Set (CLI.parseOwners input)) in Hin.
  destruct (JS.includes (CLI.Array_from_Set (CLI.parseOwners input)) ownerPk) eqn:E;
    cbn [negb].
  - apply includes_In in E. rewrite Hin in *. cbn in *. split; [tauto|].
    intros [-> | H]; tauto.
  - rewrite in_app_iff, Hin. cbn. split.
    + intros [[[] | H] | [<- | []]]; auto.
    + intros [-> | H]; auto.
Qed.


(* ================================================================== *)
(** * What every interleaving keeps *)
(* ================================================================== *)

Lemma grows_eq_app {A : Type} (l l' : list A) :
  grows eq l l' -> exists ext, l' = (l ++ ext)%list.
Proof.
  induction 1 as [ext | x y l l' Hxy _ [ext IH]].
  - exists ext. reflexivity.
  - exists ext. cbn. now rewrite Hxy, IH.
Qed.

Lemma count_where_app {A : Type} (cond : A -> bool) (l ext : list A) :
  count_where cond (l ++ ext) = count_where cond l + count_where cond ext.
Proof. unfold count_where. rewrite filter_app, length_app. lia. Qed.

Lemma count_where_nonneg {A : Type} (cond : A -> bool) (l : list A) :
  0 <= count_where cond l.
Proof. unfold count_where. lia. Qed.

(** X13. No request ever removes or rewrites what another relies on.
    Take the server at any point, with requests in flight, and let it run
    any number of steps, in any interleaving.  A payment found under its
    hash is still found, with its identifier and purpose, confirmed if it
    was; a repo found under its id is still found, with its owner and
    name, multisig if it was, paid by the same payment; a ticket found
    under its token is still found, for the same payment, used if it was;
    an approval request found for a repo and push is still found, with
    the same identifier and requirement, approved if it was; and the
    number of approvals recorded for a request never goes down. *)
Theorem history_is_kept (c c' : cluster) :
  cluster_steps c c' -> inv (store c) -> Forall residue (in_flight c) ->
  (forall h p, select_payment h (store c) = Some p ->
     exists p', select_payment h (store c') = Some p'
                /\ Payments.id p' = Payments.id p
                /\ Payments.purpose p' = Payments.purpose p
                /\ (Payments.status p = "confirmed" -> Payments.status p' = "confirmed"))
  /\ (forall id r, select_repo_by_id id (store c) = Some r ->
        exists r', select_repo_by_id id (store c') = Some r'
                   /\ Repos.owner r' = Repos.owner r /\ Repos.name r' = Repos.name r
                   /\ (Repos.is_multisig r = true -> Repos.is_multisig r' = true)
                   /\ (forall h, Repos.payment_tx r = Some h ->
                                 Repos.payment_tx r' = Some h))
  /\ (forall otp t, select_otp_token otp (store c) = Some t ->
        exists t', select_otp_token otp (store c') = Some t'
                   /\ OtpTokens.id t' = OtpTokens.id t
                   /\ OtpTokens.payment_tx t' = OtpTokens.payment_tx t
                   /\ (forall u, OtpTokens.used_at t = Some u ->
                                 OtpTokens.used_at t' = Some u))
  /\ (forall repoId pushTx m, select_multisig_push repoId pushTx (store c) = Some m ->
        exists m', select_multisig_push repoId pushTx (store c') = Some m'
                   /\ MultisigPushes.id m' = MultisigPushes.id m
                   /\ MultisigPushes.approvals_required m'
                      = MultisigPushes.approvals_required m
                   /\ (MultisigPushes.status m = "approved" ->
                       MultisigPushes.status m' = "approved"))
  /\ (forall pushId, count_multisig_signatures pushId (store c)
                     <= count_multisig_signatures pushId (store c')).
Proof.
  intros Hsteps Hinv Hres.
  destruct (cluster_steps_safe c c' Hsteps Hinv Hres) as (_ & _ & Hle).
  destruct Hle as (Hp & Hr & Ho & Hm & Hs).
  split; [|split; [|split; [|split]]].
  - intros h p Hsel. unfold select_payment in *.
    destruct (grows_find payment_le (fun r => String.eqb (Payments.tx_sig r) h)
                (payments (store c)) (payments (store c')) p) as (p' & Hp' & Hrel);
      [intros a b (_ & H & _); now rewrite H | exact Hp | exact Hsel |].
    exists p'. destruct Hrel as (H1 & _ & H3 & H4 & _). auto.
  - intros id r Hsel. unfold select_repo_by_id in *.
    destruct (grows_find repo_le (fun x => String.eqb (Repos.id x) id)
                (repos (store c)) (repos (store c')) r) as (r' & Hr' & Hrel);
      [intros a b (H & _); now rewrite H | exact Hr | exact Hsel |].
    exists r'. destruct Hrel as (_ & H2 & H3 & H4 & H5). auto.
  - intros otp t Hsel. unfold select_otp_token in *.
    destruct (grows_find otp_le (fun x => String.eqb (OtpTokens.otp_plain x) otp)
                (otp_tokens (store c)) (otp_tokens (store c')) t) as (t' & Ht' & Hrel);
      [intros a b (_ & H & _); now rewrite H | exact Ho | exact Hsel |].
    exists t'. destruct Hrel as (H1 & _ & H3 & H4). auto.
  - intros repoId pushTx m Hsel. unfold select_multisig_push in *.
    destruct (grows_find multisig_push_le (same_push repoId pushTx)
                (multisig_pushes (store c)) (multisig_pushes (store c')) m)
      as (m' & Hm' & Hrel);
      [intros a b (_ & H1 & H2 & _); unfold same_push; now rewrite H1, H2
      | exact Hm | exact Hsel |].
    exists m'. destruct Hrel as (H1 & _ & _ & H4 & H5). auto.
  - intros pushId. unfold count_multisig_signatures.
    destruct (grows_eq_app _ _ Hs) as [ext ->]. rewrite count_where_app.
    pose proof (count_where_nonneg
                  (fun r => String.eqb (MultisigSignatures.multisig_push_id r) pushId) ext).
    lia.
Qed.


(* ================================================================== *)
(** * Properties of every reachable store *)
(* ================================================================== *)

Section Keeps.
Variable P : DB -> Prop.

Lemma keeps_bind {A B : Type} (p : prog A) (f : A -> prog B) :
  keeps P p -> (forall a, keeps P (f a)) -> keeps P (bind p f).
Proof.
  intros Hp Hf. induction p as [a | R stmt k IH | txSig k IH]; cbn in *.
  - apply Hf.
  - destruct Hp as [Hs Hk]. split; [assumption|]. intros r. apply IH, Hk.
  - intros r. apply IH, Hp.
Qed.

Hypothesis keeps_handle : forall env req, keeps P (handle env req).

Lemma residue_keeps (p : prog response) : residue p -> keeps P p.
Proof.
  induction 1 as [env req | R stmt k r _ IH | txSig k answer _ IH].
  - apply keeps_handle.
  - apply IH.
  - apply IH.
Qed.

Lemma cluster_step_keeps (c c' : cluster) :
  cluster_step c c' -> P (store c) -> Forall residue (in_flight c) ->
  P (store c') /\ Forall residue (in_flight c').
Proof.
  intros Hstep. destruct Hstep as [db ps env req | db ps1 ps2 R stmt k
    | db ps1 ps2 txSig k answer | db ps1 ps2 r]; cbn; intros HP Hres.
  - split; [assumption|]. constructor; [constructor | assumption].
  - apply Forall_app in Hres. destruct Hres as [H1 H2].
    inversion H2 as [|? ? Hp H2']; subst.
    pose proof (residue_keeps _ Hp) as [Hstmt _].
    split; [apply Hstmt; assumption|].
    apply Forall_app. split; [assumption|].
    constructor; [|assumption]. eapply residue_sql; eassumption.
  - apply Forall_app in Hres. destruct Hres as [H1 H2].
    inversion H2 as [|? ? Hp H2']; subst.
    split; [assumption|].
    apply Forall_app. split; [assumption|].
    constructor; [|assumption]. eapply residue_rpc; eassumption.
  - apply Forall_app in Hres. destruct Hres as [H1 H2].
    inversion H2 as [|? ? Hp H2']; subst.
    split; [assumption|]. apply Forall_app. split; assumption.
Qed.

Lemma cluster_steps_keeps (c c' : cluster) :
  cluster_steps c c' -> P (store c) -> Forall residue (in_flight c) ->
  P (store c') /\ Forall residue (in_flight c').
Proof.
  induction 1 as [c | c1 c2 c3 Hstep Hsteps IH]; intros HP Hres.
  - auto.
  - destruct (cluster_step_keeps _ _ Hstep HP Hres) as (H1 & H2). apply IH; assumption.
Qed.

Lemma reachable_keeps (db : DB) : P empty_db -> reachable db -> P db.
Proof.
  intros H0 [ps Hsteps].
  apply cluster_steps_keeps in Hsteps; cbn; auto. now destruct Hsteps.
Qed.

End Keeps.

(** Decomposes a goal of [keeps] along the program, remembering the tests
    that lead to each statement. *)
Ltac keeps_step :=
  match goal with
  | |- keeps _ (Ret _) => exact I
  | |- keeps _ (Sql _ _) => split; [intros ? ? | intros ?]
  | |- keeps _ (GetTransaction _ _) => intros ?
  | |- keeps _ (bind _ _) => apply keeps_bind; [| intros ?]
  | |- keeps _ (match ?x with _ => _ end) => destruct x eqn:?
  | |- keeps _ (let _ := _ in _) => cbv zeta
  end.

(** Closes a goal that two stores have the same table, by cases on the
    statement that leads from one to the other. *)
Ltac same_table :=
  cbn [fst query exec]; unfold attempt, attempt_, with_integer, transaction,
    insert_repo, insert_repo_on_conflict_do_nothing,
    insert_multisig_push_on_conflict_do_nothing, insert_push_on_conflict_do_nothing,
    update_otp_used, update_repo_multisig, update_payment_confirmed, insert_payment;
  repeat match goal with
         | |- context [match ?x with _ => _ end] =>
             lazymatch x with
             | context [match _ with _ => _ end] => fail
             | _ => destruct x
             end
         end;
  reflexivity.

(** ** Payments *)

Lemma paid_same_payments (db db' : DB) :
  payments db' = payments db -> paid db -> paid db'.
Proof. unfold paid, payments_keyed. intros ->. auto. Qed.

Lemma paid_confirmed (id : string) (db : DB) :
  paid db -> paid (update_payment_confirmed id db).
Proof.
  intros [Hk Hp]. unfold update_payment_confirmed. split.
  - unfold payments_keyed. cbn [payments with_payments].
    rewrite update_where_keys by reflexivity. exact Hk.
  - cbn [payments with_payments]. intros p Hin.
    apply update_where_In in Hin. destruct Hin as (x & Hx & ->).
    destruct (Hp x Hx) as (H1 & H2 & H3).
    destruct (String.eqb (Payments.id x) id); cbn; auto.
Qed.

Lemma paid_insert (id txSig : string) (payer : option string) (purpose : string)
    (amount : Z) (repoName : option string) (metadata : Payments.Metadata) (now : Z)
    (db : DB) :
  MIN_PAYMENT_ATOMIC cfg <= amount -> paid db ->
  paid (fst (attempt (insert_payment id txSig payer purpose amount repoName
                        metadata now) db)).
Proof.
  intros Hmin [Hk Hp]. unfold attempt, insert_payment.
  destruct payer as [payer|]; [|exact (conj Hk Hp)].
  destruct (existsb (fun r => String.eqb (Payments.id r) id) (payments db)) eqn:Hid;
    [exact (conj Hk Hp)|].
  destruct (existsb (fun r => String.eqb (Payments.tx_sig r) txSig) (payments db));
    [exact (conj Hk Hp)|].
  cbn [fst]. split.
  - unfold payments_keyed. cbn [payments with_payments]. rewrite map_app. cbn [map].
    apply distinct_app_fresh; [exact Hk|].
    now rewrite <- (existsb_key_includes Payments.id).
  - cbn [payments with_payments]. intros p Hin. apply in_app_or in Hin.
    destruct Hin as [Hin | [<- | []]]; [now apply Hp|].
    cbn. split; [reflexivity|]. split; [exact Hmin|]. congruence.
Qed.

Lemma paid_consumed (h purpose : string) (p : Payments.row) (now : Z) (db db1 : DB) :
  paid db -> select_payment h db = Some p -> Payments.purpose p = purpose ->
  purpose = "repo_init" \/ purpose = "otp_share" ->
  payments db1 = payments db ->
  paid (update_payment_consumed (Payments.id p) now db1).
Proof.
  intros [Hk Hp] Hsel Hpurp Hcons Hsame. unfold update_payment_consumed. split.
  - unfold payments_keyed. cbn [payments with_payments].
    rewrite update_where_keys by reflexivity. rewrite Hsame. exact Hk.
  - cbn [payments with_payments]. rewrite Hsame. intros q Hin.
    apply update_where_In in Hin. destruct Hin as (x & Hx & ->).
    destruct (Hp x Hx) as (H1 & H2 & H3).
    destruct (String.eqb (Payments.id x) (Payments.id p)) eqn:E; [|auto].
    apply String.eqb_eq in E. apply select_payment_In in Hsel. destruct Hsel as [Hin _].
    assert (x = p) by (eapply (keyed_unique Payments.id); eauto). subst x.
    cbn. split; [exact H1|]. split; [exact H2|]. intros _. rewrite Hpurp. exact Hcons.
Qed.

Lemma paid_repos_transaction (env : Env) (name owner : string) (b : ReposBody)
    (h : string) (db : DB) :
  paid db -> paid (fst (transaction (repos_transaction env name owner b h) db)).
Proof.
  intros Hpaid. unfold transaction. rewrite repos_transaction_spec.
  destruct (lock_payment h "repo_init" db) as [e | [db' p]] eqn:Hlock; [exact Hpaid|].
  apply lock_payment_ok in Hlock. destruct Hlock as (-> & Hsel & Hpurp & _ & _).
  destruct (integer_or_null _) as [e|threshold]; [exact Hpaid|].
  cbv zeta. destruct (repo_owner_name_taken _ db); [exact Hpaid|].
  destruct (repo_pkey_taken _ db); [exact Hpaid|].
  cbn [fst]. eapply paid_consumed; eauto.
Qed.

Lemma paid_otp_transaction (env : Env) (repo : Repos.row) (bundleTx h : string)
    (b : OtpRequestBody) (db : DB) :
  paid db -> paid (fst (transaction (otp_transaction env repo bundleTx h b) db)).
Proof.
  intros Hpaid. unfold transaction. rewrite otp_transaction_spec.
  destruct (lock_payment h "otp_share" db) as [e | [db' p]] eqn:Hlock; [exact Hpaid|].
  apply lock_payment_ok in Hlock. destruct Hlock as (-> & Hsel & Hpurp & _ & _).
  cbv zeta. destruct (existsb _ (otp_tokens db)); [exact Hpaid|].
  cbn [fst]. eapply paid_consumed; eauto.
Qed.

Lemma paid_approve_transaction (env : Env) (repo : Repos.row)
    (txId signer signatureB64 : string) (db : DB) :
  paid db ->
  paid (fst (transaction (approve_transaction env repo txId signer signatureB64) db)).
Proof.
  intros Hpaid. unfold transaction. rewrite approve_transaction_spec.
  destruct (select_multisig_push _ _ db) as [push|]; [|exact Hpaid].
  cbv zeta. destruct (insert_multisig_signature _ db) as [e|db1].
  - destruct (String.eqb (code e) "23505"); exact Hpaid.
  - destruct (record_approval_db env push
                (new_signature_row env (MultisigPushes.id push) signer signatureB64) db)
      as (H & _).
    destruct (record_approval env push _ db) as [db' a]. cbn [fst] in *.
    now apply (paid_same_payments db).
Qed.

Lemma keeps_paid_getRepoByOwnerAndName (owner name : option string) :
  keeps paid (getRepoByOwnerAndName owner name).
Proof. unfold getRepoByOwnerAndName. repeat keeps_step. assumption. Qed.

Lemma keeps_paid_lookup_repo (repoId owner name : option string) :
  keeps paid (lookup_repo repoId owner name).
Proof.
  unfold lookup_repo. repeat keeps_step;
    try assumption; apply keeps_paid_getRepoByOwnerAndName.
Qed.

Lemma keeps_paid_ensureMultisigEntry (id : string) (now : Z) (repo : option Repos.row)
    (pushTx : string) (branch : option string) :
  keeps paid (ensureMultisigEntry id now repo pushTx branch).
Proof.
  unfold ensureMultisigEntry. repeat keeps_step; try assumption.
  match goal with H : paid ?d |- _ => apply (paid_same_payments d); [|exact H] end.
  same_table.
Qed.

Lemma keeps_paid_handle (env : Env) (req : request) : keeps paid (handle env req).
Proof.
  destruct req as [b | b | b | b | b | b | b]; cbn [handle].
  - unfold post_payments_verify. cbv zeta. repeat keeps_step; try assumption.
    unfold verify_after_select.
    repeat keeps_step; try assumption.
    + now apply paid_confirmed.
    + unfold verifyTokenPayment. repeat keeps_step.
    + apply paid_insert; [|assumption].
      match goal with H : (_ <? _) = false |- _ => apply Z.ltb_ge in H; exact H end.
  - unfold post_repos. repeat keeps_step. now apply paid_repos_transaction.
  - unfold post_otp_request. repeat keeps_step;
      try apply keeps_paid_lookup_repo. now apply paid_otp_transaction.
  - unfold post_otp_redeem. repeat keeps_step; try assumption.
    unfold redeem_after_select. repeat keeps_step.
    match goal with H : paid ?d |- _ => apply (paid_same_payments d); [|exact H] end.
    same_table.
  - unfold post_multisig_approve. repeat keeps_step;
      try apply keeps_paid_lookup_repo. now apply paid_approve_transaction.
  - unfold post_multisig_setup. cbv zeta. unfold setup_finish.
    repeat (keeps_step; try assumption;
            try apply keeps_paid_getRepoByOwnerAndName;
            try apply keeps_paid_ensureMultisigEntry).
    all: match goal with H : paid ?d |- _ => apply (paid_same_payments d); [|exact H] end.
    all: same_table.
  - unfold post_push_log. repeat (keeps_step; try assumption;
            try apply keeps_paid_getRepoByOwnerAndName;
            try apply keeps_paid_ensureMultisigEntry).
    all: match goal with H : paid ?d |- _ => apply (paid_same_payments d); [|exact H] end.
    all: same_table.
Qed.

(** X14. In every store that the server can reach, under any interleaving
    of requests, the payments have distinct identifiers; every payment on
    record is confirmed and is for at least the minimum amount; and a
    consumed payment has purpose [repo_init] or [otp_share]: a payment of
    any other purpose, [multisig_setup] included, is never consumed. *)
Theorem reachable_paid (db : DB) :
  reachable db ->
  NoDup (map Payments.id (payments db))
  /\ (forall p, In p (payments db) ->
        Payments.status p = "confirmed"
        /\ MIN_PAYMENT_ATOMIC cfg <= Payments.token_amount_atomic p)
  /\ (forall p, In p (payments db) ->
        Payments.purpose p <> "repo_init" -> Payments.purpose p <> "otp_share" ->
        Payments.consumed_at p = None).
Proof.
  intros Hreach.
  assert (H : paid db).
  { apply (reachable_keeps paid keeps_paid_handle); [|exact Hreach].
    split; [reflexivity | intros p []]. }
  destruct H as [Hk Hp]. split; [now apply distinct_NoDup|]. split.
  - intros p Hin. destruct (Hp p Hin) as (H1 & H2 & _). auto.
  - intros p Hin Hn1 Hn2. destruct (Hp p Hin) as (_ & _ & H3).
    destruct (Payments.consumed_at p) as [t|]; [|reflexivity].
    destruct H3 as [H | H]; [discriminate | contradiction | contradiction].
Qed.


(** ** Approval requests and their signatures *)

Lemma tallied_same (db db' : DB) :
  multisig_pushes db' = multisig_pushes db ->
  multisig_signatures db' = multisig_signatures db -> tallied db -> tallied db'.
Proof. unfold tallied. intros -> ->. auto. Qed.

Lemma tallied_insert_push (id repoId pushTx : string) (branch : option string)
    (required now : Z) (db : DB) :
  1 <= required -> tallied db ->
  tallied (fst (attempt_ (insert_multisig_push_on_conflict_do_nothing
                            id repoId pushTx branch required now) db)).
Proof.
  intros Hreq Ht. unfold attempt_, insert_multisig_push_on_conflict_do_nothing.
  destruct (existsb (same_push repoId pushTx) (multisig_pushes db)); [exact Ht|].
  destruct (existsb (fun r => String.eqb (MultisigPushes.id r) id) (multisig_pushes db))
    eqn:Hid; [exact Ht|].
  cbn [fst]. destruct Ht as (T1 & T2 & T3 & T4).
  rewrite (existsb_key_includes MultisigPushes.id) in Hid.
  unfold tallied. cbn [multisig_pushes multisig_signatures with_multisig_pushes].
  split; [|split; [|split]].
  - rewrite map_app. cbn [map]. now apply distinct_app_fresh.
  - intros s Hs. rewrite map_app. apply in_or_app. left. now apply T2.
  - exact T3.
  - intros m Hin. apply in_app_or in Hin. destruct Hin as [Hin | [<- | []]];
      [now apply T4|].
    unfold tally_ok. cbn.
    split; [|split; [exact Hreq | split; [now right | split; split]]];
      try discriminate; try lia; try congruence.
    symmetry. apply count_where_none. intros s Hs.
    destruct (String.eqb (MultisigSignatures.multisig_push_id s) id) eqn:E;
      [|reflexivity].
    apply String.eqb_eq in E. specialize (T2 s Hs). rewrite E in T2.
    apply includes_In in T2. congruence.
Qed.

Lemma tallied_ensure (id repoId pushTx : string) (branch : option string) (now : Z)
    (signers : list string) (stored : option Z) (n : JS.number) (db : DB) :
  calcThreshold signers (option_map JS.of_Z stored) = Some n -> tallied db ->
  tallied (fst (attempt_ (with_integer n
                            (fun required =>
                               insert_multisig_push_on_conflict_do_nothing
                                 id repoId pushTx branch required now)) db)).
Proof.
  intros Hn Ht.
  assert (H : forall z, pg_integer n = inr z ->
            tallied (fst (attempt_ (insert_multisig_push_on_conflict_do_nothing
                                      id repoId pushTx branch z now) db))).
  { intros z Hz. apply tallied_insert_push; [|exact Ht].
    destruct (computed_threshold_whole _ _ _ _ Hn Hz) as [Hr _]. lia. }
  unfold attempt_, with_integer in *.
  destruct (pg_integer n) as [e|z]; [exact Ht | exact (H z eq_refl)].
Qed.

Lemma count_where_snoc {A : Type} (cond : A -> bool) (l : list A) (x : A) :
  count_where cond (l ++ [x]) = count_where cond l + (if cond x then 1 else 0).
Proof.
  rewrite count_where_app. unfold count_where at 2. cbn.
  destruct (cond x); reflexivity.
Qed.


Lemma tallied_approve (env : Env) (repo : Repos.row)
    (txId signer signatureB64 : string) (db : DB) :
  tallied db ->
  tallied (fst (transaction (approve_transaction env repo txId signer signatureB64) db)).
Proof.
  intros Ht. unfold transaction. rewrite approve_transaction_spec.
  destruct (select_multisig_push (Repos.id repo) txId db) as [push|] eqn:Hpush;
    [|exact Ht].
  cbv zeta.
  set (sig := new_signature_row env (MultisigPushes.id push) signer signatureB64).
  destruct (insert_multisig_signature sig db) as [e|db1] eqn:Hins.
  { destruct (String.eqb (code e) "23505"); exact Ht. }
  assert (Hfresh : existsb (same_signature (MultisigPushes.id push) signer)
                     (multisig_signatures db) = false).
  { unfold insert_multisig_signature in Hins.
    destruct (existsb (fun r => String.eqb (MultisigSignatures.id r)
                                  (MultisigSignatures.id sig)) (multisig_signatures db));
      [discriminate|].
    change (MultisigSignatures.multisig_push_id sig) with (MultisigPushes.id push) in Hins.
    change (MultisigSignatures.signer sig) with signer in Hins.
    destruct (existsb (same_signature (MultisigPushes.id push) signer)
                (multisig_signatures db)); [discriminate | reflexivity]. }
  assert (Hin : In push (multisig_pushes db)).
  { unfold select_multisig_push in Hpush. apply find_some in Hpush. tauto. }
  destruct (record_approval_db env push sig db) as (_ & _ & _ & Hsigs & Hpushes).
  destruct (record_approval env push sig db) as [db' a]. cbn [fst] in *.
  destruct Ht as (T1 & T2 & T3 & T4).
  set (c := count_multisig_signatures (MultisigPushes.id push)
              (with_multisig_signatures (multisig_signatures db ++ [sig])%list db)) in *.
  assert (Hc : c = MultisigPushes.approvals_count push + 1).
  { unfold c. rewrite count_signatures_app by reflexivity.
    destruct (T4 push Hin) as (H1 & _). rewrite H1. reflexivity. }
  set (F := if (MultisigPushes.approvals_required push <=? c)
               && negb (String.eqb (MultisigPushes.status push) "approved")
            then MultisigPushes.set_approved c (NOW env)
            else MultisigPushes.set_approvals_count c) in *.
  assert (Hkey : forall x, MultisigPushes.id (F x) = MultisigPushes.id x).
  { intros x. unfold F. destruct (_ && _); reflexivity. }
  unfold tallied. rewrite Hsigs, Hpushes.
  rewrite (update_where_keys MultisigPushes.id) by exact Hkey.
  split; [exact T1|]. split; [|split].
  - intros s Hs. apply in_app_or in Hs. destruct Hs as [Hs | [<- | []]]; [now apply T2|].
    cbn. apply in_map. exact Hin.
  - rewrite map_app. cbn [map]. apply NoDup_app; [exact T3 | repeat constructor; intros [] |].
    intros pr Hpr [Heq | []]. subst pr. apply in_map_iff in Hpr.
    destruct Hpr as (s & Hs1 & Hs2).
    cbn in Hs1. injection Hs1 as H1 H2.
    pose proof (existsb_false_In _ _ s Hfresh Hs2) as Hno. unfold same_signature in Hno.
    rewrite H1, H2, !String.eqb_refl in Hno. discriminate.
  - intros m' Hm'. apply update_where_In in Hm'. destruct Hm' as (x & Hx & ->).
    destruct (T4 x Hx) as (H1 & H2 & H3 & H4 & H5).
    destruct (String.eqb (MultisigPushes.id x) (MultisigPushes.id push)) eqn:E.
    + apply String.eqb_eq in E.
      assert (x = push) by (eapply (keyed_unique MultisigPushes.id); eauto). subst x.
      assert (Hcount : count_where
                         (fun s => String.eqb (MultisigSignatures.multisig_push_id s)
                                     (MultisigPushes.id push))
                         (multisig_signatures db ++ [sig])%list = c) by reflexivity.
      unfold tally_ok, F.
      destruct (MultisigPushes.approvals_required push <=? c) eqn:Ereq;
        destruct (String.eqb (MultisigPushes.status push) "approved") eqn:Est;
        cbn [andb negb MultisigPushes.set_approved MultisigPushes.set_approvals_count
             MultisigPushes.id MultisigPushes.approvals_count
             MultisigPushes.approvals_required MultisigPushes.status
             MultisigPushes.approved_at];
        rewrite Hcount;
        first [apply Z.leb_le in Ereq | apply Z.leb_gt in Ereq];
        first [apply String.eqb_eq in Est | apply String.eqb_neq in Est].
      * split; [reflexivity|]. split; [exact H2|]. split; [exact H3|].
        split; [|exact H5]. split; [intros _; exact Ereq | intros _; exact Est].
      * split; [reflexivity|]. split; [exact H2|]. split; [now left|].
        split; [split; [intros _; exact Ereq | reflexivity]|].
        split; [discriminate | reflexivity].
      * exfalso. apply H4 in Est. lia.
      * split; [reflexivity|]. split; [exact H2|]. split; [exact H3|].
        split; [|exact H5]. split; [contradiction | lia].
    + unfold tally_ok. rewrite count_where_snoc.
      change (MultisigSignatures.multisig_push_id sig) with (MultisigPushes.id push).
      rewrite String.eqb_sym, E, Z.add_0_r. auto.
Qed.


Lemma keeps_tallied_getRepoByOwnerAndName (owner name : option string) :
  keeps tallied (getRepoByOwnerAndName owner name).
Proof. unfold getRepoByOwnerAndName. repeat keeps_step. assumption. Qed.

Lemma keeps_tallied_lookup_repo (repoId owner name : option string) :
  keeps tallied (lookup_repo repoId owner name).
Proof.
  unfold lookup_repo. repeat keeps_step;
    try assumption; apply keeps_tallied_getRepoByOwnerAndName.
Qed.

Lemma keeps_tallied_ensureMultisigEntry (id : string) (now : Z)
    (repo : option Repos.row) (pushTx : string) (branch : option string) :
  keeps tallied (ensureMultisigEntry id now repo pushTx branch).
Proof.
  unfold ensureMultisigEntry. repeat keeps_step; try assumption.
  eapply tallied_ensure; eassumption.
Qed.

(** Closes a goal of [tallied] after a statement that writes to neither
    table. *)
Ltac tallied_untouched :=
  match goal with
  | H : tallied ?d |- _ => apply (tallied_same d); [same_table | same_table | exact H]
  end.

Lemma tallied_repos_transaction (env : Env) (name owner : string) (b : ReposBody)
    (h : string) (db : DB) :
  tallied db -> tallied (fst (transaction (repos_transaction env name owner b h) db)).
Proof.
  intros Ht. unfold transaction. rewrite repos_transaction_spec.
  destruct (lock_payment h "repo_init" db) as [e | [db' p]]; [exact Ht|].
  destruct (integer_or_null _) as [e|threshold]; [exact Ht|].
  cbv zeta. destruct (repo_owner_name_taken _ db); [exact Ht|].
  destruct (repo_pkey_taken _ db); exact Ht.
Qed.

Lemma tallied_otp_transaction (env : Env) (repo : Repos.row) (bundleTx h : string)
    (b : OtpRequestBody) (db : DB) :
  tallied db -> tallied (fst (transaction (otp_transaction env repo bundleTx h b) db)).
Proof.
  intros Ht. unfold transaction. rewrite otp_transaction_spec.
  destruct (lock_payment h "otp_share" db) as [e | [db' p]]; [exact Ht|].
  cbv zeta. destruct (existsb _ (otp_tokens db)); exact Ht.
Qed.

Lemma keeps_tallied_handle (env : Env) (req : request) : keeps tallied (handle env req).
Proof.
  destruct req as [b | b | b | b | b | b | b]; cbn [handle].
  - unfold post_payments_verify. cbv zeta. repeat keeps_step; try assumption.
    unfold verify_after_select, verifyTokenPayment.
    repeat keeps_step; try assumption; tallied_untouched.
  - unfold post_repos. repeat keeps_step. now apply tallied_repos_transaction.
  - unfold post_otp_request. repeat keeps_step;
      try apply keeps_tallied_lookup_repo. now apply tallied_otp_transaction.
  - unfold post_otp_redeem. repeat keeps_step; try assumption.
    unfold redeem_after_select. repeat keeps_step. tallied_untouched.
  - unfold post_multisig_approve. repeat keeps_step;
      try apply keeps_tallied_lookup_repo. now apply tallied_approve.
  - unfold post_multisig_setup. cbv zeta. unfold setup_finish.
    repeat (keeps_step; try assumption;
            try apply keeps_tallied_getRepoByOwnerAndName;
            try apply keeps_tallied_ensureMultisigEntry).
    all: tallied_untouched.
  - unfold post_push_log. repeat (keeps_step; try assumption;
            try apply keeps_tallied_getRepoByOwnerAndName;
            try apply keeps_tallied_ensureMultisigEntry).
    all: tallied_untouched.
Qed.

(** X15. In every store that the server can reach, under any interleaving
    of requests: approval requests have distinct identifiers; every
    signature belongs to an approval request on record, and no signer has
    two signatures on the same request; and for every approval request the
    stored count is the number of its signatures, the requirement is at
    least one, the status is [pending] or [approved], and the request is
    approved, and carries a time of approval, exactly when the number of
    its signatures has reached the requirement. *)
Theorem reachable_tallied (db : DB) :
  reachable db ->
  NoDup (map MultisigPushes.id (multisig_pushes db))
  /\ (forall s, In s (multisig_signatures db) ->
        exists m, In m (multisig_pushes db)
                  /\ MultisigPushes.id m = MultisigSignatures.multisig_push_id s)
  /\ NoDup (map (fun s => (MultisigSignatures.multisig_push_id s,
                           MultisigSignatures.signer s)) (multisig_signatures db))
  /\ (forall m, In m (multisig_pushes db) ->
        MultisigPushes.approvals_count m
        = count_multisig_signatures (MultisigPushes.id m) db
        /\ 1 <= MultisigPushes.approvals_required m
        /\ (MultisigPushes.status m = "approved" \/ MultisigPushes.status m = "pending")
        /\ (MultisigPushes.status m = "approved"
            <-> MultisigPushes.approvals_required m
                <= count_multisig_signatures (MultisigPushes.id m) db)
        /\ (MultisigPushes.status m = "approved"
            <-> MultisigPushes.approved_at m <> None)).
Proof.
  intros Hreach.
  assert (H : tallied db).
  { apply (reachable_keeps tallied keeps_tallied_handle); [|exact Hreach].
    split; [reflexivity|]. split; [intros s []|]. split; [constructor | intros m []]. }
  destruct H as (T1 & T2 & T3 & T4).
  split; [now apply distinct_NoDup|]. split; [|split; [exact T3|]].
  - intros s Hs. specialize (T2 s Hs). apply in_map_iff in T2.
    destruct T2 as (m & Hm1 & Hm2). eauto.
  - intros m Hm. destruct (T4 m Hm) as (H1 & H2 & H3 & H4 & H5).
    unfold count_multisig_signatures. rewrite <- H1. auto.
Qed.


(* ================================================================== *)
(** * Token amounts *)
(* ================================================================== *)

Lemma append_assoc_string (a b c : string) : ((a ++ b) ++ c = a ++ (b ++ c))%string.
Proof. induction a as [|x a IH]; cbn; [reflexivity | now rewrite IH]. Qed.

Lemma append_empty_r (a : string) : (a ++ "")%string = a.
Proof. induction a as [|x a IH]; cbn; [reflexivity | now rewrite IH]. Qed.

Lemma length_append_string (a b : string) :
  String.length (a ++ b) = (String.length a + String.length b)%nat.
Proof. induction a as [|x a IH]; cbn; [reflexivity | now rewrite IH]. Qed.

Lemma all_chars_app (p : ascii -> bool) (a b : string) :
  all_chars p (a ++ b) = all_chars p a && all_chars p b.
Proof.
  induction a as [|x a IH]; cbn; [reflexivity|]. rewrite IH. apply andb_assoc.
Qed.

Lemma all_chars_impl (p q : ascii -> bool) (s : string) :
  (forall c, p c = true -> q c = true) -> all_chars p s = true -> all_chars q s = true.
Proof.
  intros H. induction s as [|c s IH]; cbn; [reflexivity|].
  intros Hs. apply andb_prop in Hs. destruct Hs as [H1 H2].
  now rewrite (H c H1), IH.
Qed.

Lemma digit_cases (d : Z) :
  0 <= d < 10 ->
  d = 0 \/ d = 1 \/ d = 2 \/ d = 3 \/ d = 4 \/ d = 5 \/ d = 6 \/ d = 7 \/ d = 8 \/ d = 9.
Proof. lia. Qed.

Lemma digit_char_spec (d : Z) :
  0 <= d < 10 ->
  JS.is_digit (JS.digit_char d) = true /\ JS.digit_value (JS.digit_char d) = Some d.
Proof.
  intros H. destruct (digit_cases d H) as [-> | [-> | [-> | [-> | [-> | [-> | [-> | [-> |
    [-> | ->]]]]]]]]]; split; reflexivity.
Qed.

Lemma parse_digits_app_digit (s rest : string) (n a : Z) :
  (forall rest' a', JS.parse_digits 10 (s ++ rest') a'
                    = JS.parse_digits 10 rest'
                        (a' * 10 ^ Z.of_nat (String.length s) + n)) ->
  forall d, 0 <= d < 10 ->
  JS.parse_digits 10 ((s ++ String (JS.digit_char d) "") ++ rest) a
  = JS.parse_digits 10 rest
      (a * 10 ^ Z.of_nat (String.length (s ++ String (JS.digit_char d) "")) + (n * 10 + d)).
Proof.
  intros Hs d Hd. rewrite append_assoc_string. cbn [append]. rewrite Hs.
  cbn [JS.parse_digits]. destruct (digit_char_spec d Hd) as [_ ->].
  destruct (Z.ltb_spec d 10); [|lia]. f_equal.
  rewrite length_append_string. cbn [String.length].
  rewrite Nat2Z.inj_add, Z.pow_add_r by lia. change (Z.of_nat 1) with 1. lia.
Qed.

(** The digits that [digits] puts in front of its accumulator read back as
    the number. *)
Lemma digits_spec (fuel : nat) :
  forall n acc, 0 <= n < 2 ^ Z.of_nat (S fuel) ->
  exists ds,
    JS.digits (S fuel) n acc = (ds ++ acc)%string
    /\ all_chars JS.is_digit ds = true /\ ds <> ""
    /\ forall rest a, JS.parse_digits 10 (ds ++ rest) a
                      = JS.parse_digits 10 rest
                          (a * 10 ^ Z.of_nat (String.length ds) + n).
Proof.
  assert (Hsmall : forall n acc, 0 <= n < 10 ->
            exists ds,
              String (JS.digit_char (n mod 10)) acc = (ds ++ acc)%string
              /\ all_chars JS.is_digit ds = true /\ ds <> ""
              /\ forall rest a, JS.parse_digits 10 (ds ++ rest) a
                                = JS.parse_digits 10 rest
                                    (a * 10 ^ Z.of_nat (String.length ds) + n)).
  { intros n acc Hn. exists (String (JS.digit_char n) "").
    rewrite Z.mod_small by lia.
    destruct (digit_char_spec n Hn) as [H1 H2].
    split; [reflexivity|]. split; [cbn; now rewrite H1|]. split; [discriminate|].
    intros rest a. cbn. rewrite H2. destruct (Z.ltb_spec n 10); [|lia]. f_equal; lia. }
  induction fuel as [|fuel IH]; intros n acc Hn.
  - cbn [JS.digits]. change (2 ^ Z.of_nat 1) with 2 in Hn.
    destruct (Z.ltb_spec n 10); [|lia]. apply Hsmall. lia.
  - change (JS.digits (S (S fuel)) n acc)
      with (if n <? 10 then String (JS.digit_char (n mod 10)) acc
            else JS.digits (S fuel) (n / 10) (String (JS.digit_char (n mod 10)) acc)).
    destruct (Z.ltb_spec n 10) as [Hlt|Hge]; [apply Hsmall; lia|].
    assert (Hdiv : 0 <= n / 10 < 2 ^ Z.of_nat (S fuel)).
    { rewrite (Nat2Z.inj_succ (S fuel)), Z.pow_succ_r in Hn by lia.
      split; [apply Z.div_pos; lia|].
      apply Z.div_lt_upper_bound; lia. }
    destruct (IH (n / 10) (String (JS.digit_char (n mod 10)) acc) Hdiv)
      as (ds & Hds & Hall & Hne & Hparse).
    assert (Hmod : 0 <= n mod 10 < 10) by (apply Z.mod_pos_bound; lia).
    exists (ds ++ String (JS.digit_char (n mod 10)) "")%string.
    split; [rewrite Hds, append_assoc_string; reflexivity|].
    split; [rewrite all_chars_app, Hall; cbn;
            destruct (digit_char_spec _ Hmod) as [-> _]; reflexivity|].
    split; [destruct ds; [contradiction | discriminate]|].
    intros rest a.
    rewrite (parse_digits_app_digit ds rest (n / 10) a Hparse _ Hmod).
    f_equal. f_equal. pose proof (Z.div_mod n 10). lia.
Qed.


Lemma BigInt_toString_spec (n : Z) :
  0 <= n ->
  exists ds,
    JS.BigInt_toString n = ds
    /\ all_chars JS.is_digit ds = true /\ ds <> ""
    /\ forall rest a, JS.parse_digits 10 (ds ++ rest) a
                      = JS.parse_digits 10 rest
                          (a * 10 ^ Z.of_nat (String.length ds) + n).
Proof.
  intros Hn. unfold JS.BigInt_toString. destruct (Z.ltb_spec n 0); [lia|].
  destruct (digits_spec (Z.to_nat (Z.log2 n)) n "") as (ds & Hds & Hspec).
  - split; [exact Hn|]. rewrite Nat2Z.inj_succ, Z2Nat.id by apply Z.log2_nonneg.
    destruct (Z.eq_dec n 0) as [->|Hz]; [reflexivity|].
    apply Z.log2_spec. lia.
  - exists ds. rewrite Hds, append_empty_r. auto.
Qed.

Lemma repeat_succ (c : ascii) (n : nat) : JS.repeat c (S n) = String c (JS.repeat c n).
Proof. reflexivity. Qed.

Lemma repeat_length (c : ascii) (n : nat) : String.length (JS.repeat c n) = n.
Proof. induction n as [|n IH]; [reflexivity|]. rewrite repeat_succ. cbn. now rewrite IH. Qed.

Lemma repeat_app (c : ascii) (n m : nat) :
  JS.repeat c (n + m) = (JS.repeat c n ++ JS.repeat c m)%string.
Proof.
  induction n as [|n IH]; [reflexivity|].
  cbn [Nat.add]. rewrite !repeat_succ. cbn. now rewrite IH.
Qed.

Lemma repeat_zero_digits (n : nat) : all_chars JS.is_digit (JS.repeat "0" n) = true.
Proof. induction n as [|n IH]; [reflexivity|]. rewrite repeat_succ. cbn. exact IH. Qed.

Lemma parse_leading_zeros (n : nat) (rest : string) :
  JS.parse_digits 10 (JS.repeat "0" n ++ rest) 0 = JS.parse_digits 10 rest 0.
Proof. induction n as [|n IH]; [reflexivity|]. rewrite repeat_succ. cbn. exact IH. Qed.

Lemma substring_app_left (a b : string) : String.substring 0 (String.length a) (a ++ b) = a.
Proof.
  induction a as [|x a IH]; cbn.
  - destruct b; reflexivity.
  - now rewrite IH.
Qed.

Lemma substring_app_right (a b : string) (m : nat) :
  String.substring (String.length a) m (a ++ b) = String.substring 0 m b.
Proof. induction a as [|x a IH]; cbn; [reflexivity | exact IH]. Qed.

Lemma substring_all (s : string) : String.substring 0 (String.length s) s = s.
Proof.
  pose proof (substring_app_left s "") as H. now rewrite append_empty_r in H.
Qed.

Lemma string_split_at (s : string) (n : nat) :
  (n <= String.length s)%nat ->
  exists a b, s = (a ++ b)%string /\ String.length a = n.
Proof.
  revert n. induction s as [|c s IH]; intros n Hn.
  - exists "", "". cbn in *. split; [reflexivity | lia].
  - destruct n as [|n].
    + exists "", (String c s). split; reflexivity.
    + cbn in Hn. destruct (IH n) as (a & b & -> & <-); [lia|].
      exists (String c a), b. split; reflexivity.
Qed.

Lemma strip_trailing_zeros_spec (s : string) :
  exists j, s = (JS.strip_trailing_zeros s ++ JS.repeat "0" j)%string.
Proof.
  induction s as [|c s [j IH]]; [exists 0%nat; reflexivity|].
  cbn [JS.strip_trailing_zeros].
  destruct (JS.strip_trailing_zeros s) as [|d r] eqn:E.
  - cbn [append] in IH. destruct (Ascii.eqb_spec c "0") as [->|Hc].
    + exists (S j). rewrite repeat_succ. cbn. now rewrite <- IH.
    + exists j. cbn. now rewrite <- IH.
  - exists j. cbn [append]. cbn [append] in IH. now rewrite <- IH.
Qed.

Lemma strip_trailing_zeros_chars (p : ascii -> bool) (s : string) :
  all_chars p s = true -> all_chars p (JS.strip_trailing_zeros s) = true.
Proof.
  induction s as [|c s IH]; [reflexivity|]. cbn [all_chars JS.strip_trailing_zeros].
  intros H. apply andb_prop in H. destruct H as [H1 H2]. specialize (IH H2).
  destruct (JS.strip_trailing_zeros s) as [|d r].
  - destruct (Ascii.eqb c "0"); [reflexivity|]. cbn. now rewrite H1.
  - cbn [all_chars] in *. now rewrite H1.
Qed.

End Server.

(* ================================================================== *)
(** * The properties on the small deployment *)
(* ================================================================== *)

Abbreviation sample_handle :=
  (handle Sample.cfg Sample.Buffer_from_base64 Sample.PublicKey_toBytes
     Sample.nacl_sign_detached_verify).

Abbreviation sample_serve :=
  (serve Sample.cfg Sample.Buffer_from_base64 Sample.PublicKey_toBytes
     Sample.nacl_sign_detached_verify Sample.chain).

Abbreviation sample_serve_all :=
  (serve_all Sample.cfg Sample.Buffer_from_base64 Sample.PublicKey_toBytes
     Sample.nacl_sign_detached_verify Sample.chain).

(** The server, started on an empty database, is brought by the history to
    the sample store. *)
Lemma sample_store_served : sample_serve_all Sample.history empty_db = Sample.store.
Proof. vm_compute. reflexivity. Qed.

Lemma sample_store_inv : inv Sample.store.
Proof.
  rewrite <- sample_store_served.
  apply (serve_all_safe Sample.cfg Sample.Buffer_from_base64 Sample.PublicKey_toBytes
           Sample.nacl_sign_detached_verify Sample.chain Sample.history empty_db).
  apply inv_empty.
Qed.

(** Thresholds of three signers: 2 when 2 is requested, 2 when none is;
    and the threshold of one signer when one half is requested. *)
Lemma C8_witness :
  ["A"; "B"; "C"] <> []
  /\ (exists t, calcThreshold ["A"; "B"; "C"] (Some (JS.of_Z 2)) = Some t
                /\ (t = JS.of_Z 2 <-> 1 <= 2 <= 3))
  /\ calcThreshold ["A"; "B"; "C"] None = Some (JS.of_Z (JS.Math_ceil_half 3))
  /\ (exists t, calcThreshold ["A"] (Some (JS.Finite (1 # 2))) = Some t
                /\ (t = JS.Finite (1 # 2) <-> positive_up_to (JS.Finite (1 # 2)) 1)).
Proof.
  assert (Hne : ["A"; "B"; "C"] <> []) by discriminate.
  assert (Hne1 : ["A"] <> []) by discriminate.
  split; [exact Hne|].
  destruct (C8_effective_threshold Sample.cfg Sample.Buffer_from_base64
              Sample.PublicKey_toBytes Sample.nacl_sign_detached_verify)
    as (H1 & H2 & _).
  split; [|split].
  - destruct (H1 ["A"; "B"; "C"] (JS.of_Z 2) Hne) as (t & Ht & _ & _ & Hiff).
    exists t. split; [exact Ht | exact (proj1 (Hiff 2 eq_refl))].
  - exact (H2 ["A"; "B"; "C"] Hne).
  - destruct (H1 ["A"] (JS.Finite (1 # 2)) Hne1) as (t & Ht & Hiff & _).
    exists t. split; [exact Ht | exact Hiff].
Defined.

(** C8, on the code. One signer and a requested threshold of one half:
    the request is not within [1 <= requested <= 1], yet the effective
    threshold is the requested one half and not [ceil(1/2) = 1]. *)
Lemma C8_counterexample :
  let signers := ["A"] in
  let requested := JS.Finite (1 # 2) in
  signers <> []
  /\ ~ (1 <= 1 # 2)%Q
  /\ JS.Math_ceil_half (List.length signers) = 1
  /\ calcThreshold signers (Some requested) = Some requested
  /\ calcThreshold signers (Some requested)
     <> Some (JS.of_Z (JS.Math_ceil_half (List.length signers))).
Proof.
  cbv zeta. split; [discriminate|]. split; [intros H; now apply H|].
  split; [reflexivity|]. split; [reflexivity|]. vm_compute. discriminate.
Qed.

(** The treasury receives an amount beyond 64 bits into an account that
    has no pre-transfer entry: the whole amount counts. *)
Lemma C10_witness :
  let dest := Sample.balance 2 "treasury" "36893488147419103232" in
  let m := {| Solana.err := false;
              Solana.preTokenBalances := Some [Sample.balance 1 "treasury" "5"];
              Solana.postTokenBalances := Some [dest] |} in
  exists d,
    verifyTokenPayment_check Sample.cfg (Some {| Solana.meta := Some m |})
    = inr {| amountAtomic := 36893488147419103232; chain_decimals := d |}.
Proof.
  intros dest m.
  destruct (C10_missing_pre_balance_counts_as_zero Sample.cfg m dest
              36893488147419103232) as [H _].
  - reflexivity.
  - reflexivity.
  - vm_compute. reflexivity.
  - apply H.
    + intros e [<- | []] _ _. cbn. lia.
    + lia.
Defined.

(** The record of [tx9] awaits confirmation; [tx9] is presented for its
    purpose [repo_init], and then once more. *)
Lemma C9_witness :
  let db := Sample.store_with_awaiting in
  let o := sample_serve (Sample.env "v" 2000) (Sample.verify "tx9" "repo_init") db in
  select_payment "tx9" db = Some Sample.awaiting
  /\ out_rpc o = []
  /\ out_value o = ok (PaymentJson (Sample.payment "p" "tx9" "repo_init" 900 None) true)
  /\ select_payment "tx9" (out_db o)
     = Some (Sample.payment "p" "tx9" "repo_init" 900 None)
  /\ sample_serve (Sample.env "w" 2100) (Sample.verify "tx9" "repo_init") (out_db o)
     = {| out_db := out_db o; out_value := out_value o; out_rpc := [] |}.
Proof.
  intros db o.
  destruct (C9_verify_replays_existing_record Sample.cfg Sample.Buffer_from_base64
              Sample.PublicKey_toBytes Sample.nacl_sign_detached_verify
              Sample.chain Sample.chain (Sample.env "v" 2000) (Sample.env "w" 2100)
              (Sample.verify_body "tx9" "repo_init") "tx9" Sample.awaiting
              Sample.store_with_awaiting
              eq_refl eq_refl eq_refl eq_refl eq_refl) as (H1 & _ & _ & _ & H5 & H6).
  destruct (H5 eq_refl) as (Hvalue & Hstored & _).
  split; [reflexivity|]. split; [exact H1|]. split; [exact Hvalue|].
  split; [exact Hstored | exact H6].
Defined.

(** The registration of [acme] in the history consumed [tx1]; after the
    rest of the history a registration of [acme2] presents [tx1] again. *)
Lemma C1_witness :
  let db := sample_serve_all (firstn 1 Sample.history) empty_db in
  let first := sample_serve (Sample.env "r" 1100)
                 (Sample.register "acme" "alice" [Some "A"; Some " B"; Some "C"]
                    (Some 2) "tx1") db in
  let later := sample_serve_all (skipn 2 Sample.history) (out_db first) in
  statusCode (out_value first) = 200
  /\ later = Sample.store
  /\ sample_serve (Sample.env "d" 2300)
       (Sample.register "acme2" "alice" [] None "tx1") later
     = {| out_db := later;
          out_value := fail_with 400 "repo_create_failed" "payment_already_consumed";
          out_rpc := [] |}.
Proof.
  intros db first later. split; [reflexivity|]. split; [vm_compute; reflexivity|].
  destruct (C1_payment_consumed_at_most_once Sample.cfg Sample.Buffer_from_base64
              Sample.PublicKey_toBytes Sample.nacl_sign_detached_verify)
    as (_ & _ & H & _).
  destruct (H Sample.chain Sample.chain (Sample.env "r" 1100) (Sample.env "d" 2300)
              (Sample.register_body "acme" "alice" [Some "A"; Some " B"; Some "C"]
                 (Some 2) "tx1")
              (Sample.register_body "acme2" "alice" [] None "tx1") db
              {| store := out_db first; in_flight := [] |}
              {| store := later; in_flight := [] |}) as [Hfail _].
  - apply serve_all_safe, inv_empty.
  - vm_compute. reflexivity.
  - reflexivity.
  - constructor.
  - apply serve_all_cluster_steps.
  - reflexivity.
  - reflexivity.
  - reflexivity.
  - exact Hfail.
Defined.

(** Alice pays [tx4] and registers [acme], which she already has. *)
Lemma C2_witness :
  let db := sample_serve_all [(Sample.env "v4" 1600, Sample.verify "tx4" "repo_init")]
              Sample.store in
  let o := sample_serve (Sample.env "a" 2000)
             (Sample.register " acme" "alice " [] None "tx4") db in
  o = {| out_db := db; out_value := fail_with 400 "repo_create_failed" "repo_exists";
         out_rpc := [] |}
  /\ option_map Payments.consumed_at (select_payment "tx4" (out_db o)) = Some None.
Proof.
  intros db o.
  destruct (C2_failed_creation_rolls_back Sample.cfg Sample.Buffer_from_base64
              Sample.PublicKey_toBytes Sample.nacl_sign_detached_verify)
    as (_ & _ & H & _).
  destruct (H Sample.chain (Sample.env "a" 2000)
              (Sample.register_body " acme" "alice " [] None "tx4")
              " acme" "alice " "tx4" (Sample.payment "v4" "tx4" "repo_init" 1600 None)
              Sample.acme db eq_refl eq_refl eq_refl eq_refl eq_refl eq_refl
              eq_refl eq_refl eq_refl eq_refl eq_refl) as (_ & Hexists & Hnull).
  split; [exact (Hexists None eq_refl) | exact Hnull].
Defined.

(** The ticket of the history is redeemed at time 30000; after two more
    requests its token is presented again. *)
Lemma C7_witness :
  let first := sample_serve (Sample.env "a" 30000) (Sample.redeem "otp-o") Sample.store in
  let later := sample_serve_all
                 [(Sample.env "b" 31000, Sample.redeem "nope");
                  (Sample.env "c" 32000, Sample.push_log "push10" "alice" "acme")]
                 (out_db first) in
  out_value first = ok (RedeemJson "uuid-r-1" "bundle1" "key-o")
  /\ sample_serve (Sample.env "d" 33000) (Sample.redeem "otp-o") later
     = {| out_db := later; out_value := fail 410 "otp_already_used"; out_rpc := [] |}.
Proof.
  intros first later. split; [vm_compute; reflexivity|].
  destruct (C7_redeem_once Sample.cfg Sample.Buffer_from_base64
              Sample.PublicKey_toBytes Sample.nacl_sign_detached_verify)
    as (_ & _ & H).
  apply (H Sample.chain Sample.chain (Sample.env "a" 30000) (Sample.env "d" 33000)
           (Sample.redeem_body "otp-o") (Sample.redeem_body "otp-o") Sample.store
           {| store := out_db first; in_flight := [] |}
           {| store := later; in_flight := [] |}).
  - exact sample_store_inv.
  - vm_compute. reflexivity.
  - reflexivity.
  - constructor.
  - apply serve_all_cluster_steps.
  - reflexivity.
Defined.

(** Signers A and B approve [push9], which requires 2 of A, B and C. *)
Lemma C5_witness :
  exists push',
    select_multisig_push "uuid-r-1" "push9"
      (sample_serve_all
         (approvals (Some "uuid-r-1") None None "push9"
            [Sample.submit "push9" "A" 2000; Sample.submit "push9" "B" 2100])
         Sample.store) = Some push'
    /\ MultisigPushes.status push' = "approved"
    /\ MultisigPushes.approved_at push' <> None
    /\ MultisigPushes.approvals_count push' = 2.
Proof.
  destruct (C5_quorum Sample.cfg Sample.Buffer_from_base64 Sample.PublicKey_toBytes
              Sample.nacl_sign_detached_verify Sample.chain (Some "uuid-r-1") None None
              "push9" Sample.acme Sample.push9
              [Sample.submit "push9" "A" 2000; Sample.submit "push9" "B" 2100]
              Sample.store)
    as (push' & H1 & _ & _ & H4 & _ & H6 & _).
  - reflexivity.
  - reflexivity.
  - reflexivity.
  - reflexivity.
  - cbn. lia.
  - reflexivity.
  - repeat constructor.
  - reflexivity.
  - reflexivity.
  - exists push'. split; [exact H1|].
    assert (Hk : MultisigPushes.approvals_required Sample.push9
                 <= Z.of_nat (List.length [Sample.submit "push9" "A" 2000;
                                           Sample.submit "push9" "B" 2100]))
      by (cbn; lia).
    destruct (H6 Hk) as [Hs Ha]. split; [exact Hs|]. split; [exact Ha|].
    apply H4. discriminate.
Defined.

(** Signer A approves [push9] and then submits the same approval again. *)
Lemma C6_witness :
  let first := sample_serve (Sample.env "A" 2000)
                 (approve_request (Some "uuid-r-1") None None "push9" "A"
                    (Sample.signature_of "push9" "A")) Sample.store in
  out_value first = ok (ApprovalJson "pending" 1 2)
  /\ sample_serve (Sample.env "A2" 2100)
       (approve_request (Some "uuid-r-1") None None "push9" "A"
          (Sample.signature_of "push9" "A"))
       (out_db first)
     = {| out_db := out_db first;
          out_value := fail_with 400 "multisig_approval_failed"
                         "signature_already_submitted";
          out_rpc := [] |}.
Proof.
  intros first. split; [vm_compute; reflexivity|].
  destruct (C6_second_approval_rejected Sample.cfg Sample.Buffer_from_base64
              Sample.PublicKey_toBytes Sample.nacl_sign_detached_verify
              Sample.chain Sample.chain (Sample.env "A" 2000) (Sample.env "A2" 2100)
              (Some "uuid-r-1") None None "push9" "A" (Sample.signature_of "push9" "A")
              (Sample.signature_of "push9" "A") Sample.store
              {| store := out_db first; in_flight := [] |}
              {| store := out_db first; in_flight := [] |}) as [H _].
  - exact sample_store_inv.
  - vm_compute. reflexivity.
  - reflexivity.
  - constructor.
  - apply steps_refl.
  - reflexivity.
  - intros repo' Hrepo'. vm_compute in Hrepo'. inversion Hrepo'. reflexivity.
  - exact H.
Defined.

(** Two callers verify [tx1] on an empty database: both look it up before
    either inserts. *)
Lemma C4_witness :
  let request := Sample.verify "tx1" "repo_init" in
  let db := out_db (sample_serve (Sample.env "w" 2000) request empty_db) in
  let o := run Sample.chain
             (snd (advance Sample.chain (sample_handle (Sample.env "l" 2001) request)
                     empty_db)) db in
  out_db o = db
  /\ exists e, out_value o = fail_with 400 "payment_verification_failed" (pg_message e)
               /\ (code e = "23505" \/ code e = "23502").
Proof.
  intros request db o.
  destruct (C4_losing_verifier_fails Sample.cfg Sample.Buffer_from_base64
              Sample.PublicKey_toBytes Sample.nacl_sign_detached_verify Sample.chain
              (Sample.env "l" 2001) (Sample.verify_body "tx1" "repo_init") "tx1"
              (Some Sample.transfer) {| amountAtomic := 10000000; chain_decimals := 6 |}
              (Sample.payment "w" "tx1" "repo_init" 2000 None)
              empty_db db) as (_ & H2 & (e & H3 & H4 & _) & _).
  - reflexivity.
  - reflexivity.
  - reflexivity.
  - reflexivity.
  - reflexivity.
  - reflexivity.
  - cbn. lia.
  - reflexivity.
  - reflexivity.
  - split; [exact H2|]. exists e. split; [exact H3 | exact H4].
Defined.

(** C4, on the code. Two callers verify the same transaction [tx1], which
    the ledger confirms.  Both look the hash up in the empty store and see
    no record; the first then verifies and inserts; the second verifies
    and inserts in turn.  The second does not get the stored record back:
    it gets 400 [payment_verification_failed] with the duplicate-key
    message, while the record of the first is in the store. *)
Lemma C4_counterexample :
  let A := sample_handle (Sample.env "A" 2000) (Sample.verify "tx1" "repo_init") in
  let B := sample_handle (Sample.env "B" 2001) (Sample.verify "tx1" "repo_init") in
  let '(db1, A1) := advance Sample.chain A empty_db in
  let '(db2, B1) := advance Sample.chain B db1 in
  let oA := run Sample.chain A1 db2 in
  let oB := run Sample.chain B1 (out_db oA) in
  out_value oA = ok (PaymentJson (Sample.payment "A" "tx1" "repo_init" 2000 None) false)
  /\ select_payment "tx1" (out_db oA)
     = Some (Sample.payment "A" "tx1" "repo_init" 2000 None)
  /\ out_value oB
     = fail_with 400 "payment_verification_failed"
         "duplicate key value violates unique constraint payments_tx_sig_key"
  /\ statusCode (out_value oB) <> 200
  /\ out_db oB = out_db oA.
Proof.
  vm_compute. repeat split; discriminate.
Qed.

(** C3, on the code. The payment [tx3] of the history, confirmed and of
    purpose [multisig_setup], pays for a setup for push [push1]; the same
    hash is then presented for a setup for push [push2].  Both calls
    answer 200 and open an approval request, the second is not refused
    with [payment_already_consumed], and the payment's consumed-at is null
    after the first and after the second. *)
Theorem C3_setup_replays_payment :
  let first := sample_serve (Sample.env "a" 2000) (Sample.setup "push1" "tx3")
                 Sample.store in
  let second := sample_serve (Sample.env "b" 2100) (Sample.setup "push2" "tx3")
                  (out_db first) in
  statusCode (out_value first) = 200
  /\ option_map Payments.consumed_at (select_payment "tx3" (out_db first)) = Some None
  /\ statusCode (out_value second) = 200
  /\ option_map Payments.consumed_at (select_payment "tx3" (out_db second)) = Some None
  /\ map MultisigPushes.push_tx (multisig_pushes (out_db second))
     = ["push9"; "push1"; "push2"].
Proof.
  vm_compute. repeat split; reflexivity.
Qed.


(* ------------------------------------------------------------------ *)
(** ** The further properties on the small deployment *)
(* ------------------------------------------------------------------ *)


(** The first verification of [tx1] on the empty store, and a second. *)
Lemma verify_then_replay_witness :
  let first := sample_serve (Sample.env "v1" 1000) (Sample.verify "tx1" "repo_init")
                 empty_db in
  let again := sample_serve (Sample.env "w" 1050) (Sample.verify "tx1" "repo_init")
                 (out_db first) in
  out_value first = ok (PaymentJson (Sample.payment "v1" "tx1" "repo_init" 1000 None) false)
  /\ out_rpc first = ["tx1"]
  /\ out_value again
     = ok (PaymentJson (Sample.payment "v1" "tx1" "repo_init" 1000 None) true)
  /\ out_rpc again = []
  /\ out_db again = out_db first.
Proof.
  intros first again.
  destruct (verify_then_replay Sample.cfg Sample.Buffer_from_base64
              Sample.PublicKey_toBytes Sample.nacl_sign_detached_verify
              Sample.chain Sample.chain (Sample.env "v1" 1000) (Sample.env "w" 1050)
              (Sample.verify_body "tx1" "repo_init") "tx1" "alice"
              (Some Sample.transfer)
              {| amountAtomic := 10000000; chain_decimals := 6 |} empty_db)
    as (H1 & H2 & _ & _ & _ & _ & H7 & H8 & H9).
  - reflexivity.
  - reflexivity.
  - reflexivity.
  - reflexivity.
  - reflexivity.
  - reflexivity.
  - reflexivity.
  - reflexivity.
  - vm_compute. reflexivity.
  - vm_compute. discriminate.
  - split; [exact H1|]. split; [exact H2|]. split; [exact H7|].
    split; [exact H8 | exact H9].
Defined.


(** A redemption with a token that no ticket carries. *)
Lemma refusal_leaves_store_witness :
  statusCode (out_value (sample_serve (Sample.env "x" 2000) (Sample.redeem "nope")
                           Sample.store)) <> 200
  /\ out_db (sample_serve (Sample.env "x" 2000) (Sample.redeem "nope") Sample.store)
     = Sample.store.
Proof.
  assert (H : statusCode (out_value (sample_serve (Sample.env "x" 2000)
                                       (Sample.redeem "nope") Sample.store)) <> 200)
    by (vm_compute; discriminate).
  split; [exact H|].
  exact (refusal_leaves_store Sample.cfg Sample.Buffer_from_base64
           Sample.PublicKey_toBytes Sample.nacl_sign_detached_verify Sample.chain
           (Sample.env "x" 2000) (Sample.redeem "nope") Sample.store I H).
Defined.

(** The approval request of [push9] is asked for again after the threshold
    of [acme] was changed to 1: the entry that requires 2 is returned. *)
Lemma ensureMultisigEntry_first_wins_witness :
  let db := sample_serve_all (firstn 2 Sample.history) empty_db in
  let first := run Sample.chain
                 (ensureMultisigEntry "uuid-p-2" 1200 (Some Sample.acme) "push9"
                    (Some "main")) db in
  let changed := {| Repos.id := "uuid-r-1"; Repos.name := "acme"; Repos.owner := "alice";
                    Repos.is_private := false; Repos.is_multisig := true;
                    Repos.threshold := Some 1; Repos.signers := ["A"; "B"];
                    Repos.payment_tx := Some "tx1"; Repos.created_at := 1100 |} in
  out_value first = inr (Some Sample.push9)
  /\ run Sample.chain
       (ensureMultisigEntry "uuid-q-2" 5000 (Some changed) "push9" None) (out_db first)
     = {| out_db := out_db first; out_value := inr (Some Sample.push9); out_rpc := [] |}.
Proof.
  intros db first changed.
  assert (Hv : out_value first = inr (Some Sample.push9)) by reflexivity.
  split; [exact Hv|].
  destruct (ensureMultisigEntry_first_wins Sample.chain Sample.chain
              "uuid-p-2" "uuid-q-2" 1200 5000 Sample.acme changed "push9"
              (Some "main") None db Sample.push9 Hv) as (_ & _ & _ & _ & _ & H).
  apply H; [reflexivity | discriminate].
Defined.

(** The push [push9] of the history is logged a second time. *)
Lemma push_log_twice_witness :
  let db := sample_serve_all (firstn 2 Sample.history) empty_db in
  let first := sample_serve (Sample.env "p" 1200) (Sample.push_log "push9" "alice" "acme")
                 db in
  statusCode (out_value first) = 200
  /\ sample_serve (Sample.env "q" 1250) (Sample.push_log "push9" "alice" "acme")
       (out_db first)
     = {| out_db := out_db first; out_value := out_value first; out_rpc := [] |}.
Proof.
  intros db first.
  assert (Hok : statusCode (out_value first) = 200) by reflexivity.
  split; [exact Hok|].
  destruct (push_log_twice Sample.cfg Sample.Buffer_from_base64
              Sample.PublicKey_toBytes Sample.nacl_sign_detached_verify
              Sample.chain Sample.chain (Sample.env "p" 1200) (Sample.env "q" 1250)
              {| l_txId := Some "push9"; l_owner := Some "alice"; l_repo := Some "acme";
                 l_branch := Some "main"; l_encrypted := false |} db Hok)
    as (_ & _ & _ & _ & _ & H).
  exact H.
Defined.

(** Alice sets up multisig for [push1] with [tx3]; and, in another run,
    asks for a threshold of one and a half. *)
Lemma setup_success_witness :
  let o := sample_serve (Sample.env "s" 3000) (Sample.setup "push1" "tx3") Sample.store in
  let half := PostMultisigSetup
                {| s_repoId := None; s_owner := Some "alice"; s_name := Some "acme";
                   s_pushTx := Some "push1"; s_signers := SignersString "A, B,C";
                   s_threshold := JS.Finite (3 # 2); s_paymentTxSig := Some "tx3" |} in
  (exists repo entry,
      out_value o = ok (SetupJson (Some repo) (summary (Some entry)))
      /\ Repos.is_multisig repo = true /\ Repos.threshold repo = Some 2
      /\ select_multisig_push (Repos.id repo) "push1" (out_db o) = Some entry)
  /\ statusCode (out_value (sample_serve (Sample.env "s" 3000) half Sample.store)) = 400
  /\ out_db (sample_serve (Sample.env "s" 3000) half Sample.store) = Sample.store.
Proof.
  intros o half.
  destruct (setup_success Sample.cfg Sample.Buffer_from_base64
              Sample.PublicKey_toBytes Sample.nacl_sign_detached_verify Sample.chain
              (Sample.env "s" 3000)
              {| s_repoId := None; s_owner := Some "alice"; s_name := Some "acme";
                 s_pushTx := Some "push1"; s_signers := SignersString "A, B,C";
                 s_threshold := JS.of_Z 2; s_paymentTxSig := Some "tx3" |}
              Sample.store) as [H _].
  destruct (H eq_refl)
    as (pushTx & h & p & repo & entry & z & Hp & _ & _ & _ & _ & Hv & Hm & _ & Ht & Hz & _
        & _ & Hpush).
  injection Hp as <-. vm_compute in Hz. injection Hz as <-.
  split; [exists repo, entry; auto|].
  destruct (setup_success Sample.cfg Sample.Buffer_from_base64
              Sample.PublicKey_toBytes Sample.nacl_sign_detached_verify Sample.chain
              (Sample.env "s" 3000)
              {| s_repoId := None; s_owner := Some "alice"; s_name := Some "acme";
                 s_pushTx := Some "push1"; s_signers := SignersString "A, B,C";
                 s_threshold := JS.Finite (3 # 2); s_paymentTxSig := Some "tx3" |}
              Sample.store) as [_ H'].
  exact (H' (JS.Finite (3 # 2)) (invalid_text_representation "integer") eq_refl eq_refl).
Defined.

(** The user [alice] pushes with owners [" bob", "carol", "bob"]. *)
Lemma client_owners_reach_the_server_witness :
  CLI.uniqueOwners [" bob"; "carol"; "bob"] "alice" = ["bob"; "carol"; "alice"]
  /\ NoDup (CLI.uniqueOwners [" bob"; "carol"; "bob"] "alice")
  /\ parseSigners (SignersArray (map Some (CLI.uniqueOwners [" bob"; "carol"; "bob"] "alice")))
     = CLI.uniqueOwners [" bob"; "carol"; "bob"] "alice".
Proof.
  destruct (client_owners_reach_the_server [" bob"; "carol"; "bob"] "alice"
              eq_refl eq_refl) as (H1 & _ & _ & H4 & _).
  split; [reflexivity|]. split; [exact H1 | exact H4].
Defined.




(** The ticket of the history is redeemed at time 30000; two more requests
    are served. *)
Lemma history_is_kept_witness :
  let db := out_db (sample_serve (Sample.env "a" 30000) (Sample.redeem "otp-o")
                      Sample.store) in
  let later := sample_serve_all
                 [(Sample.env "b" 31000, Sample.redeem "nope");
                  (Sample.env "c" 32000, Sample.push_log "push10" "alice" "acme")] db in
  exists t', select_otp_token "otp-o" later = Some t'
             /\ OtpTokens.payment_tx t' = "tx2"
             /\ OtpTokens.used_at t' = Some 30000.
Proof.
  intros db later.
  assert (Hinv : inv db).
  { apply (serve_safe Sample.cfg Sample.Buffer_from_base64 Sample.PublicKey_toBytes
             Sample.nacl_sign_detached_verify Sample.chain (Sample.env "a" 30000)
             (Sample.redeem "otp-o") Sample.store sample_store_inv). }
  destruct (history_is_kept Sample.cfg Sample.Buffer_from_base64
              Sample.PublicKey_toBytes Sample.nacl_sign_detached_verify
              {| store := db; in_flight := [] |} {| store := later; in_flight := [] |}
              (serve_all_cluster_steps Sample.cfg Sample.Buffer_from_base64
                 Sample.PublicKey_toBytes Sample.nacl_sign_detached_verify Sample.chain
                 _ db)
              Hinv (Forall_nil _)) as (_ & _ & Ho & _).
  destruct (Ho "otp-o" (OtpTokens.set_used_at (Some 30000) Sample.ticket) eq_refl)
    as (t' & Hsel & _ & Hpay & Hused).
  exists t'. split; [exact Hsel|]. split; [exact Hpay | exact (Hused 30000 eq_refl)].
Defined.


Lemma sample_store_reachable :
  reachable Sample.cfg Sample.Buffer_from_base64 Sample.PublicKey_toBytes
    Sample.nacl_sign_detached_verify Sample.store.
Proof.
  exists []. rewrite <- sample_store_served. apply serve_all_cluster_steps.
Qed.

(** The payments that the history leaves on record. *)
Lemma reachable_paid_witness :
  Forall (fun p => Payments.status p = "confirmed"
                   /\ MIN_PAYMENT_ATOMIC Sample.cfg <= Payments.token_amount_atomic p)
    (payments Sample.store).
Proof.
  destruct (reachable_paid Sample.cfg Sample.Buffer_from_base64
              Sample.PublicKey_toBytes Sample.nacl_sign_detached_verify
              Sample.store sample_store_reachable) as (_ & H & _).
  apply Forall_forall. exact H.
Defined.

(** The approval requests after signers A and B approved [push9]. *)
Lemma reachable_tallied_witness :
  let db := sample_serve_all
              (approvals (Some "uuid-r-1") None None "push9"
                 [Sample.submit "push9" "A" 2000; Sample.submit "push9" "B" 2100])
              Sample.store in
  Forall (fun m => MultisigPushes.approvals_count m
                   = count_multisig_signatures (MultisigPushes.id m) db
                   /\ (MultisigPushes.status m = "approved"
                       <-> MultisigPushes.approvals_required m
                           <= count_multisig_signatures (MultisigPushes.id m) db))
    (multisig_pushes db).
Proof.
  intros db. apply Forall_forall.
  assert (Hreach : reachable Sample.cfg Sample.Buffer_from_base64
                     Sample.PublicKey_toBytes Sample.nacl_sign_detached_verify db).
  { exists [].
    apply (cluster_steps_trans Sample.cfg Sample.Buffer_from_base64
             Sample.PublicKey_toBytes Sample.nacl_sign_detached_verify
             _ {| store := Sample.store; in_flight := [] |} _).
    - pose proof (serve_all_cluster_steps Sample.cfg Sample.Buffer_from_base64
                    Sample.PublicKey_toBytes Sample.nacl_sign_detached_verify
                    Sample.chain Sample.history empty_db) as H.
      rewrite sample_store_served in H. exact H.
    - apply serve_all_cluster_steps. }
  destruct (reachable_tallied Sample.cfg Sample.Buffer_from_base64
              Sample.PublicKey_toBytes Sample.nacl_sign_detached_verify db Hreach)
    as (_ & _ & _ & H).
  intros m Hm. destruct (H m Hm) as (H1 & _ & _ & H4 & _). split; assumption.
Defined.
